(** * altrep.cpp: R vectors that shadow Arrow chunked arrays

    A shallow embedding of [r/src/altrep.cpp]: the position resolver
    [ArrayResolve], the base class [AltrepVectorBase] and its three
    implementations [AltrepVectorPrimitive], [AltrepFactor] and
    [AltrepVectorString], the dispatch [MakeAltrepVector], and the way
    back from an R vector to its array, [is_arrow_altrep] and
    [vec_to_arrow_altrep_bypass]. *)

From Stdlib Require Import ZArith List Bool Lia String Ascii.
Import ListNotations.

Open Scope Z_scope.

(** ** Machine integers and doubles *)

Definition INT32_MIN : Z := -2147483648.
Definition INT32_MAX : Z := 2147483647.
Definition INT64_MIN : Z := -9223372036854775808.
Definition INT64_MAX : Z := 9223372036854775807.

(** R's missing integer is the least 32-bit integer. *)
Definition NA_INTEGER : Z := INT32_MIN.

(** Two's complement wrap-around of [z] to [w] bits. *)
Definition wrap (w : Z) (z : Z) : Z :=
  (z + 2 ^ (w - 1)) mod 2 ^ w - 2 ^ (w - 1).

(** Conversion to [int] (32 bits) and to [int64_t]. *)
Definition to_int (z : Z) : Z := wrap 32 z.
Definition to_int64 (z : Z) : Z := wrap 64 z.

(** A double, as far as this file looks into one: R's missing value, the
    two infinities, any other NaN, and the finite values [m * 2^e]. *)
Inductive double : Type :=
| NA_REAL
| R_PosInf
| R_NegInf
| NaN
| finite (m e : Z).

(** [static_cast<double>] of a 64-bit integer: the integer is kept when it
    has at most 53 significant bits and is rounded to 53 bits, ties to
    even, otherwise.  The result is again an integer. *)
Definition round_to_double (v : Z) : Z :=
  let a := Z.abs v in
  let digits := Z.log2 a + 1 in
  if digits <=? 53 then v
  else
    let sh := digits - 53 in
    let q := a / 2 ^ sh in
    let r := a mod 2 ^ sh in
    let half := 2 ^ (sh - 1) in
    let q' := if (half <? r) || ((r =? half) && Z.odd q) then q + 1 else q in
    Z.sgn v * (q' * 2 ^ sh).

Definition static_cast_double (v : Z) : double := finite (round_to_double v) 0.

(** The vector types of R that the primitive class is instantiated at, and
    the C type of their elements. *)
Inductive SEXPTYPE : Type := INTSXP | REALSXP.

Definition c_type (sexp_type : SEXPTYPE) : Type :=
  match sexp_type with
  | INTSXP => Z
  | REALSXP => double
  end.

(** [cpp11::na<c_type>()] *)
Definition na (sexp_type : SEXPTYPE) : c_type sexp_type :=
  match sexp_type with
  | INTSXP => NA_INTEGER
  | REALSXP => NA_REAL
  end.

(** A length-one R vector, as [Rf_ScalarInteger] and [Rf_ScalarReal] build. *)
Inductive scalar : Type :=
| Rf_ScalarInteger (v : Z)
| Rf_ScalarReal (d : double).

(** [cpp11::as_sexp] of one element. *)
Definition as_sexp (sexp_type : SEXPTYPE) : c_type sexp_type -> scalar :=
  match sexp_type with
  | INTSXP => Rf_ScalarInteger
  | REALSXP => Rf_ScalarReal
  end.

(** ** Arrow arrays *)

(** [arrow::Type::type], the ids this file switches on and one more. *)
Inductive Type_id : Type :=
| UINT8 | INT8 | UINT16 | INT16 | UINT32 | INT32 | UINT64 | INT64
| DOUBLE | STRING | LARGE_STRING | DICTIONARY | BOOL.

Definition Type_id_eqb (a b : Type_id) : bool :=
  match a, b with
  | UINT8, UINT8 | INT8, INT8 | UINT16, UINT16 | INT16, INT16
  | UINT32, UINT32 | INT32, INT32 | UINT64, UINT64 | INT64, INT64
  | DOUBLE, DOUBLE | STRING, STRING | LARGE_STRING, LARGE_STRING
  | DICTIONARY, DICTIONARY | BOOL, BOOL => true
  | _, _ => false
  end.

Section Arrays.
Context {D T : Type}.

(** Modelled from the spec: [arrow::Array] (arrow/array.h is not under
    src/).  A chunk is immutable and has a length, a null bitmap and a
    raw value buffer: every position holds its validity bit and the raw
    value stored under it, whatever the bit says.  [dictionary_] is what
    the array carries besides ([unit] unless it is dictionary encoded). *)
Record Array : Type := mkArray {
  dictionary_ : D;
  slots : list (bool * T)
}.

(** Modelled from the spec: [Array::length()], the number of positions. *)
Definition length (a : Array) : Z := Z.of_nat (List.length (slots a)).

(** Modelled from the spec: [Array::null_bitmap()], the validity bits from
    the offset of the array on. *)
Definition null_bitmap (a : Array) : list bool := map fst (slots a).

(** Modelled from the spec: [data()->GetValues<c_type>(1)], the raw values
    from the offset of the array on. *)
Definition GetValues (a : Array) : list T := map snd (slots a).

(** Modelled from the spec: [Array::null_count()], the number of positions
    whose validity bit is not set. *)
Definition null_count (a : Array) : Z :=
  Z.of_nat (List.length (filter (fun s => negb (fst s)) (slots a))).

(** Reading position [j]; [None] stands for a read outside the array,
    which C++ leaves undefined. *)
Definition slot_at (a : Array) (j : Z) : option (bool * T) :=
  if j <? 0 then None else nth_error (slots a) (Z.to_nat j).

(** Modelled from the spec: [Array::IsNull(j)], whether the validity bit
    of position [j] is not set. *)
Definition IsNull (a : Array) (j : Z) : option bool :=
  option_map (fun s => negb (fst s)) (slot_at a j).

(** Modelled from the spec: [GetValues<c_type>(1)[j]], the raw value at
    position [j]. *)
Definition value_at (a : Array) (j : Z) : option T :=
  option_map snd (slot_at a j).

(** Modelled from the spec: [Array::Slice(offset, length)], the positions
    from [offset] on, at most [length] of them. *)
Definition Array_Slice (a : Array) (offset len : Z) : Array :=
  mkArray (dictionary_ a)
          (firstn (Z.to_nat len) (skipn (Z.to_nat offset) (slots a))).

(** Modelled from the spec: [arrow::ChunkedArray] (arrow/chunked_array.h
    is not under src/): an ordered sequence of chunks; its length is the
    sum of the chunk lengths and its null count the sum of the chunks'
    null counts. *)
Definition ChunkedArray : Type := list Array.

(** Modelled from the spec: [ChunkedArray::num_chunks()]. *)
Definition num_chunks (ca : ChunkedArray) : Z := Z.of_nat (List.length ca).

(** Modelled from the spec: [ChunkedArray::length()], the sum of the chunk
    lengths. *)
Fixpoint ChunkedArray_length (ca : ChunkedArray) : Z :=
  match ca with
  | [] => 0
  | chunk :: rest => length chunk + ChunkedArray_length rest
  end.

(** Modelled from the spec: [ChunkedArray::null_count()], the sum of the
    null counts of the chunks. *)
Fixpoint ChunkedArray_null_count (ca : ChunkedArray) : Z :=
  match ca with
  | [] => 0
  | chunk :: rest => null_count chunk + ChunkedArray_null_count rest
  end.

(** Modelled from the spec: the first half of [ChunkedArray::Slice]
    (arrow/chunked_array.cc is not under src/): the chunks that end at or
    before [offset] are left out. *)
Fixpoint Slice_skip (ca : ChunkedArray) (offset : Z) : ChunkedArray * Z :=
  match ca with
  | [] => ([], offset)
  | c :: rest =>
      if length c <=? offset then Slice_skip rest (offset - length c)
      else (ca, offset)
  end.

(** Modelled from the spec: the second half of [ChunkedArray::Slice]:
    from the chunk that covers [offset] on, every chunk contributes its
    own slice, for as long as positions are still wanted. *)
Fixpoint Slice_take (ca : ChunkedArray) (offset len : Z) : ChunkedArray :=
  match ca with
  | [] => []
  | c :: rest =>
      if 0 <? len
      then Array_Slice c offset len
             :: Slice_take rest 0 (len - (length c - offset))
      else []
  end.

(** Modelled from the spec: [ChunkedArray::Slice(offset, length)], the
    slicing operation of the columnar library: the chunk-aligned sub-view
    of the positions [offset, offset + length). *)
Definition Slice (ca : ChunkedArray) (offset len : Z) : ChunkedArray :=
  let (rest, off) := Slice_skip ca offset in
  Slice_take rest off len.

(** *** [ArrayResolve]: from a global index to chunk, local index and
    chunk ordinal *)
Record ArrayResolve : Type := mkArrayResolve {
  array_ : option Array;     (* a null pointer when no chunk was found *)
  index_ : Z;
  position_ : Z
}.

(** The loop of the constructor, from chunk [idx_chunk] on. *)
Fixpoint ArrayResolve_loop (chunks : list Array) (idx_chunk i : Z)
  : ArrayResolve :=
  match chunks with
  | [] => mkArrayResolve None 0 0
  | chunk :: rest =>
      let chunk_size := length chunk in
      if i <? chunk_size
      then mkArrayResolve (Some chunk) i idx_chunk
      else ArrayResolve_loop rest (idx_chunk + 1) (i - chunk_size)
  end.

Definition ArrayResolve_new (chunked_array : ChunkedArray) (i : Z)
  : ArrayResolve :=
  ArrayResolve_loop chunked_array 0 i.
End Arrays.

Arguments Array : clear implicits.
Arguments ChunkedArray : clear implicits.
Arguments ArrayResolve : clear implicits.

(** ** The R side *)

(** A standard R vector: where it lives (its identity) and its payload. *)
Record vector (T : Type) : Type := mkVector {
  address : nat;
  DATAPTR : list T
}.
Arguments mkVector {T}.
Arguments address {T}.
Arguments DATAPTR {T}.

(** The attributes this file sets: factor levels and class. *)
Record attributes : Type := mkAttributes {
  R_LevelsSymbol : option (list string);
  R_ClassSymbol : option (list string)
}.

(** An ALTREP object: its two data slots and its attributes. *)
Record altrep (D1 D2 : Type) : Type := mkAltrep {
  R_altrep_data1 : D1;
  R_altrep_data2 : D2;
  ATTRIB : attributes
}.
Arguments mkAltrep {D1 D2}.
Arguments R_altrep_data1 {D1 D2}.
Arguments R_altrep_data2 {D1 D2}.
Arguments ATTRIB {D1 D2}.

Definition R_new_altrep {D1 D2} (data1 : D1) (data2 : D2) : altrep D1 D2 :=
  mkAltrep data1 data2 (mkAttributes None None).

Definition R_set_altrep_data2 {D1 D2} (alt : altrep D1 D2) (x : D2)
  : altrep D1 D2 :=
  mkAltrep (R_altrep_data1 alt) x (ATTRIB alt).

(** What a method runs in: the object it is called on, the number of R
    vectors allocated so far (the next free address) and the warnings
    raised so far. *)
Record session (Alt : Type) : Type := mkSession {
  object : Alt;
  allocated : nat;
  warnings : list string
}.
Arguments mkSession {Alt}.
Arguments object {Alt}.
Arguments allocated {Alt}.
Arguments warnings {Alt}.

(** What a method ends with: a value, an R error with its message, or a
    read outside a buffer, which C++ leaves undefined. *)
Inductive result (A : Type) : Type :=
| Ok (a : A)
| R_error (message : string)
| undefined.
Arguments Ok {A}.
Arguments R_error {A}.
Arguments undefined {A}.

(** [Rf_allocVector]: a vector at the next free address.  R leaves the
    payload uninitialised; the model fills it with [garbage]. *)
Definition Rf_allocVector {T} (garbage : T) (size : Z) (next : nat) : vector T :=
  mkVector next (repeat garbage (Z.to_nat size)).

(** What a call of [Rf_coerceVector] comes to: the vector of the type
    asked for that R returns (its address; the vector it was given when
    that has the type already) or the R error it raises, the number of
    vectors it allocates and the warnings it raises on the way (a value
    that does not fit the new type, say). *)
Record coercion : Type := mkCoercion {
  coerced : result nat;
  allocations : nat;
  raised : list string
}.

(** [Rf_duplicate]: the same payload at a new address. *)
Definition Rf_duplicate {T} (v : vector T) (next : nat) : vector T :=
  mkVector next (DATAPTR v).

(** Modelled from the spec: the standard region copy of the host
    ([INTEGER_GET_REGION], [REAL_GET_REGION] of R): for a start inside the
    vector it copies [min(n, length - start)] values from the cache to the
    front of [buf] and returns their number; a start at or beyond the end
    copies nothing. *)
Definition Standard_Get_region {T} (data2 : vector T) (i n : Z) (buf : list T)
  : Z * list T :=
  let region := firstn (Z.to_nat n) (skipn (Z.to_nat i) (DATAPTR data2)) in
  (Z.of_nat (List.length region),
   region ++ skipn (List.length region) buf).

(** Pointers handed to R: into the payload of a standard vector, into the
    value buffer of a chunk, or null. *)
Inductive pointer : Type :=
| nullptr
| into_vector (address : nat)
| into_chunk (idx_chunk : nat).

(** The data pointer of a standard vector. *)
Definition DATAPTR_of {T} (x : option (vector T)) : pointer :=
  match x with
  | Some v => into_vector (address v)
  | None => nullptr
  end.

(** Writing through a pointer into a buffer held as a list. *)
Definition memcpy {T} (buf : list T) (out : nat) (src : list T) : list T :=
  firstn out buf ++ src ++ skipn (out + List.length src) buf.

Fixpoint store {T} (buf : list T) (out : nat) (x : T) : list T :=
  match buf, out with
  | [], _ => []
  | _ :: rest, O => x :: rest
  | y :: rest, S out' => y :: store rest out' x
  end.

(** ** Aggregate kernels *)

(** [arrow::compute::ScalarAggregateOptions] *)
Record ScalarAggregateOptions : Type := mkOptions {
  skip_nulls : bool;
  min_count : Z
}.

(** The non-null values of a chunked array, in order. *)
Definition valid_values {D T} (ca : ChunkedArray D T) : list T :=
  List.concat (map (fun a => map snd (filter fst (slots a))) ca).

(** [arrow::Int64Scalar] *)
Record Int64Scalar : Type := mkInt64Scalar {
  is_valid : bool;
  value : Z
}.

(** Modelled from the spec: the "sum" kernel on an int32 column
    (arrow/compute is not under src/): the accumulator is wider than the
    element type, a 64-bit integer, and the sum runs over the non-null
    values (the sum of nothing is 0).  The scalar is null when nulls are
    present and not skipped. *)
Definition sum_int32 (options : ScalarAggregateOptions)
  (ca : ChunkedArray unit Z) : Int64Scalar :=
  mkInt64Scalar
    (skip_nulls options || (ChunkedArray_null_count ca =? 0))
    (fold_left (fun acc v => to_int64 (acc + v)) (valid_values ca) 0).

(** Modelled from the spec: the "min_max" kernel on an int32 column: the
    least and the greatest non-null value. *)
Definition min_max_int32 (options : ScalarAggregateOptions)
  (ca : ChunkedArray unit Z) : Z * Z :=
  (fold_left Z.min (valid_values ca) INT32_MAX,
   fold_left Z.max (valid_values ca) INT32_MIN).

(** Modelled from the spec: the "sum" and "min_max" kernels on a double
    column, consumed as black boxes; all the spec fixes is that the sum of
    nothing is 0 under skip-nulls. *)
Class double_kernels : Type := {
  sum_double : ScalarAggregateOptions -> ChunkedArray unit double -> double;
  min_max_double :
    ScalarAggregateOptions -> ChunkedArray unit double -> double * double;
  sum_double_nothing : forall options ca,
    skip_nulls options = true ->
    valid_values ca = [] ->
    sum_double options ca = finite 0 0
}.

(** The kernels at each element type. *)
Definition CallFunction_sum {kernels : double_kernels} (sexp_type : SEXPTYPE)
  : ScalarAggregateOptions -> ChunkedArray unit (c_type sexp_type) ->
    match sexp_type with INTSXP => Int64Scalar | REALSXP => double end :=
  match sexp_type with
  | INTSXP => sum_int32
  | REALSXP => sum_double
  end.

Definition CallFunction_min_max {kernels : double_kernels}
  (sexp_type : SEXPTYPE)
  : ScalarAggregateOptions -> ChunkedArray unit (c_type sexp_type) ->
    c_type sexp_type * c_type sexp_type :=
  match sexp_type with
  | INTSXP => min_max_int32
  | REALSXP => min_max_double
  end.

(** ** [AltrepVectorBase] *)

Module AltrepVectorBase.
Section Impl.
Context {D T D2 V : Type}.
Let Alt : Type := altrep (ChunkedArray D T) D2.

(** What the implementation supplies. *)
Variable Representation : Alt -> option (vector V).
Variable Materialize :
  session Alt -> result (option (vector V)) * session Alt.

Definition GetChunkedArray (alt : Alt) : ChunkedArray D T :=
  R_altrep_data1 alt.

Definition IsMaterialized (alt : Alt) : bool :=
  match Representation alt with
  | Some _ => true
  | None => false
  end.

Definition Length (alt : Alt) : Z :=
  ChunkedArray_length (GetChunkedArray alt).

Definition No_NA (alt : Alt) : bool :=
  ChunkedArray_null_count (GetChunkedArray alt) =? 0.

(** [UNKNOWN_SORTEDNESS] of R is [INT_MIN]. *)
Definition Is_sorted (alt : Alt) : Z := INT32_MIN.

(** What [Inspect] prints: chunks, nulls and length. *)
Definition Inspect (alt : Alt) : Z * Z * Z :=
  let chunked_array := GetChunkedArray alt in
  (num_chunks chunked_array, ChunkedArray_null_count chunked_array,
   ChunkedArray_length chunked_array).

(** Materialize and then duplicate data2. *)
Definition Duplicate (s : session Alt)
  : result (option (vector V)) * session Alt :=
  match Materialize s with
  | (Ok None, s') => (Ok None, s')
  | (Ok (Some v), s') =>
      (Ok (Some (Rf_duplicate v (allocated s'))),
       mkSession (object s') (S (allocated s')) (warnings s'))
  | (R_error message, s') => (R_error message, s')
  | (undefined, s') => (undefined, s')
  end.

(** [Rf_coerceVector] of the materialized vector.  The coercion is R's:
    [Rf_coerceVector] is given the vector, the type asked for and the next
    free address, and what it comes to is taken as it is; it reads the
    vector it is given and does not write to it. *)
Definition Coerce
  (Rf_coerceVector : option (vector V) -> Z -> nat -> coercion)
  (s : session Alt) (type : Z) : result nat * session Alt :=
  match Materialize s with
  | (Ok x, s') =>
      let c := Rf_coerceVector x type (allocated s') in
      (coerced c,
       mkSession (object s') (allocated s' + allocations c)
                 (warnings s' ++ raised c))
  | (R_error message, s') => (R_error message, s')
  | (undefined, s') => (undefined, s')
  end.

Definition Serialized_state (s : session Alt)
  : result (option (vector V)) * session Alt :=
  Materialize s.
End Impl.

Definition Unserialize {V} (state : option (vector V)) : option (vector V) :=
  state.

Section Defaults.
Context {D T V : Type}.
Let Alt : Type := altrep (ChunkedArray D T) (option (vector V)).

(** Store the array in data1; data2 starts as [R_NilValue]. *)
Definition Make (chunked_array : ChunkedArray D T) : Alt :=
  R_new_altrep chunked_array None.

Definition Representation (alt : Alt) : option (vector V) :=
  R_altrep_data2 alt.

Definition SetRepresentation (alt : Alt) (x : vector V) : Alt :=
  R_set_altrep_data2 alt (Some x).
End Defaults.
End AltrepVectorBase.

(** ** [AltrepVectorPrimitive<sexp_type>] *)

Module AltrepVectorPrimitive.
Section Primitive.
Context {kernels : double_kernels}.
Variable sexp_type : SEXPTYPE.

Definition Alt : Type :=
  altrep (ChunkedArray unit (c_type sexp_type))
         (option (vector (c_type sexp_type))).

Definition Representation (alt : Alt) := AltrepVectorBase.Representation alt.
Definition SetRepresentation (alt : Alt) x :=
  AltrepVectorBase.SetRepresentation alt x.
Definition IsMaterialized (alt : Alt) : bool :=
  AltrepVectorBase.IsMaterialized Representation alt.
Definition GetChunkedArray (alt : Alt) := AltrepVectorBase.GetChunkedArray alt.
Definition Length (alt : Alt) : Z := AltrepVectorBase.Length alt.

(** The second pass over one chunk: [out[j]] becomes the sentinel where
    the bitmap bit is not set. *)
Fixpoint set_sentinels (bitmap : list bool) (out : nat)
  (buf : list (c_type sexp_type)) : list (c_type sexp_type) :=
  match bitmap with
  | [] => buf
  | bit :: rest =>
      set_sentinels rest (S out)
        (if bit then buf else store buf out (na sexp_type))
  end.

(** The loop over the chunks of the slice. *)
Fixpoint copy_chunks (chunks : list (Array unit (c_type sexp_type)))
  (out : nat) (buf : list (c_type sexp_type)) : list (c_type sexp_type) :=
  match chunks with
  | [] => buf
  | array :: rest =>
      let n_i := List.length (slots array) in
      let buf := memcpy buf out (GetValues array) in
      let buf :=
        if 0 <? null_count array
        then set_sentinels (null_bitmap array) out buf
        else buf in
      copy_chunks rest (out + n_i)%nat buf
  end.

Definition Get_region (alt : Alt) (i n : Z) (buf : list (c_type sexp_type))
  : Z * list (c_type sexp_type) :=
  match Representation alt with
  | Some data2 => Standard_Get_region data2 i n buf
  | None =>
      let slice := Slice (GetChunkedArray alt) i n in
      let ncopy := ChunkedArray_length slice in
      (ncopy, copy_chunks slice 0 buf)
  end.

Definition Materialize (s : session Alt)
  : result (option (vector (c_type sexp_type))) * session Alt :=
  let alt := object s in
  if negb (IsMaterialized alt) then
    let size := Length alt in
    let copy := Rf_allocVector (na sexp_type) size (allocated s) in
    let copy :=
      mkVector (address copy) (snd (Get_region alt 0 size (DATAPTR copy))) in
    let alt := SetRepresentation alt copy in
    (Ok (Representation alt),
     mkSession alt (S (allocated s)) (warnings s))
  else (Ok (Representation alt), s).

Definition Dataptr_or_null (alt : Alt) : pointer :=
  match Representation alt with
  | Some data2 => into_vector (address data2)
  | None =>
      let chunked_array := GetChunkedArray alt in
      if (num_chunks chunked_array =? 1)
         && (ChunkedArray_null_count chunked_array =? 0)
      then into_chunk 0
      else nullptr
  end.

Definition Dataptr (s : session Alt) (writeable : bool)
  : result pointer * session Alt :=
  let alt := object s in
  let chunked_array := GetChunkedArray alt in
  if negb (IsMaterialized alt)
     && ((num_chunks chunked_array =? 1)
         && (ChunkedArray_null_count chunked_array =? 0))
  then (Ok (into_chunk 0), s)
  else
    match Materialize s with
    | (Ok x, s') => (Ok (DATAPTR_of x), s')
    | (R_error message, s') => (R_error message, s')
    | (undefined, s') => (undefined, s')
    end.

(** The value at position [i]. *)
Definition Elt (alt : Alt) (i : Z) : option (c_type sexp_type) :=
  let resolve := ArrayResolve_new (GetChunkedArray alt) i in
  match array_ resolve with
  | None => None
  | Some array =>
      let j := index_ resolve in
      match IsNull array j, value_at array j with
      | Some is_null, Some v => Some (if is_null then na sexp_type else v)
      | _, _ => None
      end
  end.

Definition NaRmOptions (na_rm : bool) : ScalarAggregateOptions :=
  mkOptions na_rm 0.

Definition MinMax (Min : bool) (alt : Alt) (narm : bool) : scalar :=
  let chunked_array := GetChunkedArray alt in
  let na_rm := narm in
  let n := ChunkedArray_length chunked_array in
  let null_count := ChunkedArray_null_count chunked_array in
  if (na_rm || (n =? 0)) && (null_count =? n) then
    Rf_ScalarReal (if Min then R_PosInf else R_NegInf)
  else if negb na_rm && (0 <? null_count) then
    as_sexp sexp_type (na sexp_type)
  else
    let options := NaRmOptions na_rm in
    let minmax := CallFunction_min_max sexp_type options chunked_array in
    as_sexp sexp_type (if Min then fst minmax else snd minmax).

Definition Min (alt : Alt) (narm : bool) : scalar := MinMax true alt narm.
Definition Max (alt : Alt) (narm : bool) : scalar := MinMax false alt narm.

Definition Sum (alt : Alt) (narm : bool) : scalar :=
  let chunked_array := GetChunkedArray alt in
  let na_rm := narm in
  let null_count := ChunkedArray_null_count chunked_array in
  if negb na_rm && (0 <? null_count) then
    as_sexp sexp_type (na sexp_type)
  else
    let options := NaRmOptions na_rm in
    match sexp_type
          return ChunkedArray unit (c_type sexp_type) -> scalar with
    | INTSXP => fun chunked_array =>
        let value := value (CallFunction_sum INTSXP options chunked_array) in
        if (value <=? INT32_MIN) || (INT32_MAX <? value)
        then Rf_ScalarReal (static_cast_double value)
        else Rf_ScalarInteger (to_int value)
    | REALSXP => fun chunked_array =>
        Rf_ScalarReal (CallFunction_sum REALSXP options chunked_array)
    end chunked_array.

Definition Duplicate := AltrepVectorBase.Duplicate Materialize.
Definition Coerce := AltrepVectorBase.Coerce Materialize.
Definition Serialized_state := AltrepVectorBase.Serialized_state Materialize.
End Primitive.
End AltrepVectorPrimitive.

(** ** [AltrepFactor] *)

(** What a dictionary array carries besides its indices: the type of the
    indices, the type of the dictionary values, the dictionary itself (its
    labels, in order) and whether the type is ordered. *)
Record Dictionary : Type := mkDictionary {
  indices_type : Type_id;
  dictionary_type : Type_id;
  dictionary : list string;
  ordered : bool
}.

Definition DictionaryArray : Type := Array Dictionary Z.

Definition dictionary_Equals (a b : list string) : bool :=
  if list_eq_dec string_dec a b then true else false.

(** Modelled from the spec: [DictionaryChunkArrayNeedUnification] (declared
    in arrow_types.h, defined outside src/): whether the chunks fail to
    share one identical dictionary, that is whether some chunk's dictionary
    differs from that of chunk 0. *)
Definition DictionaryChunkArrayNeedUnification
  (chunked_array : list DictionaryArray) : bool :=
  match chunked_array with
  | [] => false
  | arr_first :: rest =>
      existsb (fun arr =>
                 negb (dictionary_Equals (dictionary (dictionary_ arr_first))
                                         (dictionary (dictionary_ arr))))
              rest
  end.

(** Modelled from the spec: [arrow::DictionaryUnifier]
    (arrow/array/array_dict.cc is not under src/): the unified dictionary
    merges the dictionaries it is given, in order; a label seen before
    keeps its unified index (duplicate labels collapse to one), a new one
    goes to the end.  [Unify] returns the transpose table of one
    dictionary: local index to unified index. *)
Module DictionaryUnifier.
Fixpoint index_of (s : string) (memo : list string) : option nat :=
  match memo with
  | [] => None
  | x :: rest =>
      if String.eqb x s then Some O
      else option_map S (index_of s rest)
  end.

Definition GetOrInsert (memo : list string) (s : string)
  : list string * Z :=
  match index_of s memo with
  | Some k => (memo, Z.of_nat k)
  | None => (memo ++ [s], Z.of_nat (List.length memo))
  end.

Fixpoint Unify (memo : list string) (dict : list string)
  : list string * list Z :=
  match dict with
  | [] => (memo, [])
  | s :: rest =>
      let (memo, k) := GetOrInsert memo s in
      let (memo, transpose) := Unify memo rest in
      (memo, k :: transpose)
  end.
End DictionaryUnifier.

Definition BufferVector : Type := list (list Z).

(** Reading [buffer[i]]. *)
Definition read {T} (buffer : list T) (i : Z) : option T :=
  if i <? 0 then None else nth_error buffer (Z.to_nat i).

(** Modelled from the spec: [Array__as_vector] on a string dictionary
    (array_to_vector.cpp is not under src/): the labels as an R character
    vector. *)
Definition Array__as_vector (dictionary : list string) : list string :=
  dictionary.

Definition classes_ordered : list string := ["ordered"; "factor"]%string.
Definition classes_factor : list string := ["factor"]%string.

Module AltrepFactor.
(** data2 is a pairlist: the representation in the CAR, the transpose
    buffers (or [R_NilValue]) in the CADR. *)
Record pairlist : Type := Rf_list2 {
  CAR : option (vector Z);
  CADR : option BufferVector
}.

Definition Alt : Type := altrep (list DictionaryArray) pairlist.

Definition Representation (alt : Alt) : option (vector Z) :=
  CAR (R_altrep_data2 alt).

Definition SetRepresentation (alt : Alt) (x : vector Z) : Alt :=
  R_set_altrep_data2 alt (Rf_list2 (Some x) (CADR (R_altrep_data2 alt))).

Definition IsMaterialized (alt : Alt) : bool :=
  AltrepVectorBase.IsMaterialized Representation alt.
Definition GetChunkedArray (alt : Alt) : list DictionaryArray :=
  AltrepVectorBase.GetChunkedArray alt.
Definition Length (alt : Alt) : Z := AltrepVectorBase.Length alt.

Definition WasUnified (alt : Alt) : bool :=
  match CADR (R_altrep_data2 alt) with
  | Some _ => true
  | None => false
  end.

Definition GetArrayTransposed (alt : Alt) (i : Z) : option (list Z) :=
  match CADR (R_altrep_data2 alt) with
  | Some arrays => read arrays i
  | None => None
  end.

(** The loop of [Make] that unifies the dictionary of every chunk. *)
Fixpoint unify_chunks (unifier_ : list string)
  (chunks : list DictionaryArray) : list string * BufferVector :=
  match chunks with
  | [] => (unifier_, [])
  | chunk_i :: rest =>
      let (unifier_, transpose_i) :=
        DictionaryUnifier.Unify unifier_ (dictionary (dictionary_ chunk_i)) in
      let (unifier_, arrays_transpose) := unify_chunks unifier_ rest in
      (unifier_, transpose_i :: arrays_transpose)
  end.

(** [None] is [R_NilValue]: the class declines.  Chunk 0 is read
    unchecked; the dispatch calls [Make] on arrays with an element, hence
    with a chunk. *)
Definition Make (chunked_array : list DictionaryArray) : option Alt :=
  match chunked_array with
  | [] => None
  | chunk_0 :: _ =>
      if negb (Type_id_eqb (dictionary_type (dictionary_ chunk_0)) STRING)
      then None
      else
        let need_unification :=
          DictionaryChunkArrayNeedUnification chunked_array in
        let (dictionary, pointer_arrays_transpose) :=
          if need_unification then
            let (dictionary, arrays_transpose) :=
              unify_chunks [] chunked_array in
            (dictionary, Some arrays_transpose)
          else
            (dictionary (dictionary_ chunk_0), None) in
        let data1 := chunked_array in
        let data2 := Rf_list2 None pointer_arrays_transpose in
        Some (mkAltrep data1 data2
                (mkAttributes
                   (Some (Array__as_vector dictionary))
                   (Some (if ordered (dictionary_ chunk_0)
                          then classes_ordered else classes_factor))))
  end.

(** The value at position [i]. *)
Definition Elt (alt : Alt) (i : Z) : option Z :=
  match Representation alt with
  | Some data2 => read (DATAPTR data2) i
  | None =>
      let resolve := ArrayResolve_new (GetChunkedArray alt) i in
      match array_ resolve with
      | None => None
      | Some array =>
          let j := index_ resolve in
          match IsNull array j, value_at array j with
          | Some false, Some index =>
              if WasUnified alt then
                match GetArrayTransposed alt (position_ resolve) with
                | None => None
                | Some transpose_data =>
                    match indices_type (dictionary_ array) with
                    | UINT8 | INT8 | UINT16 | INT16
                    | INT32 | UINT32 | INT64 | UINT64 =>
                        option_map (fun t => to_int (t + 1))
                                   (read transpose_data index)
                    | _ => Some NA_INTEGER
                    end
                end
              else
                match indices_type (dictionary_ array) with
                | UINT8 | INT8 | UINT16 | INT16
                | INT32 | UINT32 | INT64 | UINT64 =>
                    Some (to_int (index + 1))
                | _ => Some NA_INTEGER
                end
          | Some true, Some _ => Some NA_INTEGER
          | _, _ => None
          end
      end
  end.

(** Modelled from the spec: [VisitArraySpanInline] (arrow/visit_data_inline.h
    is not under src/) visits every position in order and calls one
    function on the value of a valid position and the other at a null
    one.  With the two functions of [GetRegionTranspose]:
    [transpose(index) + 1] where the position is valid and the sentinel
    where it is null.  [transpose] takes an [int]. *)
Fixpoint GetRegionTranspose (slots : list (bool * Z))
  (transpose : Z -> option Z) (out : nat) (buf : list Z)
  : option (list Z) :=
  match slots with
  | [] => Some buf
  | (true, index) :: rest =>
      match transpose (to_int index) with
      | Some t =>
          GetRegionTranspose rest transpose (S out)
                             (store buf out (to_int (t + 1)))
      | None => None
      end
  | (false, _) :: rest =>
      GetRegionTranspose rest transpose (S out) (store buf out NA_INTEGER)
  end.

(** Modelled from the spec: the macro ARROW_GENERATE_FOR_ALL_INTEGER_TYPES
    (arrow/type_traits.h is not under src/) generates one case for each of
    the eight signed and unsigned integer types; any other type writes
    nothing. *)
Definition GetRegionDispatch (array : DictionaryArray)
  (transpose : Z -> option Z) (out : nat) (buf : list Z)
  : option (list Z) :=
  match indices_type (dictionary_ array) with
  | INT8 | UINT8 | INT16 | UINT16 | INT32 | UINT32 | INT64 | UINT64 =>
      GetRegionTranspose (slots array) transpose out buf
  | _ => Some buf
  end.

(** Which is the first chunk of the chunked array that is present in the
    slice: the loop over [j] and [k]. *)
Fixpoint first_chunk (chunks : list DictionaryArray) (j k start : Z) : Z :=
  match chunks with
  | [] => j
  | chunk_j :: rest =>
      let nj := length chunk_j in
      if start <? k + nj then j
      else first_chunk rest (j + 1) (k + nj) start
  end.

(** The main loop when the dictionaries were unified. *)
Fixpoint region_transposed (alt : Alt) (chunks : list DictionaryArray)
  (j : Z) (out : nat) (buf : list Z) : option (list Z) :=
  match chunks with
  | [] => Some buf
  | array :: rest =>
      match GetArrayTransposed alt j with
      | None => None
      | Some transpose_data =>
          match GetRegionDispatch array (read transpose_data) out buf with
          | Some buf =>
              region_transposed alt rest (j + 1)
                                (out + List.length (slots array))%nat buf
          | None => None
          end
      end
  end.

(** The main loop with the identity transpose. *)
Fixpoint region_identity (chunks : list DictionaryArray)
  (out : nat) (buf : list Z) : option (list Z) :=
  match chunks with
  | [] => Some buf
  | array :: rest =>
      match GetRegionDispatch array (fun x => Some x) out buf with
      | Some buf =>
          region_identity rest (out + List.length (slots array))%nat buf
      | None => None
      end
  end.

Definition Get_region (alt : Alt) (start n : Z) (buf : list Z)
  : option (Z * list Z) :=
  match Representation alt with
  | Some data2 => Some (Standard_Get_region data2 start n buf)
  | None =>
      let chunked_array := GetChunkedArray alt in
      let chunked_array_size := ChunkedArray_length chunked_array in
      if chunked_array_size <=? start then Some (0, buf)
      else
        let slice := Slice chunked_array start n in
        option_map (fun buf => (ChunkedArray_length slice, buf))
          (if WasUnified alt then
             let j := first_chunk chunked_array 0 0 start in
             region_transposed alt slice j 0 buf
           else region_identity slice 0 buf)
  end.

Definition Materialize (s : session Alt)
  : result (option (vector Z)) * session Alt :=
  let alt := object s in
  if negb (IsMaterialized alt) then
    let size := Length alt in
    let copy := Rf_allocVector NA_INTEGER size (allocated s) in
    match Get_region alt 0 size (DATAPTR copy) with
    | None => (undefined, mkSession alt (S (allocated s)) (warnings s))
    | Some (_, data) =>
        let copy := mkVector (address copy) data in
        let alt := SetRepresentation alt copy in
        (Ok (Representation alt),
         mkSession alt (S (allocated s)) (warnings s))
    end
  else (Ok (Representation alt), s).

Definition Dataptr_or_null (alt : Alt) : pointer :=
  match Representation alt with
  | Some data2 => into_vector (address data2)
  | None => nullptr
  end.

Definition Dataptr (s : session Alt) (writeable : bool)
  : result pointer * session Alt :=
  match Materialize s with
  | (Ok x, s') => (Ok (DATAPTR_of x), s')
  | (R_error message, s') => (R_error message, s')
  | (undefined, s') => (undefined, s')
  end.

(** The duplicate carries the attributes of the altrep object. *)
Definition Duplicate (s : session Alt)
  : result (option (vector Z) * attributes) * session Alt :=
  match Materialize s with
  | (Ok x, s') => (Ok (x, ATTRIB (object s')), s')
  | (R_error message, s') => (R_error message, s')
  | (undefined, s') => (undefined, s')
  end.

Definition Coerce := AltrepVectorBase.Coerce Materialize.
Definition Serialized_state := AltrepVectorBase.Serialized_state Materialize.

(** The aggregates are not provided: a null pointer. *)
Definition Min (alt : Alt) (narm : bool) : option scalar := None.
Definition Max (alt : Alt) (narm : bool) : option scalar := None.
Definition Sum (alt : Alt) (narm : bool) : option scalar := None.
End AltrepFactor.

(** ** [AltrepVectorString<Type>] *)

(** An R string (CHARSXP): the missing string or the bytes given to
    [Rf_mkCharLenCE]. *)
Inductive CHARSXP : Type :=
| NA_STRING
| Rf_mkCharLenCE (bytes : list ascii).

Definition nul : ascii := Ascii.zero.

Definition is_nul (c : ascii) : bool := Ascii.eqb c nul.

Definition is_percent (c : ascii) : bool := Ascii.eqb c "%".

(** [c_str()] of a [std::string] read as a C string: the characters before
    the first nul. *)
Fixpoint c_str (text : string) : string :=
  match text with
  | EmptyString => EmptyString
  | String c rest => if is_nul c then EmptyString else String c (c_str rest)
  end.

(** What [vsnprintf] prints for a format that no argument follows: [%%]
    prints one percent sign and every other character prints itself; a
    percent sign before anything else starts a conversion that is not
    valid or that takes an argument that was not passed, and C leaves both
    undefined ([None]). *)
Fixpoint vsnprintf (format : string) : option string :=
  match format with
  | EmptyString => Some EmptyString
  | String c rest =>
      if is_percent c then
        match rest with
        | String c' rest' =>
            if is_percent c'
            then option_map (String "%") (vsnprintf rest')
            else None
        | EmptyString => None
        end
      else option_map (String c) (vsnprintf rest)
  end.

(** The length R cuts a message to: its option warning.length, at its
    default. *)
Definition R_WarnLength : nat := 1000.

(** [Rf_error(format)] with no argument after the format: R prints the
    format with [vsnprintf] into a buffer of [R_WarnLength] bytes, so the
    message is the text printed, cut to what the buffer holds before its
    closing nul, and raises the error. *)
Definition Rf_error {A} (format : string) : result A :=
  match vsnprintf format with
  | Some text => R_error (substring 0 (R_WarnLength - 1) text)
  | None => undefined
  end.

(** The class is instantiated at [StringType] and at [LargeStringType];
    the two differ in the width of the offsets only. *)
Module AltrepVectorString.
Definition StringArray : Type := Array unit (list ascii).

Definition Alt : Type :=
  altrep (list StringArray) (option (vector CHARSXP)).

Definition Representation (alt : Alt) := AltrepVectorBase.Representation alt.
Definition SetRepresentation (alt : Alt) x :=
  AltrepVectorBase.SetRepresentation alt x.
Definition IsMaterialized (alt : Alt) : bool :=
  AltrepVectorBase.IsMaterialized Representation alt.
Definition GetChunkedArray (alt : Alt) := AltrepVectorBase.GetChunkedArray alt.
Definition Length (alt : Alt) : Z := AltrepVectorBase.Length alt.
Definition Make (chunked_array : list StringArray) : Alt :=
  AltrepVectorBase.Make chunked_array.

Module RStringViewer.
(** Helper class to convert to R strings.  [strip_out_nuls_] is the
    option arrow.skip_nul, read when the viewer is built. *)
Record t : Type := mk {
  array_ : option StringArray;
  stripped_string_ : list ascii;
  strip_out_nuls_ : bool;
  nul_was_stripped_ : bool
}.

Definition new (arrow_skip_nul : bool) : t :=
  mk None [] arrow_skip_nul false.

Definition SetArray (v : t) (array : StringArray) : t :=
  mk (Some array) (stripped_string_ v) (strip_out_nuls_ v)
     (nul_was_stripped_ v).

Definition nul_was_stripped (v : t) : bool := nul_was_stripped_ v.

(** The loop of [ConvertStripNul] from position [i] on: [old_string] is
    what is left of the view. *)
Fixpoint strip_loop (view_ old_string : list ascii) (i : nat)
  (stripped_string : list ascii) (stripped_len nul_count : nat)
  : list ascii * nat :=
  match old_string with
  | [] => (stripped_string, stripped_len)
  | c :: rest =>
      if is_nul c then
        let nul_count := S nul_count in
        if (nul_count =? 1)%nat
        then
          (* first nul spotted: the scratch string becomes the view *)
          strip_loop view_ rest (S i) view_ i nul_count
        else
          strip_loop view_ rest (S i) stripped_string stripped_len nul_count
      else if (0 <? nul_count)%nat
      then strip_loop view_ rest (S i)
                      (store stripped_string stripped_len c)
                      (S stripped_len) nul_count
      else strip_loop view_ rest (S i) stripped_string stripped_len nul_count
  end.

(** Strip the nuls and then convert to R string. *)
Definition ConvertStripNul (v : t) (view_ : list ascii) : CHARSXP * t :=
  let (stripped_string, stripped_len) :=
    strip_loop view_ view_ 0 (stripped_string_ v) 0 0 in
  (Rf_mkCharLenCE (firstn stripped_len stripped_string),
   mk (array_ v) stripped_string (strip_out_nuls_ v) true).

(** The loop of [Error] over the view: every nul is written as backslash
    0, every other character as it is. *)
Fixpoint escape_nuls (view_ : list ascii) : string :=
  match view_ with
  | [] => EmptyString
  | c :: rest =>
      if is_nul c then String.append "\0" (escape_nuls rest)
      else String c (escape_nuls rest)
  end.

(** The text [Error] builds in [stripped_string_]. *)
Definition Error_text (view_ : list ascii) : string :=
  String.append "embedded nul in string: '"
    (String.append (escape_nuls view_)
       "'; to strip nuls when converting from Arrow to R, set options(arrow.skip_nul = TRUE)").

(** Throw the R error about an embedded nul: the text is handed to
    [Rf_error] as its format, with no argument after it. *)
Definition Error {A} (view_ : list ascii) : result A :=
  Rf_error (c_str (Error_text view_)).
Arguments Error {A} view_ : simpl never.

(** Convert the i'th string of the array to an R string. *)
Definition Convert (v : t) (i : Z) : result CHARSXP * t :=
  match array_ v with
  | None => (undefined, v)
  | Some array =>
      match IsNull array i, value_at array i with
      | Some true, _ => (Ok NA_STRING, v)
      | Some false, Some view_ =>
          let no_nul := negb (existsb is_nul view_) in
          if no_nul then (Ok (Rf_mkCharLenCE view_), v)
          else if strip_out_nuls_ v then
            let (x, v) := ConvertStripNul v view_ in (Ok x, v)
          else (Error view_, v)
      | _, _ => (undefined, v)
      end
  end.
End RStringViewer.

Definition warning_stripped : string :=
  "Stripping '\0' (nul) from character vector".

Definition warn {A} (s : session A) (message : string) : session A :=
  mkSession (object s) (allocated s) (warnings s ++ [message]).

(** Get a single string, either from data2 or directly from the array. *)
Definition Elt (arrow_skip_nul : bool) (s : session Alt) (i : Z)
  : result CHARSXP * session Alt :=
  let alt := object s in
  match Representation alt with
  | Some data2 =>
      match read (DATAPTR data2) i with
      | Some x => (Ok x, s)
      | None => (undefined, s)
      end
  | None =>
      let resolve := ArrayResolve_new (GetChunkedArray alt) i in
      match array_ resolve with
      | None => (undefined, s)
      | Some array =>
          let j := index_ resolve in
          let r_string_viewer :=
            RStringViewer.SetArray (RStringViewer.new arrow_skip_nul) array in
          match RStringViewer.Convert r_string_viewer j with
          | (Ok x, r_string_viewer) =>
              if RStringViewer.nul_was_stripped r_string_viewer
              then (Ok x, warn s warning_stripped)
              else (Ok x, s)
          | (R_error message, _) => (R_error message, s)
          | (undefined, _) => (undefined, s)
          end
      end
  end.

(** The loop over the positions [j] of one chunk. *)
Fixpoint convert_chunk (r_string_viewer : RStringViewer.t) (todo : nat)
  (j : Z) (i : nat) (data2 : list CHARSXP)
  : result (list CHARSXP) * RStringViewer.t :=
  match todo with
  | O => (Ok data2, r_string_viewer)
  | S todo =>
      match RStringViewer.Convert r_string_viewer j with
      | (Ok x, r_string_viewer) =>
          convert_chunk r_string_viewer todo (j + 1) (S i) (store data2 i x)
      | (R_error message, r_string_viewer) =>
          (R_error message, r_string_viewer)
      | (undefined, r_string_viewer) => (undefined, r_string_viewer)
      end
  end.

(** The loop over the chunks. *)
Fixpoint convert_chunks (r_string_viewer : RStringViewer.t)
  (chunks : list StringArray) (i : nat) (data2 : list CHARSXP)
  : result (list CHARSXP) * RStringViewer.t :=
  match chunks with
  | [] => (Ok data2, r_string_viewer)
  | array :: rest =>
      let r_string_viewer := RStringViewer.SetArray r_string_viewer array in
      let ni := List.length (slots array) in
      match convert_chunk r_string_viewer ni 0 i data2 with
      | (Ok data2, r_string_viewer) =>
          convert_chunks r_string_viewer rest (i + ni)%nat data2
      | failed => failed
      end
  end.

(** The vector allocated for data2 stays allocated when the conversion
    jumps out, and nothing refers to it. *)
Definition Materialize (arrow_skip_nul : bool) (s : session Alt)
  : result (option (vector CHARSXP)) * session Alt :=
  let alt := object s in
  match Representation alt with
  | Some data2 => (Ok (Some data2), s)
  | None =>
      let chunked_array := GetChunkedArray alt in
      let data2 :=
        Rf_allocVector (Rf_mkCharLenCE []) (ChunkedArray_length chunked_array)
                       (allocated s) in
      let s := mkSession alt (S (allocated s)) (warnings s) in
      let r_string_viewer := RStringViewer.new arrow_skip_nul in
      match convert_chunks r_string_viewer chunked_array 0 (DATAPTR data2) with
      | (Ok converted, r_string_viewer) =>
          let data2 := mkVector (address data2) converted in
          let s :=
            if RStringViewer.nul_was_stripped r_string_viewer
            then warn s warning_stripped else s in
          (* only set to data2 if all the values have been converted *)
          (Ok (Some data2),
           mkSession (SetRepresentation (object s) data2)
                     (allocated s) (warnings s))
      | (R_error message, _) => (R_error message, s)
      | (undefined, _) => (undefined, s)
      end
  end.

Definition Dataptr (arrow_skip_nul : bool) (s : session Alt)
  (writeable : bool) : result pointer * session Alt :=
  match Materialize arrow_skip_nul s with
  | (Ok x, s') => (Ok (DATAPTR_of x), s')
  | (R_error message, s') => (R_error message, s')
  | (undefined, s') => (undefined, s')
  end.

Definition Dataptr_or_null (alt : Alt) : pointer :=
  match Representation alt with
  | Some data2 => into_vector (address data2)
  | None => nullptr
  end.

Definition Set_elt (alt : Alt) (i : Z) (v : CHARSXP) : result unit :=
  Rf_error
    "ALTSTRING objects of type <arrow::array_string_vector> are immutable".

Definition Duplicate (arrow_skip_nul : bool) :=
  AltrepVectorBase.Duplicate (Materialize arrow_skip_nul).
Definition Coerce (arrow_skip_nul : bool) :=
  AltrepVectorBase.Coerce (Materialize arrow_skip_nul).
Definition Serialized_state (arrow_skip_nul : bool) :=
  AltrepVectorBase.Serialized_state (Materialize arrow_skip_nul).
End AltrepVectorString.


(** ** The methods R calls *)

(** The methods registered by [InitAltrepMethods], [InitAltvecMethods] and
    [InitAltRealMethods] or [InitAltIntegerMethods], and what a call of
    each does to the session.  The methods written as functions of the
    object alone leave the session as it is.  A call of [Coerce] comes
    with what R's [Rf_coerceVector] does in it; [V] is the element type of
    the cache. *)
Inductive method (V : Type) : Type :=
| call_Length
| call_Inspect
| call_Duplicate
| call_Serialized_state
| call_Unserialize
| call_Coerce (type : Z)
    (Rf_coerceVector : option (vector V) -> Z -> nat -> coercion)
| call_Dataptr (writeable : bool)
| call_Dataptr_or_null
| call_No_NA
| call_Is_sorted
| call_Sum (narm : bool)
| call_Min (narm : bool)
| call_Max (narm : bool)
| call_Elt (i : Z)
| call_Get_region (i n : Z).
Arguments call_Length {V}.
Arguments call_Inspect {V}.
Arguments call_Duplicate {V}.
Arguments call_Serialized_state {V}.
Arguments call_Unserialize {V}.
Arguments call_Coerce {V}.
Arguments call_Dataptr {V}.
Arguments call_Dataptr_or_null {V}.
Arguments call_No_NA {V}.
Arguments call_Is_sorted {V}.
Arguments call_Sum {V}.
Arguments call_Min {V}.
Arguments call_Max {V}.
Arguments call_Elt {V}.
Arguments call_Get_region {V}.

Definition call_primitive (sexp_type : SEXPTYPE)
  (m : method (c_type sexp_type))
  (s : session (AltrepVectorPrimitive.Alt sexp_type))
  : session (AltrepVectorPrimitive.Alt sexp_type) :=
  match m with
  | call_Duplicate => snd (AltrepVectorPrimitive.Duplicate sexp_type s)
  | call_Serialized_state =>
      snd (AltrepVectorPrimitive.Serialized_state sexp_type s)
  | call_Coerce type Rf_coerceVector =>
      snd (AltrepVectorPrimitive.Coerce sexp_type Rf_coerceVector s type)
  | call_Dataptr writeable =>
      snd (AltrepVectorPrimitive.Dataptr sexp_type s writeable)
  | _ => s
  end.

Definition call_factor (m : method Z) (s : session AltrepFactor.Alt)
  : session AltrepFactor.Alt :=
  match m with
  | call_Duplicate => snd (AltrepFactor.Duplicate s)
  | call_Serialized_state => snd (AltrepFactor.Serialized_state s)
  | call_Coerce type Rf_coerceVector =>
      snd (AltrepFactor.Coerce Rf_coerceVector s type)
  | call_Dataptr writeable => snd (AltrepFactor.Dataptr s writeable)
  | _ => s
  end.

(** The methods registered by [InitAltStringClass]; the option
    arrow.skip_nul is read at every call that converts. *)
Inductive string_method : Type :=
| string_Length
| string_Inspect
| string_Duplicate
| string_Serialized_state
| string_Unserialize
| string_Coerce (type : Z)
    (Rf_coerceVector : option (vector CHARSXP) -> Z -> nat -> coercion)
| string_Dataptr (writeable : bool)
| string_Dataptr_or_null
| string_Elt (i : Z)
| string_Set_elt (i : Z) (v : CHARSXP)
| string_No_NA
| string_Is_sorted.

Definition call_string (arrow_skip_nul : bool) (m : string_method)
  (s : session AltrepVectorString.Alt) : session AltrepVectorString.Alt :=
  match m with
  | string_Duplicate => snd (AltrepVectorString.Duplicate arrow_skip_nul s)
  | string_Serialized_state =>
      snd (AltrepVectorString.Serialized_state arrow_skip_nul s)
  | string_Coerce type Rf_coerceVector =>
      snd (AltrepVectorString.Coerce arrow_skip_nul Rf_coerceVector s type)
  | string_Dataptr writeable =>
      snd (AltrepVectorString.Dataptr arrow_skip_nul s writeable)
  | string_Elt i => snd (AltrepVectorString.Elt arrow_skip_nul s i)
  | _ => s
  end.

(** ** [MakeAltrepVector] *)

(** A chunked array handed to the dispatch, by its element type. *)
Inductive chunked_array_ptr : Type :=
| of_DOUBLE (ca : ChunkedArray unit double)
| of_INT32 (ca : ChunkedArray unit Z)
| of_STRING (ca : list AltrepVectorString.StringArray)
| of_LARGE_STRING (ca : list AltrepVectorString.StringArray)
| of_DICTIONARY (ca : list DictionaryArray)
| of_other (id : Type_id) (ca : ChunkedArray unit unit).

Definition chunked_array_length (chunked_array : chunked_array_ptr) : Z :=
  match chunked_array with
  | of_DOUBLE ca => ChunkedArray_length ca
  | of_INT32 ca => ChunkedArray_length ca
  | of_STRING ca => ChunkedArray_length ca
  | of_LARGE_STRING ca => ChunkedArray_length ca
  | of_DICTIONARY ca => ChunkedArray_length ca
  | of_other _ ca => ChunkedArray_length ca
  end.

(** What the dispatch returns: [R_NilValue] or an object of one of the
    five registered classes. *)
Inductive SEXP : Type :=
| R_NilValue
| array_dbl_vector (alt : AltrepVectorPrimitive.Alt REALSXP)
| array_int_vector (alt : AltrepVectorPrimitive.Alt INTSXP)
| array_string_vector (alt : AltrepVectorString.Alt)
| array_large_string_vector (alt : AltrepVectorString.Alt)
| array_factor (alt : AltrepFactor.Alt).

(** Return an altrep R vector that shadows the array if possible.  The type
    id that the source switches on is the constructor of the argument. *)
Definition MakeAltrepVector (arrow_use_altrep : bool)
  (chunked_array : chunked_array_ptr) : SEXP :=
  if arrow_use_altrep && (0 <? chunked_array_length chunked_array) then
    match chunked_array with
    | of_DOUBLE ca => array_dbl_vector (AltrepVectorBase.Make ca)
    | of_INT32 ca => array_int_vector (AltrepVectorBase.Make ca)
    | of_STRING ca => array_string_vector (AltrepVectorString.Make ca)
    | of_LARGE_STRING ca =>
        array_large_string_vector (AltrepVectorString.Make ca)
    | of_DICTIONARY ca =>
        match AltrepFactor.Make ca with
        | Some alt => array_factor alt
        | None => R_NilValue
        end
    | of_other _ _ => R_NilValue
    end
  else R_NilValue.



(** ** What a lazy vector stands for *)

(** What the chunks hold, position by position, when the slots of chunk
    number [k] are seen through [g k]. *)
Fixpoint render {D T X : Type} (g : nat -> D -> bool * T -> X) (k : nat)
  (ca : ChunkedArray D T) : list X :=
  match ca with
  | [] => []
  | c :: rest => map (g k (dictionary_ c)) (slots c) ++ render g (S k) rest
  end.

(** A position of a primitive array shows its raw value, or the sentinel
    when it is null. *)
Definition shown (sexp_type : SEXPTYPE) (k : nat) (d : unit)
  (slot : bool * c_type sexp_type) : c_type sexp_type :=
  if fst slot then snd slot else na sexp_type.

(** The sessions R can get a primitive vector into: made from a chunked
    array, then any calls. *)
Inductive reachable_primitive (sexp_type : SEXPTYPE)
  : session (AltrepVectorPrimitive.Alt sexp_type) -> Prop :=
| primitive_made ca n w :
    reachable_primitive sexp_type (mkSession (AltrepVectorBase.Make ca) n w)
| primitive_called m s :
    reachable_primitive sexp_type s ->
    reachable_primitive sexp_type (call_primitive sexp_type m s).


(** The cache of a primitive vector, when there is one, holds what the
    chunks show. *)
Definition primitive_consistent (sexp_type : SEXPTYPE)
  (alt : AltrepVectorPrimitive.Alt sexp_type) : Prop :=
  forall data2,
    AltrepVectorPrimitive.Representation sexp_type alt = Some data2 ->
    DATAPTR data2 = render (shown sexp_type) 0 (R_altrep_data1 alt).

(** The session after the first materialization of a primitive vector. *)
Definition primitive_materialized (sexp_type : SEXPTYPE)
  (s : session (AltrepVectorPrimitive.Alt sexp_type))
  : vector (c_type sexp_type) * session (AltrepVectorPrimitive.Alt sexp_type) :=
  let data2 :=
    mkVector (allocated s)
             (render (shown sexp_type) 0 (R_altrep_data1 (object s))) in
  (data2,
   mkSession (AltrepVectorPrimitive.SetRepresentation sexp_type (object s) data2)
             (S (allocated s)) (warnings s)).


(** The integer types, which are the ones dictionary indices have. *)
Definition integer_type (t : Type_id) : bool :=
  match t with
  | UINT8 | INT8 | UINT16 | INT16 | UINT32 | INT32 | UINT64 | INT64 => true
  | _ => false
  end.

(** A dictionary chunk as Arrow validates one: the indices have an integer
    type, every non-null index points into the dictionary, and the
    dictionary is no longer than an [int] can index. *)
Definition valid_chunk (c : DictionaryArray) : bool :=
  integer_type (indices_type (dictionary_ c))
  && (Z.of_nat (List.length (dictionary (dictionary_ c))) <=? INT32_MAX)
  && forallb (fun slot : bool * Z =>
                negb (fst slot)
                || ((0 <=? snd slot)
                    && (snd slot
                        <? Z.of_nat (List.length (dictionary (dictionary_ c))))))
             (slots c).

(** The code a position of chunk number [k] stands for: the index, sent
    through the transpose buffer of the chunk when there is one, plus one;
    the sentinel when the position is null. *)
Definition code (arrays_transpose : option BufferVector) (k : nat)
  (d : Dictionary) (slot : bool * Z) : Z :=
  if fst slot then
    match arrays_transpose with
    | Some arrays => to_int (nth (Z.to_nat (snd slot)) (nth k arrays []) 0 + 1)
    | None => to_int (snd slot + 1)
    end
  else NA_INTEGER.

Definition codes (alt : AltrepFactor.Alt) : list Z :=
  render (code (AltrepFactor.CADR (R_altrep_data2 alt))) 0 (R_altrep_data1 alt).

(** From chunk number [j] on, every chunk is valid and has, when the
    dictionaries were unified, a transpose buffer as long as its
    dictionary. *)
Fixpoint fits (arrays_transpose : option BufferVector) (j : nat)
  (chunks : list DictionaryArray) : Prop :=
  match chunks with
  | [] => True
  | c :: rest =>
      valid_chunk c = true
      /\ match arrays_transpose with
         | Some arrays =>
             exists t, nth_error arrays j = Some t
                       /\ List.length t
                          = List.length (dictionary (dictionary_ c))
         | None => True
         end
      /\ fits arrays_transpose (S j) rest
  end.

(** A factor as [Make] leaves it and the methods keep it: the transpose
    buffers fit the chunks, and the cache, when there is one, holds the
    codes. *)
Definition factor_valid (alt : AltrepFactor.Alt) : Prop :=
  fits (AltrepFactor.CADR (R_altrep_data2 alt)) 0 (R_altrep_data1 alt)
  /\ forall data2,
       AltrepFactor.Representation alt = Some data2 ->
       DATAPTR data2 = codes alt.

(** The sessions R can get a factor into: made from a valid chunked array,
    then any calls. *)
Inductive reachable_factor : session AltrepFactor.Alt -> Prop :=
| factor_made ca alt n w :
    forallb valid_chunk ca = true ->
    AltrepFactor.Make ca = Some alt ->
    reachable_factor (mkSession alt n w)
| factor_called m s :
    reachable_factor s -> reachable_factor (call_factor m s).

(** The label position [i] of a dictionary chunked array stands for:
    none when the position is null. *)
Definition label_at (ca : list DictionaryArray) (i : Z) : option string :=
  let resolve := ArrayResolve_new ca i in
  match array_ resolve with
  | None => None
  | Some array =>
      match slot_at array (index_ resolve) with
      | Some (true, index) => read (dictionary (dictionary_ array)) index
      | _ => None
      end
  end.

(** The session after the first materialization of a factor. *)
Definition factor_materialized (s : session AltrepFactor.Alt)
  : vector Z * session AltrepFactor.Alt :=
  let data2 := mkVector (allocated s) (codes (object s)) in
  (data2,
   mkSession (AltrepFactor.SetRepresentation (object s) data2)
             (S (allocated s)) (warnings s)).


(** The exact sum of the non-null values of an int32 column. *)
Definition exact_sum (ca : ChunkedArray unit Z) : Z :=
  fold_left Z.add (valid_values ca) 0.

(** Kernels for the examples: they add integer-valued doubles exactly and
    give NaN on anything else. *)
Definition double_plus (a b : double) : double :=
  match a, b with
  | finite m 0, finite m' 0 => finite (m + m') 0
  | _, _ => NaN
  end.

Definition example_kernels : double_kernels :=
  {| sum_double := fun _ ca =>
       fold_left double_plus (valid_values ca) (finite 0 0);
     min_max_double := fun _ ca =>
       (hd NaN (valid_values ca), last (valid_values ca) NaN);
     sum_double_nothing := fun _ ca _ H =>
       @eq_ind_r _ []
         (fun l => fold_left double_plus l (finite 0 0) = finite 0 0)
         eq_refl (valid_values ca) H |}.



(** Where the transpose buffers, when there are any, send local index
    [idx] of chunk number [k]. *)
Definition unified_index (arrays_transpose : option BufferVector)
  (k idx : nat) : Z :=
  match arrays_transpose with
  | Some arrays => nth idx (nth k arrays []) 0
  | None => Z.of_nat idx
  end.

(** The position the resolver finds for global index [i]: its validity
    bit and raw value. *)
Definition element {D T} (ca : ChunkedArray D T) (i : Z) : option (bool * T) :=
  let resolve := ArrayResolve_new ca i in
  match array_ resolve with
  | Some array => slot_at array (index_ resolve)
  | None => None
  end.

(** All positions of a chunked array, in order. *)
Definition positions {D T} (ca : ChunkedArray D T) : list (bool * T) :=
  render (fun _ _ slot => slot) 0 ca.

(** A string position holds an embedded nul. *)
Definition embedded_nul (slot : bool * list ascii) : bool :=
  fst slot && existsb is_nul (snd slot).

(** What a string position converts to when nuls are stripped. *)
Definition stripped (slot : bool * list ascii) : CHARSXP :=
  if fst slot
  then Rf_mkCharLenCE (filter (fun c => negb (is_nul c)) (snd slot))
  else NA_STRING.


(** What a pass over string positions comes to: the conversions of all of
    them, or the error of the first position with an embedded nul when
    nuls are not stripped. *)
Fixpoint convert_all (arrow_skip_nul : bool) (slots : list (bool * list ascii))
  : result (list CHARSXP) :=
  match slots with
  | [] => Ok []
  | slot :: rest =>
      if embedded_nul slot && negb arrow_skip_nul
      then AltrepVectorString.RStringViewer.Error (snd slot)
      else
        match convert_all arrow_skip_nul rest with
        | Ok converted => Ok (stripped slot :: converted)
        | failed => failed
        end
  end.

(** The payload of what [Materialize] returns, whatever the address. *)
Definition payload {T} (r : result (option (vector T)))
  : result (option (list T)) :=
  match r with
  | Ok x => Ok (option_map DATAPTR x)
  | R_error message => R_error message
  | undefined => undefined
  end.

(** ** Example data *)

(** The values 1, null, 3 in three chunks, the middle one empty. *)
Definition example_ints : ChunkedArray unit Z :=
  [mkArray tt [(true, 1); (false, 7)]; mkArray tt []; mkArray tt [(true, 3)]].

Definition example_int_session : session (AltrepVectorPrimitive.Alt INTSXP) :=
  mkSession (AltrepVectorBase.Make example_ints) 0 [].


(** An int32 column of nothing but nulls, and one whose sum leaves the
    range of [int]. *)
Definition all_null_ints : ChunkedArray unit Z :=
  [mkArray tt [(false, 0); (false, 0)]].

Definition large_ints : ChunkedArray unit Z :=
  [mkArray tt [(true, 2147483647)]; mkArray tt [(true, 1)]].

(** A double column with one chunk and no nulls. *)
Definition example_doubles : ChunkedArray unit double :=
  [mkArray tt [(true, finite 3 (-1)); (true, finite 1 0)]].

(** Two dictionary chunks with the labels a, b in different orders. *)
Definition example_factor_chunks : list DictionaryArray :=
  [mkArray (mkDictionary INT8 STRING ["a"; "b"]%string false)
           [(true, 0); (true, 1); (false, 0)];
   mkArray (mkDictionary UINT16 STRING ["b"; "a"]%string false)
           [(true, 0); (true, 1)]].

Definition example_factor : AltrepFactor.Alt :=
  match AltrepFactor.Make example_factor_chunks with
  | Some alt => alt
  | None => R_new_altrep [] (AltrepFactor.Rf_list2 None None)
  end.

Definition example_factor_session : session AltrepFactor.Alt :=
  mkSession example_factor 0 [].

(** Two dictionary chunks that share one dictionary with a repeated
    label. *)
Definition repeated_label_chunks : list DictionaryArray :=
  [mkArray (mkDictionary INT8 STRING ["a"; "a"]%string false) [(true, 0)];
   mkArray (mkDictionary INT8 STRING ["a"; "a"]%string false) [(true, 1)]].

(** The strings "ab", null and "c<nul>d". *)
Definition example_strings : list AltrepVectorString.StringArray :=
  [mkArray tt [(true, ["a"; "b"]%char); (false, [])];
   mkArray tt [(true, ["c"; nul; "d"]%char)]].

Definition example_string_session : session AltrepVectorString.Alt :=
  mkSession (AltrepVectorString.Make example_strings) 0 [].

(** The strings "ab", null and "c": no nul in any of them. *)
Definition plain_strings : list AltrepVectorString.StringArray :=
  [mkArray tt [(true, ["a"; "b"]%char); (false, [])];
   mkArray tt [(true, ["c"]%char)]].

Definition plain_string_session : session AltrepVectorString.Alt :=
  mkSession (AltrepVectorString.Make plain_strings) 0 [].



Definition conversion_strings : list AltrepVectorString.StringArray :=
  [mkArray tt [(true, ["%"; "s"; nul]%char)]].

Definition conversion_string_session : session AltrepVectorString.Alt :=
  mkSession (AltrepVectorString.Make conversion_strings) 0 [].


(** The cache of a primitive vector, when there is one, was allocated in
    the session: its address is below the next free one. *)
Definition primitive_cache_allocated (sexp_type : SEXPTYPE)
  (s : session (AltrepVectorPrimitive.Alt sexp_type)) : Prop :=
  forall data2,
    AltrepVectorPrimitive.Representation sexp_type (object s) = Some data2 ->
    (address data2 < allocated s)%nat.


(** ** Recognizing the objects of this file *)

(** What R keeps of an ALTREP class and [is_arrow_altrep] reads back: the
    class name and the package name given when the class was made, and the
    kind of vector it stands for. *)
Inductive altrep_base : Type := altreal | altinteger | altstring.

Record R_altrep_class_t : Type := mkClass {
  class_name : string;
  package_name : string;
  base : altrep_base
}.

Definition R_make_altreal_class (cname pname : string) : R_altrep_class_t :=
  mkClass cname pname altreal.
Definition R_make_altinteger_class (cname pname : string) : R_altrep_class_t :=
  mkClass cname pname altinteger.
Definition R_make_altstring_class (cname pname : string) : R_altrep_class_t :=
  mkClass cname pname altstring.

(** [InitAltRealClass], [InitAltIntegerClass] and [InitAltStringClass]
    make the class in package "arrow" and register its methods, the ones
    [method] and [string_method] list; the result is the [class_t] of the
    implementation. *)
Definition InitAltRealClass (name : string) : R_altrep_class_t :=
  R_make_altreal_class name "arrow".
Definition InitAltIntegerClass (name : string) : R_altrep_class_t :=
  R_make_altinteger_class name "arrow".
Definition InitAltStringClass (name : string) : R_altrep_class_t :=
  R_make_altstring_class name "arrow".

(** The five [class_t] singletons, as [Init_Altrep_classes] sets them. *)
Record altrep_classes : Type := mkClasses {
  array_dbl_vector_class_t : R_altrep_class_t;
  array_int_vector_class_t : R_altrep_class_t;
  array_factor_class_t : R_altrep_class_t;
  array_string_vector_class_t : R_altrep_class_t;
  array_large_string_vector_class_t : R_altrep_class_t
}.

Definition Init_Altrep_classes : altrep_classes :=
  mkClasses
    (InitAltRealClass "arrow::array_dbl_vector")
    (InitAltIntegerClass "arrow::array_int_vector")
    (InitAltIntegerClass "arrow::array_factor")
    (InitAltStringClass "arrow::array_string_vector")
    (InitAltStringClass "arrow::array_large_string_vector").

(** An R object as [is_arrow_altrep] meets one: what [MakeAltrepVector]
    returned, an ALTREP object of a class made elsewhere, or an object
    that is not ALTREP. *)
Inductive robject : Type :=
| made_here (x : SEXP)
| made_elsewhere (class_t : R_altrep_class_t)
| not_altrep.

(** [ALTREP_CLASS]: the class of an ALTREP object; none for an object that
    is not ALTREP. *)
Definition ALTREP_CLASS (x : robject) : option R_altrep_class_t :=
  match x with
  | made_here R_NilValue => None
  | made_here (array_dbl_vector _) =>
      Some (array_dbl_vector_class_t Init_Altrep_classes)
  | made_here (array_int_vector _) =>
      Some (array_int_vector_class_t Init_Altrep_classes)
  | made_here (array_string_vector _) =>
      Some (array_string_vector_class_t Init_Altrep_classes)
  | made_here (array_large_string_vector _) =>
      Some (array_large_string_vector_class_t Init_Altrep_classes)
  | made_here (array_factor _) =>
      Some (array_factor_class_t Init_Altrep_classes)
  | made_elsewhere class_t => Some class_t
  | not_altrep => None
  end.

Definition ALTREP (x : robject) : bool :=
  match ALTREP_CLASS x with
  | Some _ => true
  | None => false
  end.

(** Modelled from the spec: [symbols::arrow] (arrow_types.h is not under
    src/), the R symbol of the package name, [arrow]; two symbols are the
    same pointer exactly when they have the same name. *)
Definition symbols_arrow : string := "arrow".

Definition is_arrow_altrep (x : robject) : bool :=
  if ALTREP x then
    match ALTREP_CLASS x with
    | Some info => String.eqb (package_name info) symbols_arrow
    | None => false
    end
  else false.

(** [GetChunkedArray] on an object of any class: the chunked array behind
    the external pointer in data1.  On an object made elsewhere data1 is
    not such a pointer and the read is undefined. *)
Definition GetChunkedArray (x : robject) : result chunked_array_ptr :=
  match x with
  | made_here (array_dbl_vector alt) => Ok (of_DOUBLE (R_altrep_data1 alt))
  | made_here (array_int_vector alt) => Ok (of_INT32 (R_altrep_data1 alt))
  | made_here (array_string_vector alt) => Ok (of_STRING (R_altrep_data1 alt))
  | made_here (array_large_string_vector alt) =>
      Ok (of_LARGE_STRING (R_altrep_data1 alt))
  | made_here (array_factor alt) => Ok (of_DICTIONARY (R_altrep_data1 alt))
  | _ => undefined
  end.

(** The chunked array of an object of this file; the null pointer ([None])
    for any other object. *)
Definition vec_to_arrow_altrep_bypass (x : robject)
  : result (option chunked_array_ptr) :=
  if is_arrow_altrep x then
    match GetChunkedArray x with
    | Ok chunked_array => Ok (Some chunked_array)
    | R_error message => R_error message
    | undefined => undefined
    end
  else Ok None.

(** The chunked arrays the dispatch has no class for: a type outside the
    switch, or a dictionary whose values are not strings. *)
Definition unsupported (chunked_array : chunked_array_ptr) : Prop :=
  match chunked_array with
  | of_other _ _ => True
  | of_DICTIONARY [] => True
  | of_DICTIONARY (chunk_0 :: _) =>
      dictionary_type (dictionary_ chunk_0) <> STRING
  | _ => False
  end.


(** [n] reads of element [i] of a string vector in a row, each in the
    session the read before it left. *)
Fixpoint string_reads (arrow_skip_nul : bool) (n : nat)
  (s : session AltrepVectorString.Alt) (i : Z)
  : session AltrepVectorString.Alt :=
  match n with
  | O => s
  | S n' =>
      snd (AltrepVectorString.Elt arrow_skip_nul
             (string_reads arrow_skip_nul n' s i) i)
  end.

(** * Properties *)

(** The names of the array types are unfolded before arithmetic, so that
    equal lengths are also written the same way. *)
Ltac same_types :=
  unfold DictionaryArray, AltrepVectorString.StringArray, ChunkedArray in *.

(** ** Buffers *)

Lemma store_length {T} (buf : list T) out x :
  List.length (store buf out x) = List.length buf.
Proof.
  revert out; induction buf as [|y buf IH]; intros [|out]; simpl; auto.
Qed.

Lemma store_middle {T} (pre : list T) y post x :
  store (pre ++ y :: post) (List.length pre) x = pre ++ x :: post.
Proof.
  induction pre as [|p pre IH]; simpl; [reflexivity|now rewrite IH].
Qed.

Lemma memcpy_middle {T} (pre old post src : list T) :
  List.length old = List.length src ->
  memcpy (pre ++ old ++ post) (List.length pre) src = pre ++ src ++ post.
Proof.
  intros Hlen. unfold memcpy.
  rewrite firstn_app, firstn_all, Nat.sub_diag, firstn_O, app_nil_r.
  do 2 f_equal.
  rewrite skipn_app, skipn_all2 by lia.
  replace (List.length pre + List.length src - List.length pre)%nat
    with (List.length old) by lia.
  simpl. rewrite skipn_app, skipn_all, Nat.sub_diag. reflexivity.
Qed.

(** A buffer with room for [n] values splits at [n]. *)
Lemma buffer_split {T} (buf : list T) (n : nat) :
  (n <= List.length buf)%nat ->
  buf = [] ++ firstn n buf ++ skipn n buf /\ List.length (firstn n buf) = n.
Proof.
  intros H. simpl. rewrite firstn_skipn. split; [reflexivity|].
  apply firstn_length_le; exact H.
Qed.

(** ** Chunked arrays as one sequence *)

Section Rendering.
Context {D T X : Type}.

Variable g : nat -> D -> bool * T -> X.
Local Abbreviation render := (render g).

Lemma render_length k ca :
  Z.of_nat (List.length (render k ca)) = ChunkedArray_length ca.
Proof.
  revert k; induction ca as [|c ca IH]; intros k; simpl; [reflexivity|].
  rewrite length_app, length_map, Nat2Z.inj_add, IH. reflexivity.
Qed.

Lemma ChunkedArray_length_nonneg (ca : ChunkedArray D T) :
  0 <= ChunkedArray_length ca.
Proof. rewrite <- (render_length 0 ca). lia. Qed.

(** The resolver finds the chunk and the local index that hold global
    position [i]. *)
Lemma ArrayResolve_loop_spec (ca : ChunkedArray D T) (p : nat) idx_chunk i :
  0 <= i < ChunkedArray_length ca ->
  exists (k : nat) c j,
    ArrayResolve_loop ca idx_chunk i
      = mkArrayResolve (Some c) j (idx_chunk + Z.of_nat k)
    /\ nth_error ca k = Some c
    /\ 0 <= j < length c
    /\ nth_error (render p ca) (Z.to_nat i)
       = option_map (g (p + k) (dictionary_ c)) (slot_at c j).
Proof.
  revert p idx_chunk i; induction ca as [|c ca IH]; intros p idx_chunk i Hi;
    simpl in *; [lia|].
  assert (Hc : 0 <= length c) by (unfold length; lia).
  destruct (i <? length c) eqn:E.
  - apply Z.ltb_lt in E. exists O, c, i. rewrite Z.add_0_r, Nat.add_0_r.
    repeat split; try lia.
    unfold slot_at. replace (i <? 0) with false by (symmetry; apply Z.ltb_ge; lia).
    unfold length in E.
    rewrite nth_error_app1 by (rewrite length_map; lia).
    apply nth_error_map.
  - apply Z.ltb_ge in E.
    destruct (IH (S p) (idx_chunk + 1) (i - length c)) as (k & c' & j & H1 & H2 & H3 & H4);
      [lia|].
    exists (S k), c', j. repeat split; try lia.
    + rewrite H1. f_equal. lia.
    + exact H2.
    + unfold length in E.
      rewrite nth_error_app2 by (rewrite length_map; lia).
      rewrite length_map.
      replace (Z.to_nat i - List.length (slots c))%nat
        with (Z.to_nat (i - length c)) by (unfold length; lia).
      rewrite H4. do 2 f_equal. lia.
Qed.

(** Slicing one chunk and rendering it commute. *)
Lemma render_Array_Slice k (c : Array D T) offset len :
  map (g k (dictionary_ (Array_Slice c offset len)))
      (slots (Array_Slice c offset len))
  = firstn (Z.to_nat len)
           (skipn (Z.to_nat offset) (map (g k (dictionary_ c)) (slots c))).
Proof.
  unfold Array_Slice; simpl. rewrite skipn_map, firstn_map. reflexivity.
Qed.

Lemma Slice_take_render (ca : ChunkedArray D T) k offset len :
  0 <= offset ->
  match ca with [] => True | c :: _ => offset <= length c end ->
  render k (Slice_take ca offset len)
  = firstn (Z.to_nat len) (skipn (Z.to_nat offset) (render k ca)).
Proof.
  revert k offset len; induction ca as [|c ca IH]; intros k offset len H0 Hc;
    cbn [Slice_take render].
  - now rewrite skipn_nil, firstn_nil.
  - destruct (0 <? len) eqn:E.
    + apply Z.ltb_lt in E. cbn [render]. rewrite render_Array_Slice.
      rewrite IH; [|lia|destruct ca; [exact I|unfold length; lia]].
      rewrite skipn_app, firstn_app. f_equal.
      rewrite length_skipn, length_map.
      unfold length in *.
      replace (Z.to_nat offset - List.length (slots c))%nat with O by lia.
      simpl. f_equal. lia.
    + apply Z.ltb_ge in E. replace (Z.to_nat len) with O by lia. reflexivity.
Qed.

(** The chunks that [Slice] leaves out are the [k] chunks that end at or
    before [offset]. *)
Lemma Slice_skip_render (ca : ChunkedArray D T) offset :
  0 <= offset ->
  exists (k : nat) offset',
    Slice_skip ca offset = (skipn k ca, offset')
    /\ 0 <= offset'
    /\ match skipn k ca with [] => True | c :: _ => offset' < length c end
    /\ (offset < ChunkedArray_length ca -> (k < List.length ca)%nat)
    /\ forall p,
         skipn (Z.to_nat offset) (render p ca)
         = skipn (Z.to_nat offset') (render (p + k) (skipn k ca)).
Proof.
  revert offset; induction ca as [|c ca IH]; intros offset H0; simpl.
  - exists O, offset. simpl. repeat split; auto; try lia.
  - assert (Hc : 0 <= length c) by (unfold length; lia).
    destruct (length c <=? offset) eqn:E.
    + apply Z.leb_le in E.
      destruct (IH (offset - length c)) as (k & o & H1 & H2 & H3 & H5 & H4);
        [lia|].
      exists (S k), o. simpl. repeat split; auto.
      * intros Hlt. apply -> Nat.succ_lt_mono. apply H5. lia.
      * intros p. rewrite skipn_app, length_map.
        rewrite skipn_all2 by (rewrite length_map; unfold length in E; lia).
        simpl.
        replace (Z.to_nat offset - List.length (slots c))%nat
          with (Z.to_nat (offset - length c)) by (unfold length; lia).
        rewrite H4. do 2 f_equal. lia.
    + apply Z.leb_gt in E. exists O, offset. simpl.
      repeat split; auto; try lia.
      intros p. rewrite Nat.add_0_r. reflexivity.
Qed.

Lemma Slice_render (ca : ChunkedArray D T) offset len :
  0 <= offset ->
  exists k : nat,
    (offset < ChunkedArray_length ca -> (k < List.length ca)%nat)
    /\ fst (Slice_skip ca offset) = skipn k ca
    /\ forall p,
      render (p + k) (Slice ca offset len)
      = firstn (Z.to_nat len) (skipn (Z.to_nat offset) (render p ca)).
Proof.
  intros H0.
  destruct (Slice_skip_render ca offset H0) as (k & o & H1 & H2 & H3 & H5 & H4).
  exists k. split; [exact H5|]. split; [now rewrite H1|]. intros p.
  unfold Slice. rewrite H1, H4.
  apply Slice_take_render; [exact H2|].
  destruct (skipn k ca); [exact I|lia].
Qed.
End Rendering.

(** ** The primitive class *)

Section PrimitiveFacts.
Context {kernels : double_kernels}.
Variable sexp_type : SEXPTYPE.

Local Abbreviation Alt := (AltrepVectorPrimitive.Alt sexp_type).
Local Abbreviation values := (render (shown sexp_type) 0).

Lemma set_sentinels_spec (sl : list (bool * c_type sexp_type)) pre post :
  AltrepVectorPrimitive.set_sentinels sexp_type (map fst sl) (List.length pre)
    (pre ++ map snd sl ++ post)
  = pre ++ map (shown sexp_type 0 tt) sl ++ post.
Proof.
  revert pre; induction sl as [|[bit v] sl IH]; intros pre; simpl;
    [reflexivity|].
  destruct bit; unfold shown at 1; simpl.
  - specialize (IH (pre ++ [v])).
    rewrite length_app, Nat.add_1_r, <- !app_assoc in IH. exact IH.
  - rewrite store_middle. specialize (IH (pre ++ [na sexp_type])).
    rewrite length_app, Nat.add_1_r, <- !app_assoc in IH. exact IH.
Qed.

Lemma no_nulls_shown (sl : list (bool * c_type sexp_type)) :
  filter (fun s => negb (fst s)) sl = [] ->
  map (shown sexp_type 0 tt) sl = map snd sl.
Proof.
  induction sl as [|[bit v] sl IH]; simpl; [reflexivity|].
  destruct bit; simpl; [|discriminate].
  intros H. unfold shown at 1. simpl. now rewrite IH.
Qed.

Lemma render_shown k (ca : ChunkedArray unit (c_type sexp_type)) :
  render (shown sexp_type) k ca = values ca.
Proof.
  revert k; induction ca as [|c ca IH]; intros k; simpl; [reflexivity|].
  rewrite (IH (S k)), (IH 1%nat). reflexivity.
Qed.

Lemma copy_chunks_spec (chunks : ChunkedArray unit (c_type sexp_type)) :
  forall pre old post,
    List.length old = List.length (values chunks) ->
    AltrepVectorPrimitive.copy_chunks sexp_type chunks (List.length pre)
      (pre ++ old ++ post)
    = pre ++ values chunks ++ post.
Proof.
  induction chunks as [|c chunks IH]; intros pre old post Hlen; simpl in *.
  - destruct old; [reflexivity|discriminate].
  - rewrite render_shown in Hlen |- *.
    change (map (shown sexp_type 0 (dictionary_ c)) (slots c))
      with (map (shown sexp_type 0 tt) (slots c)) in Hlen |- *.
    rewrite length_app, length_map in Hlen.
    rewrite <- (firstn_skipn (List.length (slots c)) old), <- app_assoc.
    assert (H1 : List.length (firstn (List.length (slots c)) old)
                 = List.length (GetValues c)).
    { unfold GetValues. rewrite length_map, firstn_length_le; lia. }
    rewrite (memcpy_middle pre _ _ (GetValues c) H1).
    set (rest := skipn (List.length (slots c)) old ++ post).
    assert (H2 : (if 0 <? null_count c
                  then AltrepVectorPrimitive.set_sentinels sexp_type
                         (null_bitmap c) (List.length pre)
                         (pre ++ GetValues c ++ rest)
                  else pre ++ GetValues c ++ rest)
                 = pre ++ map (shown sexp_type 0 tt) (slots c) ++ rest).
    { destruct (0 <? null_count c) eqn:E.
      - apply set_sentinels_spec.
      - apply Z.ltb_ge in E. unfold null_count in E.
        rewrite no_nulls_shown; [reflexivity|].
        destruct (filter _ (slots c)); [reflexivity|simpl in E; lia]. }
    rewrite H2. subst rest.
    specialize (IH (pre ++ map (shown sexp_type 0 tt) (slots c))
                   (skipn (List.length (slots c)) old) post).
    rewrite length_app, length_map, <- !app_assoc in IH.
    rewrite IH; [now rewrite <- !app_assoc|].
    rewrite length_skipn. lia.
Qed.

(** The accessor reads position [i] of the sequence the chunks show. *)
Lemma primitive_Elt_values (alt : Alt) i :
  0 <= i < AltrepVectorPrimitive.Length sexp_type alt ->
  AltrepVectorPrimitive.Elt sexp_type alt i
  = nth_error (values (R_altrep_data1 alt)) (Z.to_nat i)
  /\ exists v, AltrepVectorPrimitive.Elt sexp_type alt i = Some v.
Proof.
  intros Hi. unfold AltrepVectorPrimitive.Elt, ArrayResolve_new.
  destruct (ArrayResolve_loop_spec (shown sexp_type)
              (AltrepVectorPrimitive.GetChunkedArray sexp_type alt) 0 0 i Hi)
    as (k & c & j & H1 & _ & Hj & H4).
  rewrite H1; simpl.
  change (AltrepVectorPrimitive.GetChunkedArray sexp_type alt)
    with (R_altrep_data1 alt) in H4.
  rewrite H4. unfold IsNull, value_at.
  assert (Hs : exists slot, slot_at c j = Some slot).
  { unfold slot_at. replace (j <? 0) with false by (symmetry; apply Z.ltb_ge; lia).
    destruct (nth_error (slots c) (Z.to_nat j)) eqn:E; [eauto|].
    apply nth_error_None in E. unfold length in Hj. lia. }
  destruct Hs as ([bit v] & ->). simpl.
  unfold shown; simpl. destruct bit; simpl; eauto.
Qed.

(** The standard region copy: how much and what. *)
Lemma Standard_Get_region_spec {T} (data2 : vector T) i n buf :
  0 <= i ->
  let L := Z.of_nat (List.length (DATAPTR data2)) in
  fst (Standard_Get_region data2 i n buf) = Z.max 0 (Z.min n (L - i))
  /\ forall k, 0 <= k < fst (Standard_Get_region data2 i n buf) ->
       read (snd (Standard_Get_region data2 i n buf)) k
       = read (DATAPTR data2) (i + k)
  /\ List.length (snd (Standard_Get_region data2 i n buf))
     = Nat.max (List.length buf) (Z.to_nat (Z.max 0 (Z.min n (L - i)))).
Proof.
  intros Hi L. unfold Standard_Get_region; simpl.
  set (region := firstn (Z.to_nat n) (skipn (Z.to_nat i) (DATAPTR data2))).
  assert (Hlen : Z.of_nat (List.length region) = Z.max 0 (Z.min n (L - i))).
  { subst region L. rewrite length_firstn, length_skipn. lia. }
  split; [exact Hlen|]. intros k Hk. split.
  - unfold read.
    replace (k <? 0) with false by (symmetry; apply Z.ltb_ge; lia).
    replace (i + k <? 0) with false by (symmetry; apply Z.ltb_ge; lia).
    rewrite nth_error_app1 by lia.
    subst region. rewrite nth_error_firstn.
    replace (Z.to_nat k <? Z.to_nat n)%nat with true
      by (symmetry; apply Nat.ltb_lt; lia).
    rewrite nth_error_skipn. f_equal. lia.
  - rewrite length_app, length_skipn. lia.
Qed.

(** Before materialization the region copy writes what the standard copy
    would write from the vector holding [values]. *)
Lemma primitive_Get_region_unmaterialized (alt : Alt) start n buf a :
  AltrepVectorPrimitive.Representation sexp_type alt = None ->
  0 <= start ->
  n <= Z.of_nat (List.length buf) ->
  AltrepVectorPrimitive.Get_region sexp_type alt start n buf
  = Standard_Get_region (mkVector a (values (R_altrep_data1 alt))) start n buf.
Proof.
  intros Hrep H0 Hn. unfold AltrepVectorPrimitive.Get_region. rewrite Hrep.
  unfold Standard_Get_region; simpl.
  change (AltrepVectorPrimitive.GetChunkedArray sexp_type alt)
    with (R_altrep_data1 alt).
  destruct (Slice_render (shown sexp_type) (R_altrep_data1 alt) start n H0)
    as (k & _ & _ & Hk).
  specialize (Hk O). simpl in Hk. rewrite render_shown in Hk.
  set (slice := Slice (R_altrep_data1 alt) start n) in *.
  set (m := List.length (values slice)).
  assert (Hm : (m <= List.length buf)%nat).
  { subst m. rewrite Hk, length_firstn. lia. }
  destruct (buffer_split buf m Hm) as [Hbuf Hfirst].
  assert (Hcopy : AltrepVectorPrimitive.copy_chunks sexp_type slice 0 buf
                  = values slice ++ skipn m buf).
  { rewrite Hbuf at 1.
    apply (copy_chunks_spec slice [] (firstn m buf) (skipn m buf)).
    exact Hfirst. }
  rewrite Hcopy, <- (render_length (shown sexp_type) 0 slice).
  subst m. rewrite Hk. reflexivity.
Qed.

(** The first materialization allocates one vector, fills it with what the
    chunks show and stores it in data2. *)
Lemma primitive_Materialize_first (s : session Alt) :
  AltrepVectorPrimitive.Representation sexp_type (object s) = None ->
  AltrepVectorPrimitive.Materialize sexp_type s
  = (Ok (Some (fst (primitive_materialized sexp_type s))),
     snd (primitive_materialized sexp_type s)).
Proof.
  intros Hrep. unfold AltrepVectorPrimitive.Materialize,
    AltrepVectorPrimitive.IsMaterialized, AltrepVectorBase.IsMaterialized.
  rewrite Hrep. cbn [negb].
  set (size := AltrepVectorPrimitive.Length sexp_type (object s)).
  assert (Hsize : size = Z.of_nat (List.length (values (R_altrep_data1 (object s))))).
  { subst size. symmetry. apply render_length. }
  rewrite (primitive_Get_region_unmaterialized _ 0 size _ (allocated s) Hrep);
    [|lia|unfold Rf_allocVector; simpl; rewrite repeat_length; lia].
  unfold Standard_Get_region, Rf_allocVector; simpl.
  rewrite Hsize, Nat2Z.id, firstn_all, skipn_all2
    by (rewrite repeat_length; lia).
  rewrite app_nil_r. reflexivity.
Qed.

Lemma primitive_Materialize_again (s : session Alt) data2 :
  AltrepVectorPrimitive.Representation sexp_type (object s) = Some data2 ->
  AltrepVectorPrimitive.Materialize sexp_type s = (Ok (Some data2), s).
Proof.
  intros Hrep. unfold AltrepVectorPrimitive.Materialize,
    AltrepVectorPrimitive.IsMaterialized, AltrepVectorBase.IsMaterialized.
  rewrite Hrep. reflexivity.
Qed.

(** Whatever the session, materialization returns a vector, which is then
    the cache; the chunked array stays as it is. *)
Lemma primitive_Materialize_cases (s : session Alt) :
  exists data2 s',
    AltrepVectorPrimitive.Materialize sexp_type s = (Ok (Some data2), s')
    /\ AltrepVectorPrimitive.Representation sexp_type (object s') = Some data2
    /\ R_altrep_data1 (object s') = R_altrep_data1 (object s)
    /\ (forall old,
          AltrepVectorPrimitive.Representation sexp_type (object s) = Some old ->
          data2 = old /\ s' = s)
    /\ (AltrepVectorPrimitive.Representation sexp_type (object s) = None ->
        (data2, s') = primitive_materialized sexp_type s).
Proof.
  destruct (AltrepVectorPrimitive.Representation sexp_type (object s))
    as [old|] eqn:Hrep.
  - exists old, s. rewrite (primitive_Materialize_again s old Hrep).
    repeat split; auto; try congruence.
  - exists (fst (primitive_materialized sexp_type s)),
           (snd (primitive_materialized sexp_type s)).
    rewrite (primitive_Materialize_first s Hrep).
    repeat split; auto; discriminate.
Qed.

(** What a call does to the object: nothing, or what [Materialize] does. *)
Lemma call_primitive_object m (s : session Alt) :
  object (call_primitive sexp_type m s) = object s
  \/ object (call_primitive sexp_type m s)
     = object (snd (AltrepVectorPrimitive.Materialize sexp_type s)).
Proof.
  destruct (primitive_Materialize_cases s) as (data2 & s' & HM & _).
  destruct m; simpl; auto;
    unfold AltrepVectorPrimitive.Duplicate, AltrepVectorPrimitive.Coerce,
      AltrepVectorPrimitive.Serialized_state, AltrepVectorPrimitive.Dataptr,
      AltrepVectorBase.Duplicate, AltrepVectorBase.Coerce,
      AltrepVectorBase.Serialized_state;
    rewrite ?HM; simpl; auto.
  destruct (negb _ && _); simpl; auto.
Qed.

Lemma primitive_Materialize_consistent (s : session Alt) :
  primitive_consistent sexp_type (object s) ->
  primitive_consistent sexp_type
    (object (snd (AltrepVectorPrimitive.Materialize sexp_type s))).
Proof.
  intros Hc.
  destruct (primitive_Materialize_cases s) as (data2 & s' & HM & Hrep & H1 & Hold & Hnew).
  rewrite HM; simpl.
  destruct (AltrepVectorPrimitive.Representation sexp_type (object s))
    as [old|] eqn:E.
  - destruct (Hold old eq_refl) as [_ ->]. exact Hc.
  - specialize (Hnew eq_refl). injection Hnew as -> ->.
    intros d Hd. simpl in Hd. injection Hd as <-. reflexivity.
Qed.

Lemma reachable_primitive_consistent (s : session Alt) :
  reachable_primitive sexp_type s -> primitive_consistent sexp_type (object s).
Proof.
  induction 1 as [ca n w|m s Hs IH].
  - intros d Hd. discriminate.
  - destruct (call_primitive_object m s) as [-> | ->]; [exact IH|].
    apply primitive_Materialize_consistent, IH.
Qed.
End PrimitiveFacts.

(** ** The factor class *)

Lemma to_int_small z : INT32_MIN <= z <= INT32_MAX -> to_int z = z.
Proof.
  unfold to_int, wrap, INT32_MIN, INT32_MAX. intros H.
  change (2 ^ (32 - 1)) with 2147483648. change (2 ^ 32) with 4294967296.
  rewrite Z.mod_small; lia.
Qed.

Lemma valid_chunk_inv (c : DictionaryArray) :
  valid_chunk c = true ->
  integer_type (indices_type (dictionary_ c)) = true
  /\ Z.of_nat (List.length (dictionary (dictionary_ c))) <= INT32_MAX
  /\ Forall (fun slot : bool * Z =>
               fst slot = true ->
               0 <= snd slot
                 < Z.of_nat (List.length (dictionary (dictionary_ c))))
            (slots c).
Proof.
  unfold valid_chunk. rewrite !andb_true_iff. intros [[H1 H2] H3].
  split; [exact H1|]. split; [now apply Z.leb_le|].
  rewrite forallb_forall in H3. apply Forall_forall. intros slot Hin Hbit.
  specialize (H3 slot Hin). rewrite Hbit in H3. simpl in H3.
  apply andb_true_iff in H3. destruct H3 as [Ha Hb].
  apply Z.leb_le in Ha. apply Z.ltb_lt in Hb. lia.
Qed.

Lemma read_nth {T} (buffer : list T) i d :
  0 <= i < Z.of_nat (List.length buffer) ->
  read buffer i = Some (nth (Z.to_nat i) buffer d).
Proof.
  intros H. unfold read.
  replace (i <? 0) with false by (symmetry; apply Z.ltb_ge; lia).
  apply nth_error_nth'. lia.
Qed.

(** One chunk of a region, written position by position. *)
Lemma GetRegionTranspose_spec arrays_transpose k d (sl : list (bool * Z))
  (transpose : Z -> option Z) bound :
  bound <= INT32_MAX ->
  Forall (fun slot : bool * Z => fst slot = true -> 0 <= snd slot < bound) sl ->
  (forall index, 0 <= index < bound ->
     exists t, transpose index = Some t
               /\ code arrays_transpose k d (true, index) = to_int (t + 1)) ->
  forall pre old post,
    List.length old = List.length sl ->
    AltrepFactor.GetRegionTranspose sl transpose (List.length pre)
      (pre ++ old ++ post)
    = Some (pre ++ map (code arrays_transpose k d) sl ++ post).
Proof.
  intros Hbound Hsl Htr.
  induction sl as [|[bit index] sl IH]; intros pre old post Hlen; simpl.
  - destruct old; [reflexivity|discriminate].
  - destruct old as [|y old]; [discriminate|]. simpl in Hlen.
    inversion Hsl as [|? ? Hhd Htl]; subst.
    assert (Hnext : forall x,
      AltrepFactor.GetRegionTranspose sl transpose (S (List.length pre))
        (store (pre ++ (y :: old) ++ post) (List.length pre) x)
      = Some (pre ++ x :: map (code arrays_transpose k d) sl ++ post)).
    { intros x. simpl. rewrite store_middle.
      specialize (IH Htl (pre ++ [x]) old post).
      rewrite length_app, Nat.add_1_r, <- !app_assoc in IH.
      apply IH. lia. }
    destruct bit.
    + specialize (Hhd eq_refl). simpl in Hhd.
      rewrite to_int_small by (unfold INT32_MIN, INT32_MAX in *; lia).
      destruct (Htr index Hhd) as (t & -> & ->). apply Hnext.
    + apply Hnext.
Qed.

Lemma GetRegionDispatch_spec arrays_transpose k (c : DictionaryArray)
  (transpose : Z -> option Z) :
  valid_chunk c = true ->
  (forall index,
     0 <= index < Z.of_nat (List.length (dictionary (dictionary_ c))) ->
     exists t, transpose index = Some t
               /\ code arrays_transpose k (dictionary_ c) (true, index)
                  = to_int (t + 1)) ->
  forall pre old post,
    List.length old = List.length (slots c) ->
    AltrepFactor.GetRegionDispatch c transpose (List.length pre)
      (pre ++ old ++ post)
    = Some (pre ++ map (code arrays_transpose k (dictionary_ c)) (slots c)
                ++ post).
Proof.
  intros Hv Htr pre old post Hlen.
  destruct (valid_chunk_inv c Hv) as (Hty & Hmax & Hsl).
  unfold AltrepFactor.GetRegionDispatch.
  assert (H : AltrepFactor.GetRegionTranspose (slots c) transpose
                (List.length pre) (pre ++ old ++ post)
              = Some (pre ++ map (code arrays_transpose k (dictionary_ c))
                                 (slots c) ++ post)).
  { eapply GetRegionTranspose_spec; eauto. }
  destruct (indices_type (dictionary_ c)); try discriminate; exact H.
Qed.

Lemma region_transposed_spec (alt : AltrepFactor.Alt) arrays :
  AltrepFactor.CADR (R_altrep_data2 alt) = Some arrays ->
  forall pieces j pre old post,
    fits (Some arrays) j pieces ->
    List.length old = List.length (render (code (Some arrays)) j pieces) ->
    AltrepFactor.region_transposed alt pieces (Z.of_nat j) (List.length pre)
      (pre ++ old ++ post)
    = Some (pre ++ render (code (Some arrays)) j pieces ++ post).
Proof.
  intros Htab.
  induction pieces as [|c pieces IH]; intros j pre old post Hfits Hlen;
    simpl in *.
  - destruct old; [reflexivity|discriminate].
  - destruct Hfits as (Hv & (t & Ht & Hlt) & Hrest).
    unfold AltrepFactor.GetArrayTransposed. rewrite Htab.
    unfold read at 1.
    replace (Z.of_nat j <? 0) with false by (symmetry; apply Z.ltb_ge; lia).
    rewrite Nat2Z.id, Ht.
    rewrite length_app, length_map in Hlen.
    rewrite <- (firstn_skipn (List.length (slots c)) old), <- app_assoc.
    rewrite (GetRegionDispatch_spec (Some arrays) j c (read t) Hv).
    + specialize (IH (S j)
                     (pre ++ map (code (Some arrays) j (dictionary_ c)) (slots c))
                     (skipn (List.length (slots c)) old) post Hrest).
      rewrite length_app, length_map, <- !app_assoc in IH.
      replace (Z.of_nat j + 1) with (Z.of_nat (S j)) by lia.
      rewrite IH; [now rewrite <- !app_assoc|].
      rewrite length_skipn. lia.
    + intros index Hi. exists (nth (Z.to_nat index) t 0). split.
      * apply read_nth. lia.
      * unfold code; simpl. now rewrite (nth_error_nth _ _ _ Ht).
    + rewrite firstn_length_le; lia.
Qed.

Lemma region_identity_spec :
  forall pieces j pre old post,
    fits None j pieces ->
    List.length old = List.length (render (code None) j pieces) ->
    AltrepFactor.region_identity pieces (List.length pre) (pre ++ old ++ post)
    = Some (pre ++ render (code None) j pieces ++ post).
Proof.
  induction pieces as [|c pieces IH]; intros j pre old post Hfits Hlen;
    simpl in *.
  - destruct old; [reflexivity|discriminate].
  - destruct Hfits as (Hv & _ & Hrest).
    rewrite length_app, length_map in Hlen.
    rewrite <- (firstn_skipn (List.length (slots c)) old), <- app_assoc.
    rewrite (GetRegionDispatch_spec None j c (fun x => Some x) Hv).
    + specialize (IH (S j)
                     (pre ++ map (code None j (dictionary_ c)) (slots c))
                     (skipn (List.length (slots c)) old) post Hrest).
      rewrite length_app, length_map, <- !app_assoc in IH.
      rewrite IH; [now rewrite <- !app_assoc|].
      rewrite length_skipn. lia.
    + intros index Hi. exists index. split; reflexivity.
    + rewrite firstn_length_le; lia.
Qed.

Lemma In_firstn_skipn {T} (x : T) n m l :
  In x (firstn n (skipn m l)) -> In x l.
Proof.
  intros H. rewrite <- (firstn_skipn m l). apply in_or_app. right.
  rewrite <- (firstn_skipn n (skipn m l)). apply in_or_app. now left.
Qed.

(** Slices of fitting chunks fit. *)
Lemma valid_chunk_Slice (c : DictionaryArray) offset len :
  valid_chunk c = true -> valid_chunk (Array_Slice c offset len) = true.
Proof.
  unfold valid_chunk. rewrite !andb_true_iff. intros [[H1 H2] H3]. simpl.
  repeat split; auto.
  rewrite forallb_forall in *. intros slot Hin. apply H3.
  apply In_firstn_skipn in Hin. exact Hin.
Qed.

Lemma fits_Slice_take arrays_transpose chunks :
  forall j offset len,
    fits arrays_transpose j chunks ->
    fits arrays_transpose j (Slice_take chunks offset len).
Proof.
  induction chunks as [|c chunks IH]; intros j offset len Hfits; simpl;
    [exact I|].
  destruct (0 <? len); [|exact I].
  destruct Hfits as (Hv & Ht & Hrest). simpl. repeat split.
  - apply valid_chunk_Slice, Hv.
  - exact Ht.
  - apply IH, Hrest.
Qed.

Lemma fits_skipn arrays_transpose chunks :
  forall j k,
    fits arrays_transpose j chunks ->
    fits arrays_transpose (j + k) (skipn k chunks).
Proof.
  induction chunks as [|c chunks IH]; intros j k Hfits.
  - rewrite skipn_nil. exact I.
  - destruct k as [|k]; simpl.
    + rewrite Nat.add_0_r. exact Hfits.
    + destruct Hfits as (_ & _ & Hrest).
      replace (j + S k)%nat with (S j + k)%nat by lia. apply IH, Hrest.
Qed.

(** The loop over [j] and [k] stops at the chunk where [Slice] starts. *)
Lemma Slice_skip_length {D T} (ca : ChunkedArray D T) offset :
  (List.length (fst (Slice_skip ca offset)) <= List.length ca)%nat.
Proof.
  revert offset; induction ca as [|c ca IH]; intros offset; simpl; [lia|].
  destruct (length c <=? offset); simpl; [|lia].
  specialize (IH (offset - length c)). lia.
Qed.

Lemma first_chunk_Slice_skip (ca : list DictionaryArray) j k start :
  AltrepFactor.first_chunk ca j k start
  = j + Z.of_nat (List.length ca
                  - List.length (fst (Slice_skip ca (start - k)))).
Proof.
  revert j k; induction ca as [|c ca IH]; intros j k;
    cbn [AltrepFactor.first_chunk Slice_skip]; [simpl; lia|].
  destruct (start <? k + length c) eqn:E.
  - apply Z.ltb_lt in E.
    replace (length c <=? start - k) with false
      by (symmetry; apply Z.leb_gt; lia).
    cbn [fst]. rewrite Nat.sub_diag. lia.
  - apply Z.ltb_ge in E.
    replace (length c <=? start - k) with true
      by (symmetry; apply Z.leb_le; lia).
    rewrite IH.
    replace (start - k - length c) with (start - (k + length c)) by lia.
    pose proof (Slice_skip_length ca (start - (k + length c))) as H.
    unfold DictionaryArray in *. cbn [List.length]. lia.
Qed.

Lemma fits_nth arrays_transpose chunks :
  forall j k c,
    fits arrays_transpose j chunks ->
    nth_error chunks k = Some c ->
    valid_chunk c = true
    /\ match arrays_transpose with
       | Some arrays =>
           exists t, nth_error arrays (j + k) = Some t
                     /\ List.length t = List.length (dictionary (dictionary_ c))
       | None => True
       end.
Proof.
  induction chunks as [|c0 chunks IH]; intros j k c Hfits Hk.
  - destruct k; discriminate.
  - destruct Hfits as (Hv & Ht & Hrest). destruct k as [|k]; simpl in Hk.
    + injection Hk as <-. rewrite Nat.add_0_r. split; assumption.
    + replace (j + S k)%nat with (S j + k)%nat by lia. eapply IH; eauto.
Qed.

(** Before materialization the accessor reads position [i] of the codes. *)
Lemma factor_Elt_codes (alt : AltrepFactor.Alt) i :
  AltrepFactor.Representation alt = None ->
  fits (AltrepFactor.CADR (R_altrep_data2 alt)) 0 (R_altrep_data1 alt) ->
  0 <= i < AltrepFactor.Length alt ->
  AltrepFactor.Elt alt i = nth_error (codes alt) (Z.to_nat i)
  /\ exists v, AltrepFactor.Elt alt i = Some v.
Proof.
  intros Hrep Hfits Hi.
  assert (Heq : AltrepFactor.Elt alt i = nth_error (codes alt) (Z.to_nat i)).
  { unfold AltrepFactor.Elt, ArrayResolve_new. rewrite Hrep.
    destruct (ArrayResolve_loop_spec
                (code (AltrepFactor.CADR (R_altrep_data2 alt)))
                (AltrepFactor.GetChunkedArray alt) 0 0 i Hi)
      as (k & c & j & H1 & Hc & Hj & H4).
    rewrite H1; simpl.
    change (AltrepFactor.GetChunkedArray alt) with (R_altrep_data1 alt) in *.
    unfold codes. rewrite H4. unfold IsNull, value_at.
    destruct (fits_nth _ _ 0 k c Hfits Hc) as [Hv Ht]. simpl in Ht.
    destruct (valid_chunk_inv c Hv) as (Hty & Hmax & Hsl).
    assert (Hs : exists slot, slot_at c j = Some slot /\ In slot (slots c)).
    { unfold slot_at.
      replace (j <? 0) with false by (symmetry; apply Z.ltb_ge; lia).
      destruct (nth_error (slots c) (Z.to_nat j)) eqn:E.
      - eexists; split; [reflexivity|]. eapply nth_error_In; eauto.
      - apply nth_error_None in E. unfold length in Hj. lia. }
    destruct Hs as ([bit index] & -> & Hin). simpl.
    rewrite Forall_forall in Hsl. specialize (Hsl _ Hin). simpl in Hsl.
    destruct bit; simpl; [|reflexivity].
    specialize (Hsl eq_refl).
    unfold AltrepFactor.WasUnified, AltrepFactor.GetArrayTransposed, code.
    simpl.
    destruct (AltrepFactor.CADR (R_altrep_data2 alt)) as [arrays|].
    - destruct Ht as (t & Ht & Hlen).
      assert (Hr1 : read arrays (Z.of_nat k) = Some t).
      { unfold read.
        replace (Z.of_nat k <? 0) with false by (symmetry; apply Z.ltb_ge; lia).
        now rewrite Nat2Z.id. }
      rewrite Hr1, (read_nth t index 0) by lia.
      rewrite (nth_error_nth _ _ _ Ht).
      destruct (indices_type (dictionary_ c)); try discriminate; reflexivity.
    - destruct (indices_type (dictionary_ c)); try discriminate; reflexivity. }
  split; [exact Heq|]. rewrite Heq.
  destruct (nth_error (codes alt) (Z.to_nat i)) eqn:E; [eauto|].
  apply nth_error_None in E.
  pose proof (render_length (code (AltrepFactor.CADR (R_altrep_data2 alt))) 0
                (R_altrep_data1 alt)) as HL.
  fold (codes alt) in HL. unfold AltrepFactor.Length, AltrepVectorBase.Length,
    AltrepVectorBase.GetChunkedArray in Hi. same_types. lia.
Qed.

(** Before materialization the region copy writes what the standard copy
    would write from the vector holding the codes. *)
Lemma factor_Get_region_unmaterialized (alt : AltrepFactor.Alt) start n buf a :
  AltrepFactor.Representation alt = None ->
  fits (AltrepFactor.CADR (R_altrep_data2 alt)) 0 (R_altrep_data1 alt) ->
  0 <= start ->
  n <= Z.of_nat (List.length buf) ->
  AltrepFactor.Get_region alt start n buf
  = Some (Standard_Get_region (mkVector a (codes alt)) start n buf).
Proof.
  intros Hrep Hfits H0 Hn. unfold AltrepFactor.Get_region. rewrite Hrep.
  change (AltrepFactor.GetChunkedArray alt) with (R_altrep_data1 alt).
  set (ca := R_altrep_data1 alt) in *.
  set (tables := AltrepFactor.CADR (R_altrep_data2 alt)) in *.
  assert (HL : Z.of_nat (List.length (codes alt)) = ChunkedArray_length ca)
    by apply render_length.
  unfold Standard_Get_region; simpl.
  destruct (ChunkedArray_length ca <=? start) eqn:E.
  - apply Z.leb_le in E.
    rewrite skipn_all2 by lia. rewrite firstn_nil. reflexivity.
  - apply Z.leb_gt in E.
    destruct (Slice_render (code tables) ca start n H0) as (k & Hk1 & Hk2 & Hk3).
    specialize (Hk1 E). specialize (Hk3 O). simpl in Hk3.
    fold (codes alt) in Hk3.
    assert (Hj : AltrepFactor.first_chunk ca 0 0 start = Z.of_nat k).
    { rewrite first_chunk_Slice_skip, Z.sub_0_r, Hk2, length_skipn.
      unfold DictionaryArray in *. lia. }
    set (slice := Slice ca start n) in *.
    assert (Hslice : fits tables k slice).
    { subst slice. unfold Slice.
      destruct (Slice_skip ca start) as [rest off]. simpl in Hk2. subst rest.
      apply fits_Slice_take. apply (fits_skipn tables ca 0 k Hfits). }
    set (m := List.length (render (code tables) k slice)).
    assert (Hm : (m <= List.length buf)%nat).
    { subst m. rewrite Hk3, length_firstn. lia. }
    destruct (buffer_split buf m Hm) as [Hbuf Hfirst].
    rewrite <- (render_length (code tables) k slice).
    assert (Hloop :
      (if AltrepFactor.WasUnified alt
       then AltrepFactor.region_transposed alt slice
              (AltrepFactor.first_chunk ca 0 0 start) 0 buf
       else AltrepFactor.region_identity slice 0 buf)
      = Some (render (code tables) k slice ++ skipn m buf)).
    { rewrite Hj. unfold AltrepFactor.WasUnified. fold tables.
      destruct tables as [arrays|] eqn:Etab.
      - rewrite Hbuf at 1.
        apply (region_transposed_spec alt arrays Etab slice k []
                 (firstn m buf) (skipn m buf) Hslice Hfirst).
      - rewrite Hbuf at 1.
        apply (region_identity_spec slice k [] (firstn m buf) (skipn m buf)
                 Hslice Hfirst). }
    rewrite Hloop. simpl. subst m. rewrite Hk3. reflexivity.
Qed.

(** The first materialization of a factor allocates one vector, fills it
    with the codes and stores it in the CAR of data2. *)
Lemma factor_Materialize_first (s : session AltrepFactor.Alt) :
  AltrepFactor.Representation (object s) = None ->
  fits (AltrepFactor.CADR (R_altrep_data2 (object s))) 0
       (R_altrep_data1 (object s)) ->
  AltrepFactor.Materialize s
  = (Ok (Some (fst (factor_materialized s))), snd (factor_materialized s)).
Proof.
  intros Hrep Hfits. unfold AltrepFactor.Materialize,
    AltrepFactor.IsMaterialized, AltrepVectorBase.IsMaterialized.
  rewrite Hrep. cbn [negb].
  set (size := AltrepFactor.Length (object s)).
  assert (Hsize : size = Z.of_nat (List.length (codes (object s)))).
  { subst size. symmetry. apply render_length. }
  rewrite (factor_Get_region_unmaterialized _ 0 size _ (allocated s) Hrep Hfits);
    [|lia|unfold Rf_allocVector; simpl; rewrite repeat_length; lia].
  unfold Standard_Get_region, Rf_allocVector; simpl.
  rewrite Hsize, Nat2Z.id, firstn_all, skipn_all2
    by (rewrite repeat_length; lia).
  rewrite app_nil_r. reflexivity.
Qed.

Lemma factor_Materialize_again (s : session AltrepFactor.Alt) data2 :
  AltrepFactor.Representation (object s) = Some data2 ->
  AltrepFactor.Materialize s = (Ok (Some data2), s).
Proof.
  intros Hrep. unfold AltrepFactor.Materialize,
    AltrepFactor.IsMaterialized, AltrepVectorBase.IsMaterialized.
  rewrite Hrep. reflexivity.
Qed.

(** On a valid factor materialization returns a vector, which is then the
    cache; the chunked array, the transpose buffers and the attributes
    stay as they are. *)
Lemma factor_Materialize_cases (s : session AltrepFactor.Alt) :
  factor_valid (object s) ->
  exists data2 s',
    AltrepFactor.Materialize s = (Ok (Some data2), s')
    /\ AltrepFactor.Representation (object s') = Some data2
    /\ R_altrep_data1 (object s') = R_altrep_data1 (object s)
    /\ AltrepFactor.CADR (R_altrep_data2 (object s'))
       = AltrepFactor.CADR (R_altrep_data2 (object s))
    /\ ATTRIB (object s') = ATTRIB (object s)
    /\ factor_valid (object s')
    /\ (forall old,
          AltrepFactor.Representation (object s) = Some old ->
          data2 = old /\ s' = s)
    /\ (AltrepFactor.Representation (object s) = None ->
        (data2, s') = factor_materialized s).
Proof.
  intros [Hfits Hcache].
  destruct (AltrepFactor.Representation (object s)) as [old|] eqn:Hrep.
  - exists old, s. rewrite (factor_Materialize_again s old Hrep).
    repeat split; auto; try congruence.
    intros d Hd. apply Hcache. congruence.
  - exists (fst (factor_materialized s)), (snd (factor_materialized s)).
    rewrite (factor_Materialize_first s Hrep Hfits).
    repeat split; auto; try discriminate.
    intros d Hd. simpl in Hd. injection Hd as <-. reflexivity.
Qed.

Lemma call_factor_object m (s : session AltrepFactor.Alt) :
  object (call_factor m s) = object s
  \/ object (call_factor m s) = object (snd (AltrepFactor.Materialize s)).
Proof.
  destruct m; simpl; auto;
    unfold AltrepFactor.Duplicate, AltrepFactor.Coerce,
      AltrepFactor.Serialized_state, AltrepFactor.Dataptr,
      AltrepVectorBase.Coerce, AltrepVectorBase.Serialized_state;
    destruct (AltrepFactor.Materialize s) as [[x | message | ] s'];
    simpl; auto.
Qed.

(** [Unify] returns one unified index for every entry of the dictionary. *)
Lemma Unify_length dict :
  forall memo, List.length (snd (DictionaryUnifier.Unify memo dict))
               = List.length dict.
Proof.
  induction dict as [|s dict IH]; intros memo; simpl; [reflexivity|].
  destruct (DictionaryUnifier.GetOrInsert memo s) as [memo1 k].
  specialize (IH memo1).
  destruct (DictionaryUnifier.Unify memo1 dict) as [memo2 tr]. simpl in *.
  now rewrite IH.
Qed.

Lemma unify_chunks_fits (ca : list DictionaryArray) :
  forallb valid_chunk ca = true ->
  forall memo pre,
    fits (Some (pre ++ snd (AltrepFactor.unify_chunks memo ca)))
         (List.length pre) ca.
Proof.
  induction ca as [|c ca IH]; intros Hv memo pre; simpl; [exact I|].
  simpl in Hv. apply andb_true_iff in Hv. destruct Hv as [Hc Hv].
  pose proof (Unify_length (dictionary (dictionary_ c)) memo) as Hlen.
  destruct (DictionaryUnifier.Unify memo (dictionary (dictionary_ c)))
    as [memo1 t]. simpl in Hlen.
  specialize (IH Hv memo1 (pre ++ [t])).
  destruct (AltrepFactor.unify_chunks memo1 ca) as [memo2 arrays].
  simpl in *. repeat split.
  - exact Hc.
  - exists t. split; [|exact Hlen].
    rewrite nth_error_app2, Nat.sub_diag by lia. reflexivity.
  - rewrite length_app, Nat.add_1_r, <- app_assoc in IH. exact IH.
Qed.

Lemma fits_None (ca : list DictionaryArray) :
  forallb valid_chunk ca = true -> forall j, fits None j ca.
Proof.
  induction ca as [|c ca IH]; intros Hv j; simpl; [exact I|].
  simpl in Hv. apply andb_true_iff in Hv. destruct Hv as [Hc Hv].
  repeat split; auto.
Qed.

(** What [Make] builds. *)
Lemma Make_inv (ca : list DictionaryArray) alt :
  AltrepFactor.Make ca = Some alt ->
  R_altrep_data1 alt = ca
  /\ AltrepFactor.Representation alt = None
  /\ AltrepFactor.WasUnified alt = DictionaryChunkArrayNeedUnification ca
  /\ (DictionaryChunkArrayNeedUnification ca = true ->
      AltrepFactor.CADR (R_altrep_data2 alt)
        = Some (snd (AltrepFactor.unify_chunks [] ca))
      /\ R_LevelsSymbol (ATTRIB alt)
         = Some (fst (AltrepFactor.unify_chunks [] ca)))
  /\ (DictionaryChunkArrayNeedUnification ca = false ->
      AltrepFactor.CADR (R_altrep_data2 alt) = None
      /\ exists chunk_0 rest,
           ca = chunk_0 :: rest
           /\ R_LevelsSymbol (ATTRIB alt)
              = Some (dictionary (dictionary_ chunk_0))).
Proof.
  unfold AltrepFactor.Make. destruct ca as [|chunk_0 rest]; [discriminate|].
  destruct (negb _); [discriminate|].
  destruct (DictionaryChunkArrayNeedUnification (chunk_0 :: rest)) eqn:E.
  - destruct (AltrepFactor.unify_chunks [] (chunk_0 :: rest)) as [dict arrays].
    intros H. injection H as <-.
    split; [reflexivity|]. split; [reflexivity|]. split; [reflexivity|].
    split; [intros _; split; reflexivity|discriminate].
  - intros H. injection H as <-.
    split; [reflexivity|]. split; [reflexivity|]. split; [reflexivity|].
    split; [discriminate|]. intros _. split; [reflexivity|]. eauto.
Qed.

Lemma Make_valid (ca : list DictionaryArray) alt :
  forallb valid_chunk ca = true ->
  AltrepFactor.Make ca = Some alt ->
  factor_valid alt.
Proof.
  intros Hv HM. destruct (Make_inv ca alt HM) as (H1 & H2 & H3 & H4 & H5).
  split; [|intros d Hd; congruence].
  rewrite H1. destruct (DictionaryChunkArrayNeedUnification ca) eqn:E.
  - destruct (H4 eq_refl) as [-> _].
    apply (unify_chunks_fits ca Hv [] []).
  - destruct (H5 eq_refl) as [-> _]. apply fits_None, Hv.
Qed.

(** A reachable factor is the one [Make] built, but for its cache. *)
Lemma reachable_factor_inv (s : session AltrepFactor.Alt) :
  reachable_factor s ->
  factor_valid (object s)
  /\ exists ca alt,
       forallb valid_chunk ca = true
       /\ AltrepFactor.Make ca = Some alt
       /\ R_altrep_data1 (object s) = ca
       /\ AltrepFactor.CADR (R_altrep_data2 (object s))
          = AltrepFactor.CADR (R_altrep_data2 alt)
       /\ ATTRIB (object s) = ATTRIB alt.
Proof.
  induction 1 as [ca alt n w Hv HM|m s Hs [IHv (ca & alt & Hv & HM & H1 & H2 & H3)]].
  - split; [exact (Make_valid ca alt Hv HM)|].
    exists ca, alt. destruct (Make_inv ca alt HM) as (H1 & _). auto.
  - destruct (factor_Materialize_cases s IHv)
      as (data2 & s' & HMat & _ & G1 & G2 & G3 & G4 & _).
    destruct (call_factor_object m s) as [-> | ->].
    + split; [exact IHv|]. exists ca, alt. auto.
    + rewrite HMat; simpl. split; [exact G4|].
      exists ca, alt. rewrite G1, G2, G3. auto.
Qed.

(** ** Element access, region copy and cache agree *)

Lemma read_nth_error {T} (buffer : list T) i :
  0 <= i -> read buffer i = nth_error buffer (Z.to_nat i).
Proof.
  intros H. unfold read.
  now replace (i <? 0) with false by (symmetry; apply Z.ltb_ge; lia).
Qed.

(** In every consistent state the region copy of a primitive vector is the
    standard copy from what the chunks show. *)
Lemma primitive_Get_region_any sexp_type
  (alt : AltrepVectorPrimitive.Alt sexp_type) start n buf :
  primitive_consistent sexp_type alt ->
  0 <= start ->
  n <= Z.of_nat (List.length buf) ->
  AltrepVectorPrimitive.Get_region sexp_type alt start n buf
  = Standard_Get_region
      (mkVector 0 (render (shown sexp_type) 0 (R_altrep_data1 alt)))
      start n buf.
Proof.
  intros Hc H0 Hn.
  destruct (AltrepVectorPrimitive.Representation sexp_type alt) as [data2|] eqn:E.
  - unfold AltrepVectorPrimitive.Get_region. rewrite E.
    unfold Standard_Get_region. simpl. now rewrite (Hc data2 E).
  - now apply primitive_Get_region_unmaterialized.
Qed.

Lemma factor_Get_region_any (alt : AltrepFactor.Alt) start n buf :
  factor_valid alt ->
  0 <= start ->
  n <= Z.of_nat (List.length buf) ->
  AltrepFactor.Get_region alt start n buf
  = Some (Standard_Get_region (mkVector 0 (codes alt)) start n buf).
Proof.
  intros [Hfits Hc] H0 Hn.
  destruct (AltrepFactor.Representation alt) as [data2|] eqn:E.
  - unfold AltrepFactor.Get_region. rewrite E.
    unfold Standard_Get_region. simpl. now rewrite (Hc data2 eq_refl).
  - now apply factor_Get_region_unmaterialized.
Qed.

Lemma factor_Elt_any (alt : AltrepFactor.Alt) i :
  factor_valid alt ->
  0 <= i < AltrepFactor.Length alt ->
  AltrepFactor.Elt alt i = read (codes alt) i
  /\ exists v, AltrepFactor.Elt alt i = Some v.
Proof.
  intros [Hfits Hc] Hi.
  destruct (AltrepFactor.Representation alt) as [data2|] eqn:E.
  - assert (Heq : AltrepFactor.Elt alt i = read (codes alt) i).
    { unfold AltrepFactor.Elt. rewrite E. now rewrite (Hc data2 eq_refl). }
    split; [exact Heq|]. rewrite Heq, read_nth_error by lia.
    destruct (nth_error (codes alt) (Z.to_nat i)) eqn:En; [eauto|].
    apply nth_error_None in En.
    pose proof (render_length
                  (code (AltrepFactor.CADR (R_altrep_data2 alt))) 0
                  (R_altrep_data1 alt)) as HL.
    fold (codes alt) in HL.
    unfold AltrepFactor.Length, AltrepVectorBase.Length,
      AltrepVectorBase.GetChunkedArray in Hi. same_types. lia.
  - rewrite read_nth_error by lia. now apply factor_Elt_codes.
Qed.

(** C3: for every lazy vector of length [L] and every region request
    [(start, n)] with [0 <= start], written to a buffer with room for [n]
    values, [Get_region] returns [min(n, L - start)] elements, 0 when
    [start >= L], and for every returned offset [k] the value at position
    [k] of the buffer is the value of [Elt] at [start + k]: sentinels
    included and, for the factor class, with the transpose buffer of the
    chunk that covers the position.  First the primitive class, then the
    factor class. *)
Theorem Get_region_copies_what_Elt_returns :
  (forall sexp_type (s : session (AltrepVectorPrimitive.Alt sexp_type))
          start n buf,
      reachable_primitive sexp_type s ->
      0 <= start ->
      n <= Z.of_nat (List.length buf) ->
      let L := AltrepVectorPrimitive.Length sexp_type (object s) in
      let out :=
        AltrepVectorPrimitive.Get_region sexp_type (object s) start n buf in
      fst out = Z.max 0 (Z.min n (L - start))
      /\ forall k, 0 <= k < fst out ->
           exists v,
             AltrepVectorPrimitive.Elt sexp_type (object s) (start + k) = Some v
             /\ read (snd out) k = Some v)
  /\ (forall (s : session AltrepFactor.Alt) start n buf,
        reachable_factor s ->
        0 <= start ->
        n <= Z.of_nat (List.length buf) ->
        let L := AltrepFactor.Length (object s) in
        exists ncopy out,
          AltrepFactor.Get_region (object s) start n buf = Some (ncopy, out)
          /\ ncopy = Z.max 0 (Z.min n (L - start))
          /\ forall k, 0 <= k < ncopy ->
               exists v,
                 AltrepFactor.Elt (object s) (start + k) = Some v
                 /\ read out k = Some v).
Proof.
  split.
  - intros sexp_type s start n buf Hs H0 Hn L out.
    pose proof (reachable_primitive_consistent sexp_type s Hs) as Hc.
    subst out.
    rewrite (primitive_Get_region_any sexp_type (object s) start n buf Hc H0 Hn).
    set (cache := mkVector 0 (render (shown sexp_type) 0
                                     (R_altrep_data1 (object s)))).
    destruct (Standard_Get_region_spec cache start n buf H0) as [Hcount Hread].
    assert (HL : Z.of_nat (List.length (DATAPTR cache)) = L)
      by apply render_length.
    rewrite HL in Hcount. split; [exact Hcount|].
    intros k Hk. destruct (Hread k Hk) as [Hr _].
    rewrite Hcount in Hk.
    assert (Hi : 0 <= start + k < L) by lia.
    destruct (primitive_Elt_values sexp_type (object s) (start + k) Hi)
      as [Heq [v Hv]].
    exists v. split; [exact Hv|].
    rewrite Hr, read_nth_error by lia. simpl. now rewrite <- Heq.
  - intros s start n buf Hs H0 Hn L.
    destruct (reachable_factor_inv s Hs) as [Hvalid _].
    rewrite (factor_Get_region_any (object s) start n buf Hvalid H0 Hn).
    set (cache := mkVector 0 (codes (object s))).
    destruct (Standard_Get_region_spec cache start n buf H0) as [Hcount Hread].
    assert (HL : Z.of_nat (List.length (DATAPTR cache)) = L)
      by apply render_length.
    rewrite HL in Hcount.
    exists (fst (Standard_Get_region cache start n buf)),
           (snd (Standard_Get_region cache start n buf)).
    split; [now destruct (Standard_Get_region cache start n buf)|].
    split; [exact Hcount|].
    intros k Hk. destruct (Hread k Hk) as [Hr _].
    rewrite Hcount in Hk.
    assert (Hi : 0 <= start + k < L) by lia.
    destruct (factor_Elt_any (object s) (start + k) Hvalid Hi) as [Heq [v Hv]].
    exists v. split; [exact Hv|]. rewrite Hr. simpl. now rewrite <- Heq.
Qed.

(** C7: [Dataptr_or_null] of a primitive vector returns a pointer into the
    buffer of the chunk if and only if the vector is not materialized, the
    array has exactly one chunk and it has no nulls; a materialized vector
    gives the pointer of its cache; everything else gives the null pointer;
    and the call leaves the session, hence the cache slot, as it is. *)
Theorem Dataptr_or_null_zero_copy sexp_type
  (s : session (AltrepVectorPrimitive.Alt sexp_type)) :
  let alt := object s in
  let chunked_array := AltrepVectorPrimitive.GetChunkedArray sexp_type alt in
  (AltrepVectorPrimitive.Dataptr_or_null sexp_type alt = into_chunk 0
   <-> AltrepVectorPrimitive.IsMaterialized sexp_type alt = false
       /\ num_chunks chunked_array = 1
       /\ ChunkedArray_null_count chunked_array = 0)
  /\ (forall data2,
        AltrepVectorPrimitive.Representation sexp_type alt = Some data2 ->
        AltrepVectorPrimitive.Dataptr_or_null sexp_type alt
        = into_vector (address data2))
  /\ (AltrepVectorPrimitive.IsMaterialized sexp_type alt = false ->
      num_chunks chunked_array <> 1
      \/ ChunkedArray_null_count chunked_array <> 0 ->
      AltrepVectorPrimitive.Dataptr_or_null sexp_type alt = nullptr)
  /\ call_primitive sexp_type call_Dataptr_or_null s = s.
Proof.
  intros alt chunked_array.
  unfold AltrepVectorPrimitive.Dataptr_or_null,
    AltrepVectorPrimitive.IsMaterialized, AltrepVectorBase.IsMaterialized.
  fold chunked_array.
  destruct (AltrepVectorPrimitive.Representation sexp_type alt) as [data2|].
  - repeat split; try discriminate.
    + intros [H _]. discriminate.
    + intros d Hd. now injection Hd as <-.
  - destruct (num_chunks chunked_array =? 1) eqn:E1;
      destruct (ChunkedArray_null_count chunked_array =? 0) eqn:E2; simpl;
      rewrite ?Z.eqb_eq, ?Z.eqb_neq in *;
      (split; [split; [intros H; try discriminate; auto
                      |intros (_ & H1 & H2); try reflexivity; try contradiction]
              |split; [discriminate
                      |split; [|reflexivity]]]);
      intros _ [H | H]; try reflexivity; contradiction.
Qed.

(** C10: the dispatch makes a lazy vector only for chunked arrays with at
    least one element: for a chunked array of length zero it returns
    [R_NilValue], whatever the element type and whether or not the option
    arrow.use_altrep is set. *)
Theorem MakeAltrepVector_declines_empty arrow_use_altrep chunked_array :
  (chunked_array_length chunked_array = 0 ->
   MakeAltrepVector arrow_use_altrep chunked_array = R_NilValue)
  /\ (MakeAltrepVector arrow_use_altrep chunked_array <> R_NilValue ->
      0 < chunked_array_length chunked_array /\ arrow_use_altrep = true).
Proof.
  unfold MakeAltrepVector. split.
  - intros H. rewrite H. simpl. now rewrite andb_false_r.
  - destruct arrow_use_altrep; simpl; [|congruence].
    destruct (0 <? chunked_array_length chunked_array) eqn:E; [|congruence].
    apply Z.ltb_lt in E. auto.
Qed.

(** ** Aggregates *)

Lemma null_count_le {D T} (c : Array D T) : 0 <= null_count c <= length c.
Proof.
  unfold null_count, length. pose proof (filter_length_le
    (fun s : bool * T => negb (fst s)) (slots c)). lia.
Qed.

Lemma ChunkedArray_null_count_le {D T} (ca : ChunkedArray D T) :
  0 <= ChunkedArray_null_count ca <= ChunkedArray_length ca.
Proof.
  induction ca as [|c ca IH]; simpl; [lia|].
  pose proof (null_count_le c). lia.
Qed.

Lemma all_null_no_values {T} (sl : list (bool * T)) :
  List.length (filter (fun s => negb (fst s)) sl) = List.length sl ->
  filter fst sl = [].
Proof.
  induction sl as [|[bit v] sl IH]; simpl; [reflexivity|].
  pose proof (filter_length_le (fun s : bool * T => negb (fst s)) sl).
  destruct bit; simpl; intros Hlen; [lia|]. apply IH. lia.
Qed.

(** A column whose positions are all null has no values to aggregate. *)
Lemma all_null_valid_values {D T} (ca : ChunkedArray D T) :
  ChunkedArray_null_count ca = ChunkedArray_length ca ->
  valid_values ca = [].
Proof.
  unfold valid_values.
  induction ca as [|c ca IH]; simpl; [reflexivity|]. intros H.
  pose proof (null_count_le c). pose proof (ChunkedArray_null_count_le ca).
  rewrite all_null_no_values by (unfold null_count, length in *; lia).
  simpl. apply IH. lia.
Qed.

(** C4: for the numeric class, [Min], [Max] and [Sum] with nulls kept and
    at least one null return the sentinel of the element type; [Min] and
    [Max] over nothing but nulls, with nulls removed or on an empty
    column, return plus and minus infinity; [Sum] over nothing but nulls
    with nulls removed returns 0; and none of the three calls changes the
    session, so none materializes. *)
Theorem aggregates_null_policy {kernels : double_kernels} sexp_type
  (s : session (AltrepVectorPrimitive.Alt sexp_type)) :
  let alt := object s in
  let chunked_array := AltrepVectorPrimitive.GetChunkedArray sexp_type alt in
  (0 < ChunkedArray_null_count chunked_array ->
   AltrepVectorPrimitive.Min sexp_type alt false
     = as_sexp sexp_type (na sexp_type)
   /\ AltrepVectorPrimitive.Max sexp_type alt false
      = as_sexp sexp_type (na sexp_type)
   /\ AltrepVectorPrimitive.Sum sexp_type alt false
      = as_sexp sexp_type (na sexp_type))
  /\ (forall narm,
        narm = true \/ ChunkedArray_length chunked_array = 0 ->
        ChunkedArray_null_count chunked_array
          = ChunkedArray_length chunked_array ->
        AltrepVectorPrimitive.Min sexp_type alt narm = Rf_ScalarReal R_PosInf
        /\ AltrepVectorPrimitive.Max sexp_type alt narm
           = Rf_ScalarReal R_NegInf)
  /\ (ChunkedArray_null_count chunked_array
        = ChunkedArray_length chunked_array ->
      AltrepVectorPrimitive.Sum sexp_type alt true
      = match sexp_type with
        | INTSXP => Rf_ScalarInteger 0
        | REALSXP => Rf_ScalarReal (finite 0 0)
        end)
  /\ (forall narm,
        call_primitive sexp_type (call_Sum narm) s = s
        /\ call_primitive sexp_type (call_Min narm) s = s
        /\ call_primitive sexp_type (call_Max narm) s = s).
Proof.
  intros alt chunked_array.
  pose proof (ChunkedArray_null_count_le chunked_array) as Hle.
  split; [|split; [|split]].
  - intros Hnull.
    unfold AltrepVectorPrimitive.Min, AltrepVectorPrimitive.Max,
      AltrepVectorPrimitive.MinMax, AltrepVectorPrimitive.Sum.
    fold chunked_array.
    assert (E1 : (ChunkedArray_length chunked_array =? 0) = false)
      by (apply Z.eqb_neq; lia).
    assert (E2 : (0 <? ChunkedArray_null_count chunked_array) = true)
      by (apply Z.ltb_lt; lia).
    rewrite E1, E2. simpl. auto.
  - intros narm Hnarm Hall.
    unfold AltrepVectorPrimitive.Min, AltrepVectorPrimitive.Max,
      AltrepVectorPrimitive.MinMax.
    fold chunked_array.
    assert (E1 : (narm || (ChunkedArray_length chunked_array =? 0)) = true).
    { destruct Hnarm as [-> | ->]; [reflexivity|]. apply orb_true_r. }
    assert (E2 : (ChunkedArray_null_count chunked_array
                  =? ChunkedArray_length chunked_array) = true)
      by now apply Z.eqb_eq.
    rewrite E1, E2. simpl. auto.
  - intros Hall.
    pose proof (all_null_valid_values chunked_array Hall) as Hnone.
    unfold AltrepVectorPrimitive.Sum. fold chunked_array. simpl.
    clearbody chunked_array. clear alt s.
    destruct sexp_type; simpl in *.
    + unfold sum_int32. simpl. rewrite Hnone. reflexivity.
    + rewrite sum_double_nothing; auto.
  - intros narm. repeat split.
Qed.

Lemma to_int64_small z : INT64_MIN <= z <= INT64_MAX -> to_int64 z = z.
Proof.
  unfold to_int64, wrap, INT64_MIN, INT64_MAX. intros H.
  change (2 ^ (64 - 1)) with 9223372036854775808.
  change (2 ^ 64) with 18446744073709551616.
  rewrite Z.mod_small; lia.
Qed.

(** The 64-bit accumulator holds the exact sum of up to 2^32 values of 32
    bits. *)
Lemma accumulator_exact (l : list Z) :
  Forall (fun v => INT32_MIN <= v <= INT32_MAX) l ->
  forall acc,
    INT64_MIN <= acc - Z.of_nat (List.length l) * 2147483648 ->
    acc + Z.of_nat (List.length l) * 2147483647 <= INT64_MAX ->
    fold_left (fun acc v => to_int64 (acc + v)) l acc = fold_left Z.add l acc.
Proof.
  induction 1 as [|v l Hv Hl IH]; intros acc Hlo Hhi; simpl; [reflexivity|].
  unfold INT32_MIN, INT32_MAX in Hv.
  rewrite to_int64_small.
  - apply IH; cbn [List.length] in *; lia.
  - cbn [List.length] in *. unfold INT64_MIN, INT64_MAX in *. lia.
Qed.

(** An integer of at most 53 bits is a double. *)
Lemma round_to_double_exact v :
  Z.abs v < 2 ^ 53 -> round_to_double v = v.
Proof.
  intros H. unfold round_to_double.
  replace (Z.log2 (Z.abs v) + 1 <=? 53) with true; [reflexivity|].
  symmetry. apply Z.leb_le.
  destruct (Z.eq_dec (Z.abs v) 0) as [E|E].
  - rewrite E. simpl. lia.
  - assert (Z.log2 (Z.abs v) < 53) by (apply Z.log2_lt_pow2; lia). lia.
Qed.

(** C5, as the code has it: for the int32 class [Sum] accumulates in 64
    bits, so for up to 2^32 values the accumulator is the exact sum.  The
    result is an integer exactly when the sum is greater than [INT32_MIN],
    which is R's missing integer, and at most [INT32_MAX]; otherwise it is
    the sum converted to double, never a value wrapped or truncated to 32
    bits, and that double equals the exact sum whenever the sum has at most
    53 bits. *)
Theorem Sum_int32_promotes_to_double {kernels : double_kernels}
  (alt : AltrepVectorPrimitive.Alt INTSXP) (narm : bool) :
  let chunked_array := AltrepVectorPrimitive.GetChunkedArray INTSXP alt in
  let total := exact_sum chunked_array in
  narm = true \/ ChunkedArray_null_count chunked_array = 0 ->
  Forall (fun v => INT32_MIN <= v <= INT32_MAX) (valid_values chunked_array) ->
  Z.of_nat (List.length (valid_values chunked_array)) <= 2 ^ 32 ->
  value (sum_int32 (AltrepVectorPrimitive.NaRmOptions narm) chunked_array)
    = total
  /\ (INT32_MIN < total <= INT32_MAX ->
      AltrepVectorPrimitive.Sum INTSXP alt narm = Rf_ScalarInteger total)
  /\ (total <= INT32_MIN \/ INT32_MAX < total ->
      AltrepVectorPrimitive.Sum INTSXP alt narm
        = Rf_ScalarReal (static_cast_double total)
      /\ (Z.abs total < 2 ^ 53 -> static_cast_double total = finite total 0)).
Proof.
  intros chunked_array total Hnarm Hvalues Hcount.
  assert (Hacc : value (sum_int32 (AltrepVectorPrimitive.NaRmOptions narm)
                          chunked_array) = total).
  { unfold sum_int32, total, exact_sum. simpl.
    change (2 ^ 32) with 4294967296 in Hcount.
    change (c_type INTSXP) with Z in *.
    set (l := valid_values chunked_array) in *. clearbody l.
    apply accumulator_exact; [exact Hvalues| |];
      unfold INT64_MIN, INT64_MAX; lia. }
  assert (Hgate : (negb narm && (0 <? ChunkedArray_null_count chunked_array))
                  = false).
  { destruct Hnarm as [-> | ->]; [reflexivity|]. apply andb_false_r. }
  split; [exact Hacc|].
  unfold AltrepVectorPrimitive.Sum. fold chunked_array. rewrite Hgate.
  cbn [CallFunction_sum]. rewrite Hacc. split.
  - intros Hin.
    replace (total <=? INT32_MIN) with false by (symmetry; apply Z.leb_gt; lia).
    replace (INT32_MAX <? total) with false by (symmetry; apply Z.ltb_ge; lia).
    simpl. rewrite to_int_small by lia. reflexivity.
  - intros Hout. split.
    + destruct Hout as [Hlow | Hhigh].
      * replace (total <=? INT32_MIN) with true
          by (symmetry; apply Z.leb_le; lia).
        reflexivity.
      * replace (INT32_MAX <? total) with true
          by (symmetry; apply Z.ltb_lt; lia).
        now rewrite orb_true_r.
    + intros Hsmall. unfold static_cast_double.
      now rewrite round_to_double_exact.
Qed.

(** C5 fails as stated: the values -2147483647 and -1 sum to -2147483648,
    which the element type represents, and [Sum] returns a double. *)
Lemma Sum_int32_of_INT32_MIN_is_double :
  let chunked_array : ChunkedArray unit Z :=
    [mkArray tt [(true, -2147483647); (true, -1)]] in
  let alt : AltrepVectorPrimitive.Alt INTSXP :=
    AltrepVectorBase.Make chunked_array in
  exact_sum chunked_array = INT32_MIN
  /\ INT32_MIN <= exact_sum chunked_array <= INT32_MAX
  /\ @AltrepVectorPrimitive.Sum example_kernels INTSXP alt true
     = Rf_ScalarReal (finite (-2147483648) 0)
  /\ forall v,
       @AltrepVectorPrimitive.Sum example_kernels INTSXP alt true
       <> Rf_ScalarInteger v.
Proof.
  intros chunked_array alt.
  assert (H : @AltrepVectorPrimitive.Sum example_kernels INTSXP alt true
              = Rf_ScalarReal (finite (-2147483648) 0)) by (vm_compute; reflexivity).
  split; [reflexivity|]. split; [vm_compute; split; discriminate|].
  split; [exact H|]. intros v. rewrite H. discriminate.
Qed.

(** ** The string class *)

Lemma store_firstn {T} (ss : list T) sl c :
  (sl < List.length ss)%nat ->
  firstn (S sl) (store ss sl c) = firstn sl ss ++ [c].
Proof.
  revert sl; induction ss as [|y ss IH]; intros sl H; simpl in H; [lia|].
  destruct sl as [|sl]; simpl; [reflexivity|].
  f_equal. apply IH. lia.
Qed.

Lemma no_nul_filter (p : list ascii) :
  existsb is_nul p = false -> filter (fun c => negb (is_nul c)) p = p.
Proof.
  induction p as [|c p IH]; simpl; [reflexivity|].
  destruct (is_nul c); simpl; [discriminate|]. intros H. now rewrite IH.
Qed.

(** Once the first nul was seen, the loop keeps the characters that are
    not nul at the front of the scratch string. *)
Lemma strip_loop_after view :
  forall old p ss sl nc,
    view = p ++ old ->
    (0 < nc)%nat ->
    List.length ss = List.length view ->
    (sl <= List.length p)%nat ->
    firstn sl ss = filter (fun c => negb (is_nul c)) p ->
    let (ss', sl') :=
      AltrepVectorString.RStringViewer.strip_loop view old (List.length p)
        ss sl nc in
    firstn sl' ss' = filter (fun c => negb (is_nul c)) view.
Proof.
  induction old as [|c old IH]; intros p ss sl nc Hview Hnc Hlen Hsl Hfirst;
    (destruct nc as [|nc]; [lia|]); simpl.
  - rewrite app_nil_r in Hview. now subst p.
  - assert (Hview' : view = (p ++ [c]) ++ old) by now rewrite <- app_assoc.
    assert (Hlp : S (List.length p) = List.length (p ++ [c]))
      by (rewrite length_app; simpl; lia).
    rewrite Hlp.
    destruct (is_nul c) eqn:Ec.
    + apply IH; auto; try lia.
      rewrite filter_app. simpl. rewrite Ec. simpl. now rewrite app_nil_r.
    + assert (Hroom : (sl < List.length ss)%nat).
      { rewrite Hlen, Hview, length_app. simpl. lia. }
      apply IH; auto; try lia.
      * now rewrite store_length.
      * rewrite store_firstn by exact Hroom.
        rewrite filter_app. simpl. rewrite Ec. simpl. now rewrite Hfirst.
Qed.

Lemma strip_loop_before view :
  forall old p ss,
    view = p ++ old ->
    existsb is_nul p = false ->
    existsb is_nul old = true ->
    let (ss', sl') :=
      AltrepVectorString.RStringViewer.strip_loop view old (List.length p)
        ss 0 0 in
    firstn sl' ss' = filter (fun c => negb (is_nul c)) view.
Proof.
  induction old as [|c old IH]; intros p ss Hview Hp Hold; simpl in *;
    [discriminate|].
  assert (Hview' : view = (p ++ [c]) ++ old) by now rewrite <- app_assoc.
  assert (Hlp : S (List.length p) = List.length (p ++ [c]))
    by (rewrite length_app; simpl; lia).
  destruct (is_nul c) eqn:Ec; simpl in *.
  - rewrite Hlp. apply strip_loop_after; auto; try lia.
    rewrite filter_app. simpl. rewrite Ec. simpl.
    rewrite app_nil_r, no_nul_filter by exact Hp.
    rewrite Hview, firstn_app, firstn_all, Nat.sub_diag. simpl.
    now rewrite app_nil_r.
  - rewrite Hlp. apply IH; auto.
    rewrite existsb_app. simpl. now rewrite Hp, Ec.
Qed.

(** [Rf_error] never returns: it ends in the R error or, for a format
    that asks for an argument, in what C leaves undefined; whatever the
    type of the result it stands in for. *)
Lemma Rf_error_fails (format : string) :
  (exists message, forall A, @Rf_error A format = R_error message)
  \/ (forall A, @Rf_error A format = undefined).
Proof.
  unfold Rf_error. destruct (vsnprintf format); eauto.
Qed.

Lemma Error_fails (view : list ascii) :
  (exists message,
      forall A, @AltrepVectorString.RStringViewer.Error A view
                = R_error message)
  \/ (forall A, @AltrepVectorString.RStringViewer.Error A view = undefined).
Proof. apply Rf_error_fails. Qed.

(** What [Convert] does with a position of its array. *)
Lemma Convert_spec (v : AltrepVectorString.RStringViewer.t) array i slot :
  AltrepVectorString.RStringViewer.array_ v = Some array ->
  slot_at array i = Some slot ->
  exists v',
    AltrepVectorString.RStringViewer.Convert v i
    = (if embedded_nul slot
          && negb (AltrepVectorString.RStringViewer.strip_out_nuls_ v)
       then AltrepVectorString.RStringViewer.Error (snd slot)
       else Ok (stripped slot),
       v')
    /\ AltrepVectorString.RStringViewer.array_ v' = Some array
    /\ AltrepVectorString.RStringViewer.strip_out_nuls_ v'
       = AltrepVectorString.RStringViewer.strip_out_nuls_ v
    /\ AltrepVectorString.RStringViewer.nul_was_stripped_ v'
       = AltrepVectorString.RStringViewer.nul_was_stripped_ v
         || (embedded_nul slot
             && AltrepVectorString.RStringViewer.strip_out_nuls_ v).
Proof.
  intros Harr Hslot. unfold AltrepVectorString.RStringViewer.Convert.
  rewrite Harr. unfold IsNull, value_at. rewrite Hslot.
  destruct slot as [bit view]. unfold embedded_nul, stripped. simpl.
  destruct bit; simpl.
  - destruct (existsb is_nul view) eqn:En; simpl.
    + destruct (AltrepVectorString.RStringViewer.strip_out_nuls_ v) eqn:Es;
        simpl.
      * unfold AltrepVectorString.RStringViewer.ConvertStripNul.
        pose proof (strip_loop_before view view []
                      (AltrepVectorString.RStringViewer.stripped_string_ v)
                      eq_refl eq_refl En) as Hloop.
        simpl in Hloop.
        destruct (AltrepVectorString.RStringViewer.strip_loop view view 0
                    (AltrepVectorString.RStringViewer.stripped_string_ v) 0 0)
          as [ss sl].
        rewrite Hloop. eexists. split; [reflexivity|]. simpl.
        rewrite orb_true_r. auto.
      * exists v. rewrite Es, orb_false_r. auto.
    + exists v. rewrite no_nul_filter by exact En.
      rewrite orb_false_r. auto.
  - exists v. rewrite orb_false_r. auto.
Qed.

Lemma render_no_position {D T X} (h : D -> bool * T -> X) k
  (ca : ChunkedArray D T) :
  render (fun _ => h) k ca = render (fun _ => h) 0 ca.
Proof.
  revert k; induction ca as [|c ca IH]; intros k; simpl; [reflexivity|].
  rewrite (IH (S k)), (IH 1%nat). reflexivity.
Qed.

Lemma positions_cons {D T} (c : Array D T) (ca : ChunkedArray D T) :
  positions (c :: ca) = slots c ++ positions ca.
Proof.
  unfold positions. simpl. rewrite map_id.
  now rewrite (render_no_position (fun _ slot => slot) 1).
Qed.

Lemma convert_all_app b (l1 l2 : list (bool * list ascii)) :
  convert_all b (l1 ++ l2)
  = match convert_all b l1 with
    | Ok x =>
        match convert_all b l2 with
        | Ok y => Ok (x ++ y)
        | failed => failed
        end
    | failed => failed
    end.
Proof.
  induction l1 as [|slot l1 IH]; simpl.
  - destruct (convert_all b l2); reflexivity.
  - destruct (embedded_nul slot && negb b);
      [destruct (Error_fails (snd slot)) as [[m Hm] | Hm]; now rewrite Hm|].
    rewrite IH. destruct (convert_all b l1); [|reflexivity|reflexivity].
    destruct (convert_all b l2); reflexivity.
Qed.

Lemma convert_all_length b (l : list (bool * list ascii)) converted :
  convert_all b l = Ok converted ->
  converted = map stripped l
  /\ (b = false -> existsb embedded_nul l = false).
Proof.
  revert converted; induction l as [|slot l IH]; intros converted; simpl.
  - intros H. injection H as <-. auto.
  - destruct (embedded_nul slot && negb b) eqn:E;
      [destruct (Error_fails (snd slot)) as [[m Hm] | Hm]; rewrite Hm;
       discriminate|].
    destruct (convert_all b l) as [x| |]; try discriminate.
    intros H. injection H as <-. destruct (IH x eq_refl) as [-> Hb].
    split; [reflexivity|]. intros ->. rewrite andb_true_r in E.
    rewrite E. simpl. now apply Hb.
Qed.

(** The pass over one chunk. *)
Lemma convert_chunk_spec array b :
  forall sl_todo sl_done v pre old post,
    AltrepVectorString.RStringViewer.array_ v = Some array ->
    AltrepVectorString.RStringViewer.strip_out_nuls_ v = b ->
    slots array = sl_done ++ sl_todo ->
    List.length old = List.length sl_todo ->
    exists v',
      AltrepVectorString.convert_chunk v (List.length sl_todo)
        (Z.of_nat (List.length sl_done)) (List.length pre)
        (pre ++ old ++ post)
      = (match convert_all b sl_todo with
         | Ok converted => Ok (pre ++ converted ++ post)
         | R_error message => R_error message
         | undefined => undefined
         end, v')
      /\ AltrepVectorString.RStringViewer.strip_out_nuls_ v' = b
      /\ (forall converted,
            convert_all b sl_todo = Ok converted ->
            AltrepVectorString.RStringViewer.nul_was_stripped_ v'
            = AltrepVectorString.RStringViewer.nul_was_stripped_ v
              || existsb embedded_nul sl_todo).
Proof.
  induction sl_todo as [|slot sl_todo IH];
    intros sl_done v pre old post Harr Hb Hslots Hlen; simpl.
  - destruct old; [|discriminate]. exists v. simpl.
    rewrite orb_false_r. auto.
  - destruct old as [|y old]; [discriminate|]. simpl in Hlen.
    assert (Hslot : slot_at array (Z.of_nat (List.length sl_done)) = Some slot).
    { unfold slot_at.
      replace (Z.of_nat (List.length sl_done) <? 0) with false
        by (symmetry; apply Z.ltb_ge; lia).
      rewrite Nat2Z.id, Hslots, nth_error_app2, Nat.sub_diag by lia.
      reflexivity. }
    destruct (Convert_spec v array _ slot Harr Hslot)
      as (v1 & HC & Harr1 & Hb1 & Hflag1).
    rewrite HC, Hb.
    destruct (embedded_nul slot && negb b) eqn:E.
    + exists v1. rewrite Hb1. split; [|split; [exact Hb|]].
      * destruct (Error_fails (snd slot)) as [[m Hm] | Hm]; now rewrite !Hm.
      * intros converted.
        destruct (Error_fails (snd slot)) as [[m Hm] | Hm]; rewrite Hm;
          discriminate.
    + simpl. rewrite store_middle.
      destruct (IH (sl_done ++ [slot]) v1 (pre ++ [stripped slot]) old post)
        as (v' & HC' & Hb' & Hflag'); auto; try congruence.
      * now rewrite <- app_assoc.
      * rewrite length_app, Nat.add_1_r, Nat2Z.inj_succ, <- Z.add_1_r in HC'.
        rewrite length_app, Nat.add_1_r, <- app_assoc in HC'. simpl in HC'.
        exists v'. rewrite HC'. split; [|split; [exact Hb'|]].
        -- destruct (convert_all b sl_todo); try reflexivity.
           now rewrite <- app_assoc.
        -- intros converted Hconv.
           destruct (convert_all b sl_todo) as [x| |] eqn:Ex; try discriminate.
           rewrite (Hflag' x eq_refl), Hflag1, Hb.
           destruct (embedded_nul slot), b; simpl in *;
             try discriminate; rewrite ?orb_false_r, ?orb_true_r;
             reflexivity.
Qed.

(** The pass over all chunks. *)
Lemma convert_chunks_spec b :
  forall (chunks : ChunkedArray unit (list ascii)) v pre old post,
    AltrepVectorString.RStringViewer.strip_out_nuls_ v = b ->
    List.length old = List.length (positions chunks) ->
    exists v',
      AltrepVectorString.convert_chunks v chunks (List.length pre)
        (pre ++ old ++ post)
      = (match convert_all b (positions chunks) with
         | Ok converted => Ok (pre ++ converted ++ post)
         | R_error message => R_error message
         | undefined => undefined
         end, v')
      /\ AltrepVectorString.RStringViewer.strip_out_nuls_ v' = b
      /\ (forall converted,
            convert_all b (positions chunks) = Ok converted ->
            AltrepVectorString.RStringViewer.nul_was_stripped_ v'
            = AltrepVectorString.RStringViewer.nul_was_stripped_ v
              || existsb embedded_nul (positions chunks)).
Proof.
  unfold ChunkedArray.
  induction chunks as [|c chunks IH]; intros v pre old post Hb Hlen.
  - simpl in *. destruct old; [|discriminate]. exists v. simpl.
    rewrite orb_false_r. auto.
  - rewrite positions_cons in Hlen |- *. rewrite length_app in Hlen.
    cbn [AltrepVectorString.convert_chunks].
    set (v0 := AltrepVectorString.RStringViewer.SetArray v c).
    rewrite <- (firstn_skipn (List.length (slots c)) old), <- app_assoc.
    destruct (convert_chunk_spec c b (slots c) [] v0 pre
                (firstn (List.length (slots c)) old)
                (skipn (List.length (slots c)) old ++ post))
      as (v1 & HC & Hb1 & Hflag1); auto.
    { rewrite firstn_length_le; lia. }
    simpl in HC. rewrite HC, convert_all_app.
    destruct (convert_all b (slots c)) as [x| |] eqn:Ex.
    + destruct (convert_all_length b _ x Ex) as [Hx _].
      destruct (IH v1 (pre ++ x) (skipn (List.length (slots c)) old) post)
        as (v' & HC' & Hb' & Hflag'); auto.
      { rewrite length_skipn. lia. }
      assert (Hlx : List.length x = List.length (slots c))
        by (rewrite Hx; apply length_map).
      rewrite length_app, Hlx, <- !app_assoc in HC'.
      exists v'. rewrite HC'. split; [|split; [exact Hb'|]].
      * destruct (convert_all b (positions chunks)); try reflexivity.
        now rewrite <- !app_assoc.
      * intros converted Hconv.
        destruct (convert_all b (positions chunks)) as [y| |] eqn:Ey;
          try discriminate.
        rewrite (Hflag' y eq_refl), (Hflag1 x eq_refl), existsb_app.
        unfold v0. simpl. now rewrite orb_assoc.
    + exists v1. repeat split; auto. discriminate.
    + exists v1. repeat split; auto. discriminate.
Qed.

(** The position the resolver finds is the one at index [i] of the whole
    sequence. *)
Lemma ArrayResolve_loop_positions {D T} (ca : ChunkedArray D T) :
  forall idx_chunk i slot,
    match array_ (ArrayResolve_loop ca idx_chunk i) with
    | Some array => slot_at array (index_ (ArrayResolve_loop ca idx_chunk i))
    | None => None
    end = Some slot ->
    0 <= i /\ nth_error (positions ca) (Z.to_nat i) = Some slot.
Proof.
  induction ca as [|c ca IH]; intros idx_chunk i slot; simpl; [discriminate|].
  rewrite positions_cons.
  destruct (i <? length c) eqn:E; simpl.
  - apply Z.ltb_lt in E. unfold slot_at.
    destruct (i <? 0) eqn:E0; [discriminate|]. apply Z.ltb_ge in E0.
    intros H. split; [exact E0|].
    rewrite nth_error_app1; [exact H|]. unfold length in E. lia.
  - apply Z.ltb_ge in E. intros H.
    destruct (IH _ _ _ H) as [H0 Hn].
    assert (0 <= length c) by (unfold length; lia).
    split; [lia|].
    rewrite nth_error_app2 by (unfold length in *; lia).
    replace (Z.to_nat i - List.length (slots c))%nat
      with (Z.to_nat (i - length c)) by (unfold length; lia).
    exact Hn.
Qed.

Lemma element_positions {D T} (ca : ChunkedArray D T) i slot :
  element ca i = Some slot ->
  0 <= i /\ nth_error (positions ca) (Z.to_nat i) = Some slot.
Proof. apply ArrayResolve_loop_positions. Qed.

(** A single read before materialization: the conversion of the position,
    one warning when a nul was stripped, an error when a nul is there and
    is not to be stripped. *)
Lemma string_Elt_unmaterialized b (s : session AltrepVectorString.Alt) i slot :
  AltrepVectorString.Representation (object s) = None ->
  element (R_altrep_data1 (object s)) i = Some slot ->
  AltrepVectorString.Elt b s i
  = if embedded_nul slot && negb b
    then (AltrepVectorString.RStringViewer.Error (snd slot), s)
    else (Ok (stripped slot),
          if embedded_nul slot
          then AltrepVectorString.warn s AltrepVectorString.warning_stripped
          else s).
Proof.
  intros Hrep Hel. unfold AltrepVectorString.Elt. rewrite Hrep.
  unfold element in Hel.
  change (AltrepVectorString.GetChunkedArray (object s))
    with (R_altrep_data1 (object s)).
  destruct (array_ (ArrayResolve_new (R_altrep_data1 (object s)) i))
    as [array|]; [|discriminate].
  destruct (Convert_spec
              (AltrepVectorString.RStringViewer.SetArray
                 (AltrepVectorString.RStringViewer.new b) array)
              array _ slot eq_refl Hel)
    as (v' & HC & _ & _ & Hflag).
  rewrite HC. simpl in *.
  unfold AltrepVectorString.RStringViewer.nul_was_stripped. rewrite Hflag.
  destruct (embedded_nul slot), b; try reflexivity.
  cbv beta iota delta [andb negb].
  destruct (Error_fails (snd slot)) as [[m Hm] | Hm]; now rewrite !Hm.
Qed.

(** The first materialization of a string vector: all conversions or the
    first error; the cache is set only in the first case. *)
Lemma string_Materialize_first b (s : session AltrepVectorString.Alt) :
  AltrepVectorString.Representation (object s) = None ->
  AltrepVectorString.Materialize b s
  = match convert_all b (positions (R_altrep_data1 (object s))) with
    | Ok converted =>
        (Ok (Some (mkVector (allocated s) converted)),
         mkSession
           (AltrepVectorString.SetRepresentation (object s)
              (mkVector (allocated s) converted))
           (S (allocated s))
           (warnings s
            ++ if existsb embedded_nul (positions (R_altrep_data1 (object s)))
               then [AltrepVectorString.warning_stripped] else []))
    | R_error message =>
        (R_error message,
         mkSession (object s) (S (allocated s)) (warnings s))
    | undefined =>
        (undefined, mkSession (object s) (S (allocated s)) (warnings s))
    end.
Proof.
  intros Hrep. unfold AltrepVectorString.Materialize. rewrite Hrep.
  change (AltrepVectorString.GetChunkedArray (object s))
    with (R_altrep_data1 (object s)).
  set (ca := R_altrep_data1 (object s)).
  set (blank := repeat (Rf_mkCharLenCE []) (Z.to_nat (ChunkedArray_length ca))).
  destruct (convert_chunks_spec b ca (AltrepVectorString.RStringViewer.new b)
              [] blank [])
    as (v' & HC & _ & Hflag); [reflexivity| |].
  { subst blank. rewrite repeat_length.
    pose proof (render_length (fun _ _ (slot : bool * list ascii) => slot) 0 ca).
    fold (positions ca) in H. same_types. lia. }
  simpl in HC. rewrite app_nil_r in HC.
  unfold Rf_allocVector. simpl. fold blank. rewrite HC.
  destruct (convert_all b (positions ca)) as [converted| |]; try reflexivity.
  rewrite app_nil_r.
  unfold AltrepVectorString.RStringViewer.nul_was_stripped.
  rewrite (Hflag converted eq_refl). simpl.
  destruct (existsb embedded_nul (positions ca)); simpl.
  - reflexivity.
  - now rewrite app_nil_r.
Qed.

Lemma string_Materialize_again b (s : session AltrepVectorString.Alt) data2 :
  AltrepVectorString.Representation (object s) = Some data2 ->
  AltrepVectorString.Materialize b s = (Ok (Some data2), s).
Proof.
  intros Hrep. unfold AltrepVectorString.Materialize. now rewrite Hrep.
Qed.

(** ** The cache slot *)

Lemma call_primitive_keeps_cache sexp_type
  (s : session (AltrepVectorPrimitive.Alt sexp_type)) m old :
  AltrepVectorPrimitive.Representation sexp_type (object s) = Some old ->
  object (call_primitive sexp_type m s) = object s.
Proof.
  intros Hrep.
  destruct (call_primitive_object sexp_type m s) as [H | H]; [exact H|].
  rewrite H, (primitive_Materialize_again sexp_type s old Hrep). reflexivity.
Qed.

Lemma call_factor_keeps_cache (s : session AltrepFactor.Alt) m old :
  AltrepFactor.Representation (object s) = Some old ->
  object (call_factor m s) = object s.
Proof.
  intros Hrep.
  destruct (call_factor_object m s) as [H | H]; [exact H|].
  rewrite H, (factor_Materialize_again s old Hrep). reflexivity.
Qed.

Lemma call_string_keeps_cache b (s : session AltrepVectorString.Alt) m old :
  AltrepVectorString.Representation (object s) = Some old ->
  object (call_string b m s) = object s.
Proof.
  intros Hrep.
  pose proof (string_Materialize_again b s old Hrep) as HM.
  destruct m; simpl; auto;
    unfold AltrepVectorString.Duplicate, AltrepVectorString.Coerce,
      AltrepVectorString.Serialized_state, AltrepVectorString.Dataptr,
      AltrepVectorString.Elt,
      AltrepVectorBase.Duplicate, AltrepVectorBase.Coerce,
      AltrepVectorBase.Serialized_state;
    rewrite ?HM, ?Hrep; simpl; auto.
  destruct (read (DATAPTR old) i); reflexivity.
Qed.

(** C2: [Materialize] is idempotent and assigns the cache once.  On a
    vector that is not materialized the first call allocates exactly one
    vector and stores it in the cache slot; a call on a materialized
    vector returns the cached vector itself, at the same address with the
    same payload, and leaves the session as it is, so nothing is computed
    or copied again; and no method R can call clears or replaces a cache
    that is set.  In turn for the primitive class, the factor class and
    the string class, whose materialization can fail. *)
Theorem Materialize_assigns_the_cache_once :
  (forall sexp_type (s : session (AltrepVectorPrimitive.Alt sexp_type)),
      exists data2 s1,
        AltrepVectorPrimitive.Materialize sexp_type s = (Ok (Some data2), s1)
        /\ AltrepVectorPrimitive.Representation sexp_type (object s1)
           = Some data2
        /\ AltrepVectorPrimitive.Materialize sexp_type s1
           = (Ok (Some data2), s1)
        /\ (AltrepVectorPrimitive.Representation sexp_type (object s) = None ->
            address data2 = allocated s /\ allocated s1 = S (allocated s))
        /\ (forall old,
              AltrepVectorPrimitive.Representation sexp_type (object s)
                = Some old ->
              data2 = old /\ s1 = s))
  /\ (forall sexp_type (s : session (AltrepVectorPrimitive.Alt sexp_type)) m old,
        AltrepVectorPrimitive.Representation sexp_type (object s) = Some old ->
        AltrepVectorPrimitive.Representation sexp_type
          (object (call_primitive sexp_type m s)) = Some old)
  /\ (forall s : session AltrepFactor.Alt,
        reachable_factor s ->
        exists data2 s1,
          AltrepFactor.Materialize s = (Ok (Some data2), s1)
          /\ AltrepFactor.Representation (object s1) = Some data2
          /\ AltrepFactor.Materialize s1 = (Ok (Some data2), s1)
          /\ (AltrepFactor.Representation (object s) = None ->
              address data2 = allocated s /\ allocated s1 = S (allocated s))
          /\ (forall old,
                AltrepFactor.Representation (object s) = Some old ->
                data2 = old /\ s1 = s))
  /\ (forall (s : session AltrepFactor.Alt) m old,
        AltrepFactor.Representation (object s) = Some old ->
        AltrepFactor.Representation (object (call_factor m s)) = Some old)
  /\ (forall b (s : session AltrepVectorString.Alt) x s1,
        AltrepVectorString.Materialize b s = (Ok x, s1) ->
        exists data2,
          x = Some data2
          /\ AltrepVectorString.Representation (object s1) = Some data2
          /\ (forall b',
                AltrepVectorString.Materialize b' s1 = (Ok (Some data2), s1))
          /\ (AltrepVectorString.Representation (object s) = None ->
              address data2 = allocated s /\ allocated s1 = S (allocated s))
          /\ (forall old,
                AltrepVectorString.Representation (object s) = Some old ->
                data2 = old /\ s1 = s))
  /\ (forall b (s : session AltrepVectorString.Alt) m old,
        AltrepVectorString.Representation (object s) = Some old ->
        AltrepVectorString.Representation (object (call_string b m s))
        = Some old).
Proof.
  split; [|split; [|split; [|split; [|split]]]].
  - intros sexp_type s.
    destruct (primitive_Materialize_cases sexp_type s)
      as (data2 & s1 & HM & Hrep & _ & Hold & Hnew).
    exists data2, s1. split; [exact HM|]. split; [exact Hrep|].
    split; [now apply primitive_Materialize_again|].
    split; [|exact Hold].
    intros Hnone. specialize (Hnew Hnone). injection Hnew as -> ->.
    split; reflexivity.
  - intros sexp_type s m old Hrep.
    now rewrite (call_primitive_keeps_cache sexp_type s m old Hrep).
  - intros s Hs. destruct (reachable_factor_inv s Hs) as [Hvalid _].
    destruct (factor_Materialize_cases s Hvalid)
      as (data2 & s1 & HM & Hrep & _ & _ & _ & _ & Hold & Hnew).
    exists data2, s1. split; [exact HM|]. split; [exact Hrep|].
    split; [now apply factor_Materialize_again|].
    split; [|exact Hold].
    intros Hnone. specialize (Hnew Hnone). injection Hnew as -> ->.
    split; reflexivity.
  - intros s m old Hrep. now rewrite (call_factor_keeps_cache s m old Hrep).
  - intros b s x s1 HM.
    destruct (AltrepVectorString.Representation (object s)) as [old|] eqn:Hrep.
    + rewrite (string_Materialize_again b s old Hrep) in HM.
      injection HM as <- <-. exists old. split; [reflexivity|].
      split; [exact Hrep|].
      split; [intros b'; now apply string_Materialize_again|].
      split; [discriminate|]. intros o Ho. injection Ho as <-. auto.
    + rewrite (string_Materialize_first b s Hrep) in HM.
      destruct (convert_all b (positions (R_altrep_data1 (object s))))
        as [converted| |]; try discriminate.
      injection HM as <- <-. eexists. split; [reflexivity|].
      split; [reflexivity|].
      split; [intros b'; now apply string_Materialize_again|].
      split; [intros _; split; reflexivity|discriminate].
  - intros b s m old Hrep. now rewrite (call_string_keeps_cache b s m old Hrep).
Qed.

(** ** Embedded nuls *)

Lemma list_ascii_of_string_append (a b : string) :
  list_ascii_of_string (String.append a b)
  = list_ascii_of_string a ++ list_ascii_of_string b.
Proof. induction a as [|c a IH]; simpl; [reflexivity|now rewrite IH]. Qed.


Lemma escape_nuls_no_nul (view : list ascii) :
  existsb is_nul
    (list_ascii_of_string (AltrepVectorString.RStringViewer.escape_nuls view))
  = false.
Proof.
  induction view as [|c view IH]; simpl; [reflexivity|].
  destruct (is_nul c) eqn:E; simpl; [exact IH|]. now rewrite E, IH.
Qed.

Lemma is_percent_not_nul (c : ascii) : is_percent c = true -> is_nul c = false.
Proof.
  unfold is_percent, is_nul. intros H. apply Ascii.eqb_eq in H. now subst.
Qed.

Lemma escape_nuls_percent (view : list ascii) :
  existsb is_percent
    (list_ascii_of_string (AltrepVectorString.RStringViewer.escape_nuls view))
  = existsb is_percent view.
Proof.
  induction view as [|c view IH]; simpl; [reflexivity|].
  destruct (is_nul c) eqn:E; simpl; rewrite IH; [|reflexivity].
  destruct (is_percent c) eqn:Ep; [|reflexivity].
  apply is_percent_not_nul in Ep. congruence.
Qed.

Lemma Error_text_no_nul (view : list ascii) :
  existsb is_nul
    (list_ascii_of_string (AltrepVectorString.RStringViewer.Error_text view))
  = false.
Proof.
  unfold AltrepVectorString.RStringViewer.Error_text.
  rewrite !list_ascii_of_string_append, !existsb_app, escape_nuls_no_nul.
  reflexivity.
Qed.

Lemma Error_text_percent (view : list ascii) :
  existsb is_percent
    (list_ascii_of_string (AltrepVectorString.RStringViewer.Error_text view))
  = existsb is_percent view.
Proof.
  unfold AltrepVectorString.RStringViewer.Error_text.
  rewrite !list_ascii_of_string_append, !existsb_app, escape_nuls_percent.
  cbn. now rewrite orb_false_r.
Qed.

Lemma c_str_no_nul (text : string) :
  existsb is_nul (list_ascii_of_string text) = false -> c_str text = text.
Proof.
  induction text as [|c text IH]; simpl; [reflexivity|].
  destruct (is_nul c); simpl; [discriminate|]. intros H. now rewrite IH.
Qed.

(** A format with no percent sign prints as it is. *)
Lemma vsnprintf_plain (format : string) :
  existsb is_percent (list_ascii_of_string format) = false ->
  vsnprintf format = Some format.
Proof.
  induction format as [|c format IH]; [reflexivity|].
  cbn [list_ascii_of_string existsb vsnprintf].
  destruct (is_percent c); simpl; [discriminate|].
  intros H. now rewrite (IH H).
Qed.




Lemma Error_not_Ok {A} (view : list ascii) (x : A) :
  AltrepVectorString.RStringViewer.Error view <> Ok x.
Proof.
  destruct (Error_fails view) as [[m Hm] | Hm]; rewrite Hm; discriminate.
Qed.


(** On a view with no percent sign [Error] raises an R error. *)
Lemma Error_raises {A} (view : list ascii) :
  existsb is_percent view = false ->
  exists message,
    @AltrepVectorString.RStringViewer.Error A view = R_error message.
Proof.
  intros Hp. unfold AltrepVectorString.RStringViewer.Error, Rf_error.
  rewrite (c_str_no_nul _ (Error_text_no_nul view)).
  rewrite vsnprintf_plain by (now rewrite Error_text_percent). eauto.
Qed.



Lemma convert_all_stripping (l : list (bool * list ascii)) :
  convert_all true l = Ok (map stripped l).
Proof.
  induction l as [|slot l IH]; simpl; [reflexivity|].
  rewrite andb_false_r, IH. reflexivity.
Qed.

(** Positions without a nul convert whatever the option says. *)
Lemma convert_all_no_nul b (l : list (bool * list ascii)) :
  existsb embedded_nul l = false -> convert_all b l = Ok (map stripped l).
Proof.
  induction l as [|slot l IH]; simpl; [reflexivity|].
  intros H. apply orb_false_elim in H as [H1 H2].
  rewrite H1, (IH H2). reflexivity.
Qed.

(** With the option off the pass ends at the first position with a nul,
    in the error of that position. *)
Lemma convert_all_first (pre post : list (bool * list ascii)) slot :
  existsb embedded_nul pre = false ->
  embedded_nul slot = true ->
  convert_all false (pre ++ slot :: post)
  = AltrepVectorString.RStringViewer.Error (snd slot).
Proof.
  intros Hpre Hslot. rewrite convert_all_app, (convert_all_no_nul _ _ Hpre).
  cbn [convert_all]. rewrite Hslot. cbn [andb negb].
  destruct (Error_fails (snd slot)) as [[m Hm] | Hm]; now rewrite !Hm.
Qed.

Lemma existsb_first {T} (f : T -> bool) (l : list T) :
  existsb f l = true ->
  exists pre x post,
    l = pre ++ x :: post /\ existsb f pre = false /\ f x = true.
Proof.
  induction l as [|y l IH]; simpl; [discriminate|].
  destruct (f y) eqn:E.
  - intros _. exists [], y, l. auto.
  - intros H. destruct (IH H) as (pre & x & post & -> & Hpre & Hx).
    exists (y :: pre), x, post. simpl. rewrite E. auto.
Qed.

(** With the option off a pass over positions one of which holds a nul
    never gives a vector. *)
Lemma convert_all_fails (l : list (bool * list ascii)) converted :
  existsb embedded_nul l = true ->
  convert_all false l <> Ok converted.
Proof.
  intros H E. destruct (convert_all_length false l converted E) as [_ Hno].
  rewrite (Hno eq_refl) in H. discriminate.
Qed.

(** It ends in an R error when the first position with a nul holds no
    percent sign. *)
Lemma convert_all_raises (pre post : list (bool * list ascii)) slot :
  existsb embedded_nul pre = false ->
  embedded_nul slot = true ->
  existsb is_percent (snd slot) = false ->
  exists message, convert_all false (pre ++ slot :: post) = R_error message.
Proof.
  intros Hpre Hslot Hp. rewrite (convert_all_first _ _ _ Hpre Hslot).
  now apply Error_raises.
Qed.

(** The pass is undefined only with the option off, on a string with a
    nul and a percent sign. *)
Lemma convert_all_undefined b (l : list (bool * list ascii)) :
  convert_all b l = undefined ->
  b = false
  /\ existsb (fun slot => embedded_nul slot && existsb is_percent (snd slot)) l
     = true.
Proof.
  intros H. destruct b; [now rewrite convert_all_stripping in H|].
  split; [reflexivity|].
  destruct (existsb embedded_nul l) eqn:Hany;
    [|now rewrite (convert_all_no_nul _ _ Hany) in H].
  destruct (existsb_first _ _ Hany) as (pre & slot & post & -> & Hpre & Hslot).
  rewrite (convert_all_first _ _ _ Hpre Hslot) in H.
  destruct (existsb is_percent (snd slot)) eqn:Hp.
  - rewrite existsb_app. cbn [existsb]. rewrite Hslot, Hp.
    cbn [andb orb]. apply orb_true_r.
  - destruct (@Error_raises (list CHARSXP) (snd slot) Hp) as [message Hm].
    rewrite Hm in H. discriminate.
Qed.

Lemma existsb_In {T} (f : T -> bool) l x :
  In x l -> f x = true -> existsb f l = true.
Proof. intros Hin Hf. apply existsb_exists. eauto. Qed.

Lemma element_in_range {D T} (ca : ChunkedArray D T) i :
  0 <= i < ChunkedArray_length ca ->
  element ca i = nth_error (positions ca) (Z.to_nat i)
  /\ exists slot, element ca i = Some slot.
Proof.
  intros Hi.
  destruct (ArrayResolve_loop_spec (fun _ _ (slot : bool * T) => slot)
              ca 0 0 i Hi) as (k & c & j & H1 & _ & Hj & H4).
  assert (Hel : element ca i = slot_at c j).
  { unfold element, ArrayResolve_new. now rewrite H1. }
  assert (Hs : exists slot, slot_at c j = Some slot).
  { unfold slot_at.
    replace (j <? 0) with false by (symmetry; apply Z.ltb_ge; lia).
    destruct (nth_error (slots c) (Z.to_nat j)) eqn:E; [eauto|].
    apply nth_error_None in E. unfold length in Hj. lia. }
  destruct Hs as [slot Hs]. rewrite Hel, Hs. split; [|eauto].
  unfold positions. rewrite H4, Hs. reflexivity.
Qed.

(** The string class materializes when nuls are stripped or no position
    holds one, and only then. *)
Lemma string_Materialize_succeeds b (s : session AltrepVectorString.Alt) :
  AltrepVectorString.Representation (object s) = None ->
  (exists x s', AltrepVectorString.Materialize b s = (Ok x, s'))
  <-> (b = true
       \/ existsb embedded_nul (positions (R_altrep_data1 (object s)))
          = false).
Proof.
  intros Hrep. rewrite (string_Materialize_first b s Hrep). split.
  - intros (x & s' & HM).
    destruct (convert_all b (positions (R_altrep_data1 (object s))))
      as [converted| |] eqn:E; try discriminate.
    destruct (convert_all_length b _ converted E) as [_ Hno].
    destruct b; [now left|right; now apply Hno].
  - intros Hok.
    assert (E : convert_all b (positions (R_altrep_data1 (object s)))
                = Ok (map stripped (positions (R_altrep_data1 (object s))))).
    { destruct Hok as [-> | Hno];
        [apply convert_all_stripping|now apply convert_all_no_nul]. }
    rewrite E. eauto.
Qed.

(** Then a single read before the materialization returns what the cache
    holds at the index. *)
Lemma string_Elt_Materialize b (s : session AltrepVectorString.Alt) i :
  AltrepVectorString.Representation (object s) = None ->
  0 <= i < AltrepVectorString.Length (object s) ->
  b = true
  \/ existsb embedded_nul (positions (R_altrep_data1 (object s))) = false ->
  exists v data2 s',
    fst (AltrepVectorString.Elt b s i) = Ok v
    /\ AltrepVectorString.Materialize b s = (Ok (Some data2), s')
    /\ AltrepVectorString.Representation (object s') = Some data2
    /\ read (DATAPTR data2) i = Some v
    /\ AltrepVectorString.Elt b s' i = (Ok v, s').
Proof.
  intros Hrep Hi Hok.
  assert (E : convert_all b (positions (R_altrep_data1 (object s)))
              = Ok (map stripped (positions (R_altrep_data1 (object s))))).
  { destruct Hok as [-> | Hno];
      [apply convert_all_stripping|now apply convert_all_no_nul]. }
  destruct (element_in_range (R_altrep_data1 (object s)) i Hi)
    as [Hel [slot Hslot]].
  rewrite Hslot in Hel. symmetry in Hel.
  assert (Hgate : embedded_nul slot && negb b = false).
  { destruct Hok as [-> | Hno]; [apply andb_false_r|].
    destruct (embedded_nul slot) eqn:Eslot; [|reflexivity].
    rewrite (existsb_In embedded_nul _ slot (nth_error_In _ _ Hel) Eslot)
      in Hno.
    discriminate. }
  assert (Hread : read (map stripped (positions (R_altrep_data1 (object s)))) i
                  = Some (stripped slot)).
  { rewrite read_nth_error by lia. now rewrite nth_error_map, Hel. }
  exists (stripped slot).
  rewrite (string_Materialize_first b s Hrep), E.
  eexists. eexists.
  rewrite (string_Elt_unmaterialized b s i slot Hrep Hslot), Hgate.
  split; [reflexivity|]. split; [reflexivity|]. split; [reflexivity|].
  split; [exact Hread|].
  unfold AltrepVectorString.Elt. simpl. now rewrite Hread.
Qed.

(** C1: for every supported chunked array and every in-range index [i],
    the value [Elt] returns before materialization is element [i] of the
    representation [Materialize] builds and stores; after materialization
    [Elt] still returns it.  First the primitive class at either element
    type, then the factor class, then the string class: it materializes
    when arrow.skip_nul is on or no position holds a nul, whether the
    option is on or off, and in no other case. *)
Theorem Elt_before_is_Materialize_after :
  (forall sexp_type (s : session (AltrepVectorPrimitive.Alt sexp_type)) i,
      AltrepVectorPrimitive.Representation sexp_type (object s) = None ->
      0 <= i < AltrepVectorPrimitive.Length sexp_type (object s) ->
      exists v data2 s',
        AltrepVectorPrimitive.Elt sexp_type (object s) i = Some v
        /\ AltrepVectorPrimitive.Materialize sexp_type s = (Ok (Some data2), s')
        /\ AltrepVectorPrimitive.Representation sexp_type (object s')
           = Some data2
        /\ read (DATAPTR data2) i = Some v
        /\ AltrepVectorPrimitive.Elt sexp_type (object s') i = Some v)
  /\ (forall (s : session AltrepFactor.Alt) i,
        reachable_factor s ->
        AltrepFactor.Representation (object s) = None ->
        0 <= i < AltrepFactor.Length (object s) ->
        exists v data2 s',
          AltrepFactor.Elt (object s) i = Some v
          /\ AltrepFactor.Materialize s = (Ok (Some data2), s')
          /\ AltrepFactor.Representation (object s') = Some data2
          /\ read (DATAPTR data2) i = Some v
          /\ AltrepFactor.Elt (object s') i = Some v)
  /\ (forall b (s : session AltrepVectorString.Alt) i,
        AltrepVectorString.Representation (object s) = None ->
        0 <= i < AltrepVectorString.Length (object s) ->
        b = true
        \/ existsb embedded_nul (positions (R_altrep_data1 (object s)))
           = false ->
        exists v data2 s',
          fst (AltrepVectorString.Elt b s i) = Ok v
          /\ AltrepVectorString.Materialize b s = (Ok (Some data2), s')
          /\ AltrepVectorString.Representation (object s') = Some data2
          /\ read (DATAPTR data2) i = Some v
          /\ AltrepVectorString.Elt b s' i = (Ok v, s'))
  /\ (forall b (s : session AltrepVectorString.Alt) x s',
        AltrepVectorString.Representation (object s) = None ->
        AltrepVectorString.Materialize b s = (Ok x, s') ->
        b = true
        \/ existsb embedded_nul (positions (R_altrep_data1 (object s)))
           = false).
Proof.
  split; [|split; [|split]].
  - intros sexp_type s i Hrep Hi.
    destruct (primitive_Elt_values sexp_type (object s) i Hi) as [Heq [v Hv]].
    exists v, (fst (primitive_materialized sexp_type s)),
           (snd (primitive_materialized sexp_type s)).
    split; [exact Hv|]. split; [now apply primitive_Materialize_first|].
    split; [reflexivity|]. split.
    + simpl. rewrite read_nth_error by lia. now rewrite <- Heq.
    + exact Hv.
  - intros s i Hs Hrep Hi.
    destruct (reachable_factor_inv s Hs) as [Hvalid _].
    destruct (factor_Elt_any (object s) i Hvalid Hi) as [Heq [v Hv]].
    exists v, (fst (factor_materialized s)), (snd (factor_materialized s)).
    split; [exact Hv|].
    split; [apply factor_Materialize_first; [exact Hrep|apply Hvalid]|].
    split; [reflexivity|].
    assert (Hread : read (DATAPTR (fst (factor_materialized s))) i = Some v)
      by (simpl; now rewrite <- Heq).
    split; [exact Hread|]. exact Hread.
  - intros b s i. apply string_Elt_Materialize.
  - intros b s x s' Hrep HM.
    apply (string_Materialize_succeeds b s Hrep). eauto.
Qed.


(** C9: string materialization is all or nothing.  A pass that fails on
    some element leaves the object as it was, with its cache slot empty,
    and a later request starts again from scratch and comes to what it
    would have come to without the failed attempt; a pass that succeeds
    caches the conversion of every position.  When an element holds a nul
    that is not to be stripped the pass returns no vector and sets no
    cache, and it ends in an R error when no string holds a percent sign.
    A single read never writes the cache. *)
Theorem string_Materialize_is_all_or_nothing
  (b : bool) (s : session AltrepVectorString.Alt) :
  (forall message s',
      AltrepVectorString.Materialize b s = (R_error message, s') ->
      object s' = object s
      /\ AltrepVectorString.Representation (object s') = None
      /\ warnings s' = warnings s
      /\ forall b',
           payload (fst (AltrepVectorString.Materialize b' s'))
           = payload (fst (AltrepVectorString.Materialize b' s)))
  /\ (forall data2 s',
        AltrepVectorString.Representation (object s) = None ->
        AltrepVectorString.Materialize b s = (Ok (Some data2), s') ->
        AltrepVectorString.Representation (object s') = Some data2
        /\ DATAPTR data2 = map stripped (positions (R_altrep_data1 (object s)))
        /\ Z.of_nat (List.length (DATAPTR data2))
           = AltrepVectorString.Length (object s))
  /\ (AltrepVectorString.Representation (object s) = None ->
      b = false ->
      existsb embedded_nul (positions (R_altrep_data1 (object s))) = true ->
      (forall x, fst (AltrepVectorString.Materialize b s) <> Ok x)
      /\ object (snd (AltrepVectorString.Materialize b s)) = object s
      /\ (existsb (fun slot => existsb is_percent (snd slot))
            (positions (R_altrep_data1 (object s))) = false ->
          exists message s',
            AltrepVectorString.Materialize b s = (R_error message, s')))
  /\ (forall i, object (snd (AltrepVectorString.Elt b s i)) = object s).
Proof.
  split; [|split; [|split]].
  - intros message s' HM.
    destruct (AltrepVectorString.Representation (object s)) as [old|] eqn:Hrep.
    { rewrite (string_Materialize_again b s old Hrep) in HM. discriminate. }
    rewrite (string_Materialize_first b s Hrep) in HM.
    destruct (convert_all b (positions (R_altrep_data1 (object s))))
      as [converted| |]; try discriminate.
    injection HM as <- <-. simpl.
    split; [reflexivity|]. split; [exact Hrep|]. split; [reflexivity|].
    intros b'.
    rewrite (string_Materialize_first b' s Hrep).
    rewrite (string_Materialize_first b' (mkSession (object s) _ _) Hrep).
    simpl.
    destruct (convert_all b' (positions (R_altrep_data1 (object s))));
      reflexivity.
  - intros data2 s' Hrep HM.
    rewrite (string_Materialize_first b s Hrep) in HM.
    destruct (convert_all b (positions (R_altrep_data1 (object s))))
      as [converted| |] eqn:E; try discriminate.
    injection HM as <- <-. simpl.
    destruct (convert_all_length b _ converted E) as [-> _].
    split; [reflexivity|]. split; [reflexivity|].
    rewrite length_map. apply render_length.
  - intros Hrep -> Hany.
    rewrite (string_Materialize_first false s Hrep).
    split; [|split].
    + intros x.
      destruct (convert_all false (positions (R_altrep_data1 (object s))))
        as [converted| |] eqn:E; try discriminate.
      now apply convert_all_fails in E.
    + destruct (convert_all false (positions (R_altrep_data1 (object s))))
        as [converted| |] eqn:E; try reflexivity.
      now apply convert_all_fails in E.
    + intros Hp.
      destruct (existsb_first _ _ Hany) as (pre & slot & post & Hsplit & Hpre & Hslot).
      rewrite Hsplit in *.
      rewrite existsb_app in Hp. apply orb_false_elim in Hp as [_ Hp].
      simpl in Hp. apply orb_false_elim in Hp as [Hp _].
      destruct (convert_all_raises pre post slot Hpre Hslot Hp) as [message ->].
      eauto.
  - intros i. unfold AltrepVectorString.Elt.
    destruct (AltrepVectorString.Representation (object s)) as [data2|].
    + destruct (read (DATAPTR data2) i); reflexivity.
    + destruct (array_ _) as [array|]; [|reflexivity].
      destruct (AltrepVectorString.RStringViewer.Convert _ _) as [[x| |] v];
        try reflexivity.
      destruct (AltrepVectorString.RStringViewer.nul_was_stripped v);
        reflexivity.
Qed.

(** ** Dictionary unification *)

Lemma index_of_Some s memo k :
  DictionaryUnifier.index_of s memo = Some k -> nth_error memo k = Some s.
Proof.
  revert k; induction memo as [|x memo IH]; intros k; simpl; [discriminate|].
  destruct (String.eqb x s) eqn:E.
  - intros H. injection H as <-. apply String.eqb_eq in E. now subst.
  - destruct (DictionaryUnifier.index_of s memo) as [k'|]; [|discriminate].
    intros H. injection H as <-. simpl. now apply IH.
Qed.

Lemma index_of_None s memo :
  DictionaryUnifier.index_of s memo = None -> ~ In s memo.
Proof.
  induction memo as [|x memo IH]; simpl; [tauto|].
  destruct (String.eqb x s) eqn:E; [discriminate|].
  apply String.eqb_neq in E.
  destruct (DictionaryUnifier.index_of s memo); [discriminate|].
  intros _ [H | H]; [contradiction|]. now apply IH.
Qed.

Lemma GetOrInsert_spec memo s :
  let (memo', k) := DictionaryUnifier.GetOrInsert memo s in
  (exists ext, memo' = memo ++ ext)
  /\ (NoDup memo -> NoDup memo')
  /\ 0 <= k
  /\ nth_error memo' (Z.to_nat k) = Some s.
Proof.
  unfold DictionaryUnifier.GetOrInsert.
  destruct (DictionaryUnifier.index_of s memo) as [k|] eqn:E.
  - split; [exists []; now rewrite app_nil_r|]. split; [auto|].
    split; [lia|]. rewrite Nat2Z.id. now apply index_of_Some.
  - split; [eauto|]. split.
    + intros Hnd. apply NoDup_app; [exact Hnd|repeat constructor; auto|].
      intros x Hx [<- | []]. now apply index_of_None in E.
    + split; [lia|].
      rewrite Nat2Z.id, nth_error_app2, Nat.sub_diag by lia. reflexivity.
Qed.

(** The transpose table of one dictionary sends every local index to the
    place of its label in the unified dictionary, which only grows. *)
Lemma Unify_spec dict :
  forall memo,
    let (memo', transpose) := DictionaryUnifier.Unify memo dict in
    (exists ext, memo' = memo ++ ext)
    /\ (NoDup memo -> NoDup memo')
    /\ forall idx s,
         nth_error dict idx = Some s ->
         exists t, nth_error transpose idx = Some t
                   /\ 0 <= t
                   /\ nth_error memo' (Z.to_nat t) = Some s.
Proof.
  induction dict as [|s0 dict IH]; intros memo; simpl.
  - split; [exists []; now rewrite app_nil_r|]. split; [auto|].
    intros [|idx] s H; discriminate.
  - pose proof (GetOrInsert_spec memo s0) as H1.
    destruct (DictionaryUnifier.GetOrInsert memo s0) as [memo1 k].
    destruct H1 as ([ext1 ->] & Hnd1 & Hk & Hnth1).
    specialize (IH (memo ++ ext1)).
    destruct (DictionaryUnifier.Unify (memo ++ ext1) dict) as [memo2 tr].
    destruct IH as ([ext2 ->] & Hnd2 & Hall).
    split; [exists (ext1 ++ ext2); now rewrite app_assoc|].
    split; [auto|].
    intros [|idx] s H; simpl in *.
    + injection H as <-. exists k. repeat split; auto.
      rewrite nth_error_app1; [exact Hnth1|].
      apply nth_error_Some. now rewrite Hnth1.
    + now apply Hall.
Qed.

Lemma unify_chunks_spec (ca : list DictionaryArray) :
  forall memo,
    let (memo', arrays) := AltrepFactor.unify_chunks memo ca in
    (exists ext, memo' = memo ++ ext)
    /\ (NoDup memo -> NoDup memo')
    /\ forall k c idx s,
         nth_error ca k = Some c ->
         nth_error (dictionary (dictionary_ c)) idx = Some s ->
         exists transpose t,
           nth_error arrays k = Some transpose
           /\ nth_error transpose idx = Some t
           /\ 0 <= t
           /\ nth_error memo' (Z.to_nat t) = Some s.
Proof.
  induction ca as [|c0 ca IH]; intros memo; simpl.
  - split; [exists []; now rewrite app_nil_r|]. split; [auto|].
    intros [|k] c idx s H; discriminate.
  - pose proof (Unify_spec (dictionary (dictionary_ c0)) memo) as H1.
    destruct (DictionaryUnifier.Unify memo (dictionary (dictionary_ c0)))
      as [memo1 tr].
    destruct H1 as ([ext1 ->] & Hnd1 & Hall1).
    specialize (IH (memo ++ ext1)).
    destruct (AltrepFactor.unify_chunks (memo ++ ext1) ca) as [memo2 arrays].
    destruct IH as ([ext2 ->] & Hnd2 & Hall2).
    split; [exists (ext1 ++ ext2); now rewrite app_assoc|].
    split; [auto|].
    intros [|k] c idx s Hc Hs; simpl in *.
    + injection Hc as <-. destruct (Hall1 idx s Hs) as (t & Ht & H0 & Hnth).
      exists tr, t. repeat split; auto.
      rewrite nth_error_app1; [exact Hnth|].
      apply nth_error_Some. now rewrite Hnth.
    + now apply (Hall2 k c idx s).
Qed.

Lemma dictionary_Equals_eq a b : dictionary_Equals a b = true <-> a = b.
Proof.
  unfold dictionary_Equals.
  destruct (list_eq_dec string_dec a b); split; auto; discriminate.
Qed.

(** Without unification every chunk has the dictionary of chunk 0. *)
Lemma no_unification_same_dictionary (chunk_0 : DictionaryArray) rest c :
  DictionaryChunkArrayNeedUnification (chunk_0 :: rest) = false ->
  In c (chunk_0 :: rest) ->
  dictionary (dictionary_ c) = dictionary (dictionary_ chunk_0).
Proof.
  simpl. intros Hno [<- | Hin]; [reflexivity|].
  destruct (dictionary_Equals (dictionary (dictionary_ chunk_0))
                              (dictionary (dictionary_ c))) eqn:E.
  - apply dictionary_Equals_eq in E. now symmetry.
  - assert (Hex : existsb
             (fun arr => negb (dictionary_Equals
                                 (dictionary (dictionary_ chunk_0))
                                 (dictionary (dictionary_ arr)))) rest = true).
    { apply existsb_exists. exists c. split; [exact Hin|now rewrite E]. }
    congruence.
Qed.

(** The levels [Make] sets name every dictionary entry of every chunk at
    its unified index; they hold no label twice when they come from the
    unifier. *)
Lemma Make_levels (ca : list DictionaryArray) alt :
  AltrepFactor.Make ca = Some alt ->
  exists levels,
    R_LevelsSymbol (ATTRIB alt) = Some levels
    /\ (AltrepFactor.WasUnified alt = true -> NoDup levels)
    /\ forall k c idx s,
         nth_error ca k = Some c ->
         nth_error (dictionary (dictionary_ c)) idx = Some s ->
         0 <= unified_index (AltrepFactor.CADR (R_altrep_data2 alt)) k idx
         /\ nth_error levels
              (Z.to_nat (unified_index (AltrepFactor.CADR (R_altrep_data2 alt))
                                       k idx))
            = Some s.
Proof.
  intros HM. destruct (Make_inv ca alt HM) as (_ & _ & HW & Hyes & Hno).
  destruct (DictionaryChunkArrayNeedUnification ca) eqn:E.
  - destruct (Hyes eq_refl) as [Htab Hlev].
    pose proof (unify_chunks_spec ca []) as Hspec.
    destruct (AltrepFactor.unify_chunks [] ca) as [memo arrays].
    destruct Hspec as (_ & Hnd & Hall). simpl in *.
    exists memo. split; [exact Hlev|]. split; [intros _; apply Hnd; constructor|].
    intros k c idx s Hc Hs. rewrite Htab. simpl.
    destruct (Hall k c idx s Hc Hs) as (tr & t & Htr & Ht & H0 & Hnth).
    rewrite (nth_error_nth _ _ _ Htr), (nth_error_nth _ _ _ Ht). auto.
  - destruct (Hno eq_refl) as [Htab (chunk_0 & rest & -> & Hlev)].
    exists (dictionary (dictionary_ chunk_0)).
    split; [exact Hlev|]. split; [rewrite HW; discriminate|].
    intros k c idx s Hc Hs. rewrite Htab. simpl.
    split; [lia|]. rewrite Nat2Z.id.
    rewrite <- (no_unification_same_dictionary chunk_0 rest c E);
      [exact Hs|]. eapply nth_error_In; eauto.
Qed.

(** The code of a position that holds a label: the unified index of its
    local index, plus one; the levels hold the label there. *)
Lemma factor_code_label (alt : AltrepFactor.Alt) levels i label :
  fits (AltrepFactor.CADR (R_altrep_data2 alt)) 0 (R_altrep_data1 alt) ->
  (forall k c idx s,
      nth_error (R_altrep_data1 alt) k = Some c ->
      nth_error (dictionary (dictionary_ c)) idx = Some s ->
      0 <= unified_index (AltrepFactor.CADR (R_altrep_data2 alt)) k idx
      /\ nth_error levels
           (Z.to_nat (unified_index (AltrepFactor.CADR (R_altrep_data2 alt))
                                    k idx))
         = Some s) ->
  Z.of_nat (List.length levels) <= INT32_MAX ->
  label_at (R_altrep_data1 alt) i = Some label ->
  0 <= i < AltrepFactor.Length alt
  /\ exists (k : nat) index,
       position_ (ArrayResolve_new (R_altrep_data1 alt) i) = Z.of_nat k
       /\ element (R_altrep_data1 alt) i = Some (true, index)
       /\ read (codes alt) i
          = Some (unified_index (AltrepFactor.CADR (R_altrep_data2 alt)) k
                                (Z.to_nat index) + 1)
       /\ read levels
            (unified_index (AltrepFactor.CADR (R_altrep_data2 alt)) k
                           (Z.to_nat index))
          = Some label.
Proof.
  intros Hfits Hlev Hmax Hlab.
  set (ca := R_altrep_data1 alt) in *.
  set (tables := AltrepFactor.CADR (R_altrep_data2 alt)) in *.
  assert (Hel : exists index, element ca i = Some (true, index)).
  { unfold label_at in Hlab. unfold element.
    destruct (array_ (ArrayResolve_new ca i)) as [array|]; [|discriminate].
    destruct (slot_at array (index_ (ArrayResolve_new ca i)))
      as [[[|] index]|]; try discriminate. eauto. }
  destruct Hel as [index0 Hel].
  destruct (element_positions ca i _ Hel) as [Hi0 Hnth].
  assert (Hi : 0 <= i < ChunkedArray_length ca).
  { split; [exact Hi0|].
    assert (Z.to_nat i < List.length (positions ca))%nat
      by (apply nth_error_Some; now rewrite Hnth).
    pose proof (render_length (fun _ _ (slot : bool * Z) => slot) 0 ca) as HL.
    fold (positions ca) in HL. same_types. lia. }
  split; [exact Hi|].
  destruct (ArrayResolve_loop_spec (code tables) ca 0 0 i Hi)
    as (k & c & j & H1 & Hc & Hj & H4).
  unfold label_at, ArrayResolve_new in Hlab. rewrite H1 in Hlab.
  simpl in Hlab.
  destruct (slot_at c j) as [[[|] index]|] eqn:Hslot; try discriminate.
  assert (Hidx : 0 <= index
                 /\ nth_error (dictionary (dictionary_ c)) (Z.to_nat index)
                    = Some label).
  { unfold read in Hlab. destruct (index <? 0) eqn:E; [discriminate|].
    apply Z.ltb_ge in E. auto. }
  destruct Hidx as [Hidx0 Hidx].
  destruct (Hlev k c (Z.to_nat index) label Hc Hidx) as [Hu0 Hu].
  set (u := unified_index tables k (Z.to_nat index)) in *.
  assert (Hu_lt : (Z.to_nat u < List.length levels)%nat)
    by (apply nth_error_Some; now rewrite Hu).
  exists k, index. split.
  { unfold ArrayResolve_new. rewrite H1. simpl. lia. }
  split.
  { unfold element, ArrayResolve_new. rewrite H1. simpl. exact Hslot. }
  split.
  - rewrite read_nth_error by lia. unfold codes. fold ca tables.
    rewrite H4. simpl. f_equal. unfold code. simpl.
    subst u. unfold unified_index. destruct tables as [arrays|].
    + apply to_int_small. unfold INT32_MIN, INT32_MAX in *.
      fold (unified_index (Some arrays) k (Z.to_nat index)). lia.
    + rewrite to_int_small; unfold INT32_MIN, INT32_MAX in *;
        unfold unified_index in *; lia.
  - rewrite read_nth_error by lia. exact Hu.
Qed.

Lemma need_unification_iff (ca : list DictionaryArray) :
  DictionaryChunkArrayNeedUnification ca = true
  <-> exists chunk_0 c,
        hd_error ca = Some chunk_0
        /\ In c ca
        /\ dictionary (dictionary_ c) <> dictionary (dictionary_ chunk_0).
Proof.
  destruct ca as [|chunk_0 rest]; simpl.
  - split; [discriminate|]. intros (? & ? & H & _). discriminate.
  - rewrite existsb_exists. split.
    + intros (c & Hin & Hne). exists chunk_0, c. split; [reflexivity|].
      split; [now right|]. intros Heq.
      rewrite Heq in Hne.
      rewrite (proj2 (dictionary_Equals_eq _ _) eq_refl) in Hne. discriminate.
    + intros (c0 & c & Hhd & Hin & Hne). injection Hhd as <-.
      destruct Hin as [<- | Hin]; [contradiction|].
      exists c. split; [exact Hin|].
      destruct (dictionary_Equals (dictionary (dictionary_ chunk_0))
                                  (dictionary (dictionary_ c))) eqn:E;
        [|reflexivity].
      apply dictionary_Equals_eq in E. now rewrite E in Hne.
Qed.

(** C6, as the code has it: the dictionaries are unified at construction,
    exactly when some chunk has a dictionary other than that of chunk 0,
    and no method changes the transpose buffers afterwards.  For every
    element that is not null the accessor returns the local index of the
    element, sent through the transpose buffer of its chunk when the
    dictionaries were unified and left alone otherwise, plus one; the
    levels hold the label of the element at that code.  Two elements with
    the same label get the same code whenever the dictionaries were
    unified or the shared dictionary holds no label twice. *)
Theorem factor_codes_name_their_labels (s : session AltrepFactor.Alt) :
  reachable_factor s ->
  let alt := object s in
  let chunked_array := R_altrep_data1 alt in
  let arrays_transpose := AltrepFactor.CADR (R_altrep_data2 alt) in
  exists levels,
    R_LevelsSymbol (ATTRIB alt) = Some levels
    /\ AltrepFactor.WasUnified alt
       = DictionaryChunkArrayNeedUnification chunked_array
    /\ (AltrepFactor.WasUnified alt = true
        <-> exists chunk_0 c,
              hd_error chunked_array = Some chunk_0
              /\ In c chunked_array
              /\ dictionary (dictionary_ c)
                 <> dictionary (dictionary_ chunk_0))
    /\ (forall m,
          AltrepFactor.CADR (R_altrep_data2 (object (call_factor m s)))
          = arrays_transpose)
    /\ (Z.of_nat (List.length levels) <= INT32_MAX ->
        (forall i label,
            label_at chunked_array i = Some label ->
            exists (k : nat) index,
              position_ (ArrayResolve_new chunked_array i) = Z.of_nat k
              /\ element chunked_array i = Some (true, index)
              /\ AltrepFactor.Elt alt i
                 = Some (unified_index arrays_transpose k (Z.to_nat index) + 1)
              /\ read levels
                   (unified_index arrays_transpose k (Z.to_nat index))
                 = Some label)
        /\ (AltrepFactor.WasUnified alt = true \/ NoDup levels ->
            forall i1 i2 label,
              label_at chunked_array i1 = Some label ->
              label_at chunked_array i2 = Some label ->
              AltrepFactor.Elt alt i1 = AltrepFactor.Elt alt i2)).
Proof.
  intros Hs alt chunked_array arrays_transpose.
  destruct (reachable_factor_inv s Hs)
    as [Hvalid (ca & alt0 & Hv & HM & H1 & H2 & H3)].
  destruct (Make_levels ca alt0 HM) as (levels & Hlev & Hnd & Hall).
  destruct (Make_inv ca alt0 HM) as (_ & _ & HW & _).
  assert (HWs : AltrepFactor.WasUnified alt = AltrepFactor.WasUnified alt0).
  { unfold AltrepFactor.WasUnified. subst alt. now rewrite H2. }
  assert (Hcodes : Z.of_nat (List.length levels) <= INT32_MAX ->
    forall i label,
      label_at chunked_array i = Some label ->
      exists (k : nat) index,
        position_ (ArrayResolve_new chunked_array i) = Z.of_nat k
        /\ element chunked_array i = Some (true, index)
        /\ AltrepFactor.Elt alt i
           = Some (unified_index arrays_transpose k (Z.to_nat index) + 1)
        /\ read levels (unified_index arrays_transpose k (Z.to_nat index))
           = Some label).
  { intros Hmax i label Hlab.
    destruct (factor_code_label alt levels i label) as [Hi (k & index & G)];
      auto.
    - apply Hvalid.
    - intros k c idx l Hc Hl. subst alt. rewrite H2.
      apply (Hall k c idx l); [|exact Hl]. now rewrite <- H1.
    - destruct G as (G1 & G2 & G3 & G4).
      exists k, index. repeat split; auto.
      destruct (factor_Elt_any alt i Hvalid Hi) as [-> _]. exact G3. }
  assert (Hca : chunked_array = ca) by exact H1.
  exists levels. split; [subst alt; now rewrite H3|].
  split; [rewrite HWs, Hca; exact HW|].
  split.
  { rewrite HWs, HW, Hca. apply need_unification_iff. }
  split.
  { intros m. destruct (call_factor_object m s) as [-> | ->]; [reflexivity|].
    destruct (factor_Materialize_cases s Hvalid)
      as (data2 & s' & HMat & _ & _ & G2 & _).
    rewrite HMat. exact G2. }
  intros Hmax. split; [exact (Hcodes Hmax)|].
  intros Hdup i1 i2 label Hl1 Hl2.
  assert (Hnodup : NoDup levels).
  { destruct Hdup as [Hu | Hn]; [|exact Hn]. apply Hnd. now rewrite <- HWs. }
  destruct (Hcodes Hmax i1 label Hl1) as (k1 & x1 & _ & _ & -> & R1).
  destruct (Hcodes Hmax i2 label Hl2) as (k2 & x2 & _ & _ & -> & R2).
  set (u1 := unified_index arrays_transpose k1 (Z.to_nat x1)) in *.
  set (u2 := unified_index arrays_transpose k2 (Z.to_nat x2)) in *.
  assert (H01 : 0 <= u1).
  { unfold read in R1. destruct (u1 <? 0) eqn:E; [discriminate|].
    now apply Z.ltb_ge in E. }
  assert (H02 : 0 <= u2).
  { unfold read in R2. destruct (u2 <? 0) eqn:E; [discriminate|].
    now apply Z.ltb_ge in E. }
  rewrite read_nth_error in R1, R2 by assumption.
  assert (Heq : Z.to_nat u1 = Z.to_nat u2).
  { apply (proj1 (NoDup_nth_error levels) Hnodup).
    - apply nth_error_Some. now rewrite R1.
    - now rewrite R1, R2. }
  do 2 f_equal. lia.
Qed.

(** C6 fails as stated: two chunks share the dictionary a, a; the element
    of chunk 0 has local index 0 and the one of chunk 1 has local index 1.
    Both hold the label a, no unification takes place, and the codes are 1
    and 2. *)
Lemma same_label_different_codes :
  forallb valid_chunk repeated_label_chunks = true
  /\ exists alt,
       AltrepFactor.Make repeated_label_chunks = Some alt
       /\ AltrepFactor.WasUnified alt = false
       /\ position_ (ArrayResolve_new repeated_label_chunks 0) = 0
       /\ position_ (ArrayResolve_new repeated_label_chunks 1) = 1
       /\ label_at repeated_label_chunks 0 = Some "a"%string
       /\ label_at repeated_label_chunks 1 = Some "a"%string
       /\ AltrepFactor.Elt alt 0 = Some 1
       /\ AltrepFactor.Elt alt 1 = Some 2
       /\ AltrepFactor.Elt alt 0 <> AltrepFactor.Elt alt 1.
Proof.
  split; [reflexivity|]. eexists. split; [reflexivity|].
  repeat split; try reflexivity. discriminate.
Qed.

(** ** The model at work *)

Example resolve_third_chunk :
  ArrayResolve_new example_ints 2
  = mkArrayResolve (Some (mkArray tt [(true, 3)])) 0 2.
Proof. reflexivity. Qed.

Example region_of_example_ints :
  AltrepVectorPrimitive.Get_region INTSXP (object example_int_session) 1 5
    [0; 0; 0; 0; 0]
  = (2, [NA_INTEGER; 3; 0; 0; 0]).
Proof. reflexivity. Qed.

Example aggregates_of_example_ints :
  @AltrepVectorPrimitive.Sum example_kernels INTSXP
    (object example_int_session) true = Rf_ScalarInteger 4
  /\ @AltrepVectorPrimitive.Min example_kernels INTSXP
       (object example_int_session) true = Rf_ScalarInteger 1
  /\ @AltrepVectorPrimitive.Max example_kernels INTSXP
       (object example_int_session) true = Rf_ScalarInteger 3.
Proof. repeat split; reflexivity. Qed.

Example unified_example_factor :
  ATTRIB example_factor
  = mkAttributes (Some ["a"; "b"]%string) (Some classes_factor)
  /\ AltrepFactor.CADR (R_altrep_data2 example_factor)
     = Some [[0; 1]; [1; 0]]
  /\ fst (AltrepFactor.Materialize example_factor_session)
     = Ok (Some (mkVector 0 [1; 2; NA_INTEGER; 2; 1])).
Proof. repeat split; reflexivity. Qed.

Example stripped_example_strings :
  AltrepVectorString.Materialize true example_string_session
  = (Ok (Some (mkVector 0 [Rf_mkCharLenCE ["a"; "b"]%char; NA_STRING;
                           Rf_mkCharLenCE ["c"; "d"]%char])),
     mkSession
       (AltrepVectorString.SetRepresentation (object example_string_session)
          (mkVector 0 [Rf_mkCharLenCE ["a"; "b"]%char; NA_STRING;
                       Rf_mkCharLenCE ["c"; "d"]%char]))
       1 [AltrepVectorString.warning_stripped]).
Proof. reflexivity. Qed.

(** Beyond 53 bits the conversion to double rounds: 2^53 + 1 becomes
    2^53. *)
Example round_to_double_rounds :
  round_to_double 9007199254740993 = 9007199254740992
  /\ round_to_double 9007199254740995 = 9007199254740996.
Proof. split; reflexivity. Qed.

(** ** The theorems at the example data *)

Ltac evaluated :=
  vm_compute; repeat split; first [reflexivity | discriminate].

Lemma example_factor_reachable : reachable_factor example_factor_session.
Proof. apply (factor_made example_factor_chunks); reflexivity. Defined.

Lemma Elt_before_is_Materialize_after_witness :
  (AltrepVectorPrimitive.Representation INTSXP (object example_int_session)
   = None
   /\ 0 <= 1 < AltrepVectorPrimitive.Length INTSXP (object example_int_session)
   /\ exists v data2 s',
        AltrepVectorPrimitive.Elt INTSXP (object example_int_session) 1 = Some v
        /\ AltrepVectorPrimitive.Materialize INTSXP example_int_session
           = (Ok (Some data2), s')
        /\ AltrepVectorPrimitive.Representation INTSXP (object s') = Some data2
        /\ read (DATAPTR data2) 1 = Some v
        /\ AltrepVectorPrimitive.Elt INTSXP (object s') 1 = Some v)
  /\ (reachable_factor example_factor_session
      /\ AltrepFactor.Representation (object example_factor_session) = None
      /\ 0 <= 3 < AltrepFactor.Length (object example_factor_session)
      /\ exists v data2 s',
           AltrepFactor.Elt (object example_factor_session) 3 = Some v
           /\ AltrepFactor.Materialize example_factor_session
              = (Ok (Some data2), s')
           /\ AltrepFactor.Representation (object s') = Some data2
           /\ read (DATAPTR data2) 3 = Some v
           /\ AltrepFactor.Elt (object s') 3 = Some v)
  /\ (AltrepVectorString.Representation (object example_string_session) = None
      /\ 0 <= 2 < AltrepVectorString.Length (object example_string_session)
      /\ exists v data2 s',
           fst (AltrepVectorString.Elt true example_string_session 2) = Ok v
           /\ AltrepVectorString.Materialize true example_string_session
              = (Ok (Some data2), s')
           /\ AltrepVectorString.Representation (object s') = Some data2
           /\ read (DATAPTR data2) 2 = Some v
           /\ AltrepVectorString.Elt true s' 2 = (Ok v, s'))
  /\ (AltrepVectorString.Representation (object plain_string_session) = None
      /\ 0 <= 2 < AltrepVectorString.Length (object plain_string_session)
      /\ existsb embedded_nul
           (positions (R_altrep_data1 (object plain_string_session))) = false
      /\ exists v data2 s',
           fst (AltrepVectorString.Elt false plain_string_session 2) = Ok v
           /\ AltrepVectorString.Materialize false plain_string_session
              = (Ok (Some data2), s')
           /\ AltrepVectorString.Representation (object s') = Some data2
           /\ read (DATAPTR data2) 2 = Some v
           /\ AltrepVectorString.Elt false s' 2 = (Ok v, s'))
  /\ (AltrepVectorString.Representation (object plain_string_session) = None
      /\ AltrepVectorString.Materialize false plain_string_session
         = (Ok (Some (mkVector 0 [Rf_mkCharLenCE ["a"; "b"]%char; NA_STRING;
                                  Rf_mkCharLenCE ["c"]%char])),
            snd (AltrepVectorString.Materialize false plain_string_session))
      /\ (false = true
          \/ existsb embedded_nul
               (positions (R_altrep_data1 (object plain_string_session)))
             = false)).
Proof.
  destruct Elt_before_is_Materialize_after as (Hp & Hf & Hs & Honly).
  split; [|split; [|split; [|split]]].
  - split; [reflexivity|]. split; [evaluated|].
    apply (Hp INTSXP example_int_session 1); [reflexivity|evaluated].
  - split; [exact example_factor_reachable|]. split; [reflexivity|].
    split; [evaluated|].
    apply (Hf example_factor_session 3);
      [exact example_factor_reachable|reflexivity|evaluated].
  - split; [reflexivity|]. split; [evaluated|].
    apply (Hs true example_string_session 2);
      [reflexivity|evaluated|left; reflexivity].
  - split; [reflexivity|]. split; [evaluated|]. split; [reflexivity|].
    apply (Hs false plain_string_session 2);
      [reflexivity|evaluated|right; reflexivity].
  - split; [reflexivity|]. split; [reflexivity|].
    apply (Honly false plain_string_session _ _ eq_refl eq_refl).
Defined.

Lemma Materialize_assigns_the_cache_once_witness :
  let s1 := snd (AltrepVectorPrimitive.Materialize INTSXP example_int_session) in
  let f1 := snd (AltrepFactor.Materialize example_factor_session) in
  let t1 := snd (AltrepVectorString.Materialize true example_string_session) in
  (exists old,
      AltrepVectorPrimitive.Representation INTSXP (object s1) = Some old
      /\ AltrepVectorPrimitive.Representation INTSXP
           (object (call_primitive INTSXP (call_Dataptr true) s1)) = Some old)
  /\ (reachable_factor example_factor_session
      /\ exists data2 s',
           AltrepFactor.Materialize example_factor_session
             = (Ok (Some data2), s')
           /\ AltrepFactor.Representation (object s') = Some data2
           /\ AltrepFactor.Materialize s' = (Ok (Some data2), s')
           /\ (AltrepFactor.Representation (object example_factor_session)
               = None ->
               address data2 = allocated example_factor_session
               /\ allocated s' = S (allocated example_factor_session))
           /\ (forall old,
                 AltrepFactor.Representation (object example_factor_session)
                   = Some old ->
                 data2 = old /\ s' = example_factor_session))
  /\ (exists old,
        AltrepFactor.Representation (object f1) = Some old
        /\ AltrepFactor.Representation (object (call_factor call_Duplicate f1))
           = Some old)
  /\ (exists x,
        AltrepVectorString.Materialize true example_string_session = (Ok x, t1)
        /\ exists data2,
             x = Some data2
             /\ AltrepVectorString.Representation (object t1) = Some data2
             /\ (forall b',
                   AltrepVectorString.Materialize b' t1 = (Ok (Some data2), t1))
             /\ (AltrepVectorString.Representation
                   (object example_string_session) = None ->
                 address data2 = allocated example_string_session
                 /\ allocated t1 = S (allocated example_string_session))
             /\ (forall old,
                   AltrepVectorString.Representation
                     (object example_string_session) = Some old ->
                   data2 = old /\ t1 = example_string_session))
  /\ (exists old,
        AltrepVectorString.Representation (object t1) = Some old
        /\ AltrepVectorString.Representation
             (object (call_string false (string_Elt 2) t1)) = Some old).
Proof.
  intros s1 f1 t1.
  destruct Materialize_assigns_the_cache_once
    as (_ & H2 & H3 & H4 & H5 & H6).
  split; [eexists; split; [reflexivity|apply H2; reflexivity]|].
  split; [split; [exact example_factor_reachable
                 |apply H3; exact example_factor_reachable]|].
  split; [eexists; split; [reflexivity|apply H4; reflexivity]|].
  split; [eexists; split; [reflexivity|apply (H5 true); reflexivity]|].
  eexists; split; [reflexivity|apply H6; reflexivity].
Defined.

Lemma Get_region_copies_what_Elt_returns_witness :
  (reachable_primitive INTSXP example_int_session
   /\ 0 <= 1
   /\ 5 <= Z.of_nat (List.length [0; 0; 0; 0; 0])
   /\ (let out :=
         AltrepVectorPrimitive.Get_region INTSXP (object example_int_session)
           1 5 [0; 0; 0; 0; 0] in
       fst out
       = Z.max 0 (Z.min 5 (AltrepVectorPrimitive.Length INTSXP
                             (object example_int_session) - 1))
       /\ forall k, 0 <= k < fst out ->
            exists v,
              AltrepVectorPrimitive.Elt INTSXP (object example_int_session)
                (1 + k) = Some v
              /\ read (snd out) k = Some v))
  /\ (reachable_factor example_factor_session
      /\ 0 <= 2
      /\ 2 <= Z.of_nat (List.length [0; 0])
      /\ exists ncopy out,
           AltrepFactor.Get_region (object example_factor_session) 2 2 [0; 0]
           = Some (ncopy, out)
           /\ ncopy
              = Z.max 0 (Z.min 2 (AltrepFactor.Length
                                    (object example_factor_session) - 2))
           /\ forall k, 0 <= k < ncopy ->
                exists v,
                  AltrepFactor.Elt (object example_factor_session) (2 + k)
                  = Some v
                  /\ read out k = Some v).
Proof.
  assert (Hreach : reachable_primitive INTSXP example_int_session)
    by apply primitive_made.
  split.
  - split; [exact Hreach|]. split; [lia|]. split; [simpl; lia|].
    apply (proj1 Get_region_copies_what_Elt_returns INTSXP example_int_session
             1 5 [0; 0; 0; 0; 0] Hreach); [lia|simpl; lia].
  - split; [exact example_factor_reachable|]. split; [lia|].
    split; [simpl; lia|].
    apply (proj2 Get_region_copies_what_Elt_returns example_factor_session
             2 2 [0; 0] example_factor_reachable); [lia|simpl; lia].
Defined.

Lemma aggregates_null_policy_witness :
  let s := example_int_session in
  let nulls : session (AltrepVectorPrimitive.Alt INTSXP) :=
    mkSession (AltrepVectorBase.Make all_null_ints) 0 [] in
  (0 < ChunkedArray_null_count example_ints
   /\ @AltrepVectorPrimitive.Min example_kernels INTSXP (object s) false
      = Rf_ScalarInteger NA_INTEGER
   /\ @AltrepVectorPrimitive.Max example_kernels INTSXP (object s) false
      = Rf_ScalarInteger NA_INTEGER
   /\ @AltrepVectorPrimitive.Sum example_kernels INTSXP (object s) false
      = Rf_ScalarInteger NA_INTEGER)
  /\ (ChunkedArray_null_count all_null_ints = ChunkedArray_length all_null_ints
      /\ @AltrepVectorPrimitive.Min example_kernels INTSXP (object nulls) true
         = Rf_ScalarReal R_PosInf
      /\ @AltrepVectorPrimitive.Max example_kernels INTSXP (object nulls) true
         = Rf_ScalarReal R_NegInf
      /\ @AltrepVectorPrimitive.Sum example_kernels INTSXP (object nulls) true
         = Rf_ScalarInteger 0).
Proof.
  intros s nulls.
  destruct (@aggregates_null_policy example_kernels INTSXP s)
    as (H1 & _ & _ & _).
  destruct (@aggregates_null_policy example_kernels INTSXP nulls)
    as (_ & H2 & H3 & _).
  split.
  - split; [evaluated|]. apply H1. evaluated.
  - split; [reflexivity|].
    destruct (H2 true (or_introl eq_refl) eq_refl) as [Hmin Hmax].
    split; [exact Hmin|]. split; [exact Hmax|]. apply H3. reflexivity.
Defined.

Lemma Sum_int32_promotes_to_double_witness :
  let alt : AltrepVectorPrimitive.Alt INTSXP := AltrepVectorBase.Make large_ints in
  exact_sum large_ints = 2147483648
  /\ @AltrepVectorPrimitive.Sum example_kernels INTSXP alt true
     = Rf_ScalarReal (static_cast_double 2147483648)
  /\ static_cast_double 2147483648 = finite 2147483648 0.
Proof.
  intros alt.
  assert (Hvalues : Forall (fun v => INT32_MIN <= v <= INT32_MAX)
                           (valid_values large_ints)).
  { repeat constructor; vm_compute; discriminate. }
  assert (Hcount : Z.of_nat (List.length (valid_values large_ints)) <= 2 ^ 32)
    by (vm_compute; discriminate).
  destruct (@Sum_int32_promotes_to_double example_kernels alt true
              (or_introl eq_refl) Hvalues Hcount) as (_ & _ & Hout).
  split; [reflexivity|].
  assert (Hhigh : exact_sum large_ints <= INT32_MIN
                  \/ INT32_MAX < exact_sum large_ints)
    by (right; reflexivity).
  destruct (Hout Hhigh) as [Hsum Hexact].
  split; [exact Hsum|]. apply Hexact. reflexivity.
Defined.

Lemma factor_codes_name_their_labels_witness :
  reachable_factor example_factor_session
  /\ label_at example_factor_chunks 1 = Some "b"%string
  /\ label_at example_factor_chunks 3 = Some "b"%string
  /\ AltrepFactor.WasUnified example_factor = true
  /\ AltrepFactor.Elt example_factor 1 = AltrepFactor.Elt example_factor 3
  /\ exists (k : nat) index,
       position_ (ArrayResolve_new example_factor_chunks 3) = Z.of_nat k
       /\ element example_factor_chunks 3 = Some (true, index)
       /\ AltrepFactor.Elt example_factor 3
          = Some (unified_index
                    (AltrepFactor.CADR (R_altrep_data2 example_factor))
                    k (Z.to_nat index) + 1)
       /\ read ["a"; "b"]%string
            (unified_index (AltrepFactor.CADR (R_altrep_data2 example_factor))
                           k (Z.to_nat index))
          = Some "b"%string.
Proof.
  destruct (factor_codes_name_their_labels example_factor_session
              example_factor_reachable)
    as (levels & Hlev & _ & _ & _ & Hcodes).
  vm_compute in Hlev. injection Hlev as <-.
  assert (Hmax : Z.of_nat (List.length ["a"; "b"]%string) <= INT32_MAX)
    by (vm_compute; discriminate).
  destruct (Hcodes Hmax) as [Hlabel Hsame].
  split; [exact example_factor_reachable|].
  split; [reflexivity|]. split; [reflexivity|]. split; [reflexivity|].
  split.
  - apply (Hsame (or_introl eq_refl) 1 3 "b"%string); reflexivity.
  - apply (Hlabel 3 "b"%string). reflexivity.
Defined.

Lemma Dataptr_or_null_zero_copy_witness :
  let s : session (AltrepVectorPrimitive.Alt REALSXP) :=
    mkSession (AltrepVectorBase.Make example_doubles) 0 [] in
  (AltrepVectorPrimitive.IsMaterialized REALSXP (object s) = false
   /\ num_chunks example_doubles = 1
   /\ ChunkedArray_null_count example_doubles = 0)
  /\ AltrepVectorPrimitive.Dataptr_or_null REALSXP (object s) = into_chunk 0
  /\ AltrepVectorPrimitive.IsMaterialized INTSXP (object example_int_session)
     = false
  /\ num_chunks example_ints <> 1
  /\ AltrepVectorPrimitive.Dataptr_or_null INTSXP (object example_int_session)
     = nullptr.
Proof.
  intros s.
  destruct (Dataptr_or_null_zero_copy REALSXP s) as (H1 & _ & _ & _).
  destruct (Dataptr_or_null_zero_copy INTSXP example_int_session)
    as (_ & _ & H3 & _).
  assert (Hcfg : AltrepVectorPrimitive.IsMaterialized REALSXP (object s) = false
                 /\ num_chunks example_doubles = 1
                 /\ ChunkedArray_null_count example_doubles = 0)
    by (repeat split; reflexivity).
  assert (Hchunks : num_chunks example_ints <> 1) by (vm_compute; discriminate).
  split; [exact Hcfg|]. split; [apply H1; exact Hcfg|].
  split; [reflexivity|]. split; [exact Hchunks|].
  apply H3; [reflexivity|left; exact Hchunks].
Defined.


Lemma string_Materialize_is_all_or_nothing_witness :
  let s := example_string_session in
  AltrepVectorString.Representation (object s) = None
  /\ existsb embedded_nul (positions (R_altrep_data1 (object s))) = true
  /\ existsb (fun slot => existsb is_percent (snd slot))
       (positions (R_altrep_data1 (object s))) = false
  /\ (forall x, fst (AltrepVectorString.Materialize false s) <> Ok x)
  /\ object (snd (AltrepVectorString.Materialize false s)) = object s
  /\ exists message s',
       AltrepVectorString.Materialize false s = (R_error message, s')
       /\ object s' = object s
       /\ AltrepVectorString.Representation (object s') = None
       /\ warnings s' = warnings s
       /\ forall b',
            payload (fst (AltrepVectorString.Materialize b' s'))
            = payload (fst (AltrepVectorString.Materialize b' s)).
Proof.
  intros s.
  destruct (string_Materialize_is_all_or_nothing false s)
    as (Hfail & _ & Hwhen & _).
  assert (Hrep : AltrepVectorString.Representation (object s) = None)
    by reflexivity.
  assert (Hany : existsb embedded_nul (positions (R_altrep_data1 (object s)))
                 = true) by reflexivity.
  assert (Hp : existsb (fun slot => existsb is_percent (snd slot))
                 (positions (R_altrep_data1 (object s))) = false)
    by reflexivity.
  split; [exact Hrep|]. split; [exact Hany|]. split; [exact Hp|].
  destruct (Hwhen Hrep eq_refl Hany) as (Hnot & Hobj & Hraise).
  split; [exact Hnot|]. split; [exact Hobj|].
  destruct (Hraise Hp) as (message & s' & HM).
  exists message, s'. split; [exact HM|]. apply (Hfail message s' HM).
Defined.

Lemma MakeAltrepVector_declines_empty_witness :
  chunked_array_length (of_INT32 [mkArray tt []]) = 0
  /\ MakeAltrepVector true (of_INT32 [mkArray tt []]) = R_NilValue
  /\ MakeAltrepVector true (of_INT32 example_ints) <> R_NilValue
  /\ 0 < chunked_array_length (of_INT32 example_ints).
Proof.
  split; [reflexivity|].
  split; [apply (proj1 (MakeAltrepVector_declines_empty true _)); reflexivity|].
  assert (H : MakeAltrepVector true (of_INT32 example_ints) <> R_NilValue)
    by (vm_compute; discriminate).
  split; [exact H|].
  apply (proj2 (MakeAltrepVector_declines_empty true _) H).
Defined.

(** * Further properties of the code *)

(** The names of the object types are unfolded as well before arithmetic
    on the fields of a session. *)
Ltac same_alts :=
  unfold AltrepVectorPrimitive.Alt, AltrepFactor.Alt, AltrepVectorString.Alt
    in *;
  same_types.

(** ** The position resolver *)

Lemma ArrayResolve_loop_offsets {D T} (ca : ChunkedArray D T) :
  forall idx_chunk i,
    0 <= i < ChunkedArray_length ca ->
    exists (k : nat) chunk,
      ArrayResolve_loop ca idx_chunk i
        = mkArrayResolve (Some chunk)
            (i - ChunkedArray_length (firstn k ca)) (idx_chunk + Z.of_nat k)
      /\ nth_error ca k = Some chunk
      /\ 0 <= i - ChunkedArray_length (firstn k ca) < length chunk.
Proof.
  induction ca as [|c ca IH]; intros idx_chunk i Hi; simpl in *; [lia|].
  destruct (i <? length c) eqn:E.
  - apply Z.ltb_lt in E. exists O, c. simpl.
    rewrite Z.sub_0_r, Z.add_0_r. repeat split; lia.
  - apply Z.ltb_ge in E.
    destruct (IH (idx_chunk + 1) (i - length c)) as (k & chunk & H1 & H2 & H3);
      [lia|].
    exists (S k), chunk. simpl. rewrite H1. split; [f_equal; lia|].
    split; [exact H2|lia].
Qed.

(** X1: for an index inside the chunked array, [ArrayResolve] stops at the
    chunk that holds the position: chunk number [k], with the local index
    [i] minus the lengths of the chunks before it, which lies inside the
    chunk.  So the chunk found is never an empty one. *)
Theorem ArrayResolve_finds_the_position {D T}
  (chunked_array : ChunkedArray D T) i :
  0 <= i < ChunkedArray_length chunked_array ->
  exists (k : nat) chunk,
    ArrayResolve_new chunked_array i
      = mkArrayResolve (Some chunk)
          (i - ChunkedArray_length (firstn k chunked_array)) (Z.of_nat k)
    /\ nth_error chunked_array k = Some chunk
    /\ 0 <= i - ChunkedArray_length (firstn k chunked_array) < length chunk.
Proof.
  intros Hi.
  destruct (ArrayResolve_loop_offsets chunked_array 0 i Hi)
    as (k & chunk & H1 & H2 & H3).
  exists k, chunk. unfold ArrayResolve_new. rewrite H1. auto.
Qed.

Lemma ArrayResolve_finds_the_position_witness :
  0 <= 2 < ChunkedArray_length example_ints
  /\ exists (k : nat) chunk,
       ArrayResolve_new example_ints 2
         = mkArrayResolve (Some chunk)
             (2 - ChunkedArray_length (firstn k example_ints)) (Z.of_nat k)
       /\ nth_error example_ints k = Some chunk
       /\ 0 <= 2 - ChunkedArray_length (firstn k example_ints) < length chunk.
Proof.
  split; [evaluated|].
  apply (ArrayResolve_finds_the_position example_ints 2). evaluated.
Defined.

Lemma ArrayResolve_loop_beyond {D T} (ca : ChunkedArray D T) :
  forall idx_chunk i,
    ChunkedArray_length ca <= i ->
    ArrayResolve_loop ca idx_chunk i = mkArrayResolve None 0 0.
Proof.
  induction ca as [|c ca IH]; intros idx_chunk i Hi; simpl in *; [reflexivity|].
  assert (Hc : 0 <= length c) by (unfold length; lia).
  pose proof (ChunkedArray_length_nonneg
                (fun _ _ (slot : bool * T) => slot) ca) as Hca.
  replace (i <? length c) with false by (symmetry; apply Z.ltb_ge; lia).
  apply IH. lia.
Qed.

(** X2: outside the chunked array.  For an index at or beyond the length
    the loop of [ArrayResolve] runs through every chunk without a match:
    [array_] stays the null pointer and [index_] and [position_] keep their
    initial 0.  For a negative index the test [i < chunk_size] holds at the
    first chunk, empty or not, which is returned with the negative index
    as local index. *)
Theorem ArrayResolve_outside {D T} (chunked_array : ChunkedArray D T) i :
  (ChunkedArray_length chunked_array <= i ->
   ArrayResolve_new chunked_array i = mkArrayResolve None 0 0)
  /\ (i < 0 ->
      forall chunk rest,
        chunked_array = chunk :: rest ->
        ArrayResolve_new chunked_array i = mkArrayResolve (Some chunk) i 0).
Proof.
  split.
  - apply ArrayResolve_loop_beyond.
  - intros Hi chunk rest ->. unfold ArrayResolve_new. simpl.
    assert (Hc : 0 <= length chunk) by (unfold length; lia).
    now replace (i <? length chunk) with true by (symmetry; apply Z.ltb_lt; lia).
Qed.

Lemma ArrayResolve_outside_witness :
  (ChunkedArray_length example_ints <= 3
   /\ ArrayResolve_new example_ints 3 = mkArrayResolve None 0 0)
  /\ (-1 < 0
      /\ ArrayResolve_new example_ints (-1)
         = mkArrayResolve (Some (mkArray tt [(true, 1); (false, 7)])) (-1) 0).
Proof.
  destruct (ArrayResolve_outside example_ints 3) as [H3 _].
  destruct (ArrayResolve_outside example_ints (-1)) as [_ Hneg].
  split.
  - split; [evaluated|]. apply H3. evaluated.
  - split; [lia|]. apply (Hneg ltac:(lia) _ _ eq_refl).
Defined.

(** ** Reads outside the vector *)

Lemma element_outside {D T} (ca : ChunkedArray D T) i :
  ~ 0 <= i < ChunkedArray_length ca -> element ca i = None.
Proof.
  intros Hout. destruct (element ca i) as [slot|] eqn:E; [|reflexivity].
  destruct (element_positions ca i slot E) as [H0 Hnth].
  assert (Hlt : (Z.to_nat i < List.length (positions ca))%nat)
    by (apply nth_error_Some; congruence).
  unfold positions in Hlt.
  pose proof (render_length (fun _ _ (slot : bool * T) => slot) 0 ca). lia.
Qed.

(** The accessor of the primitive class in terms of the position found. *)
Lemma primitive_Elt_element sexp_type
  (alt : AltrepVectorPrimitive.Alt sexp_type) i :
  AltrepVectorPrimitive.Elt sexp_type alt i
  = option_map (shown sexp_type 0 tt) (element (R_altrep_data1 alt) i).
Proof.
  unfold AltrepVectorPrimitive.Elt, element,
    AltrepVectorPrimitive.GetChunkedArray, AltrepVectorBase.GetChunkedArray.
  destruct (array_ (ArrayResolve_new (R_altrep_data1 alt) i)) as [array|];
    [|reflexivity].
  unfold IsNull, value_at.
  destruct (slot_at array _) as [[[|] v]|]; reflexivity.
Qed.

Lemma factor_Elt_outside (alt : AltrepFactor.Alt) i :
  AltrepFactor.Representation alt = None ->
  element (R_altrep_data1 alt) i = None ->
  AltrepFactor.Elt alt i = None.
Proof.
  intros Hrep Hel. unfold AltrepFactor.Elt. rewrite Hrep.
  unfold element, AltrepFactor.GetChunkedArray,
    AltrepVectorBase.GetChunkedArray in *. same_types. revert Hel.
  match goal with
  | |- context [array_ ?r] => destruct (array_ r) as [array|]
  end; [|reflexivity].
  intros Hel. unfold IsNull, value_at. now rewrite Hel.
Qed.

Lemma string_Elt_outside b (s : session AltrepVectorString.Alt) i :
  AltrepVectorString.Representation (object s) = None ->
  element (R_altrep_data1 (object s)) i = None ->
  AltrepVectorString.Elt b s i = (undefined, s).
Proof.
  intros Hrep Hel. unfold AltrepVectorString.Elt. rewrite Hrep.
  unfold element, AltrepVectorString.GetChunkedArray,
    AltrepVectorBase.GetChunkedArray in *. same_types.
  revert Hel.
  match goal with
  | |- context [array_ ?r] => destruct (array_ r) as [array|]
  end; [|reflexivity].
  intros Hel. unfold AltrepVectorString.RStringViewer.Convert. simpl.
  unfold IsNull, value_at. now rewrite Hel.
Qed.

Lemma read_outside {T} (buffer : list T) i :
  ~ 0 <= i < Z.of_nat (List.length buffer) -> read buffer i = None.
Proof.
  intros Hout. unfold read. destruct (i <? 0) eqn:E; [reflexivity|].
  apply Z.ltb_ge in E. apply nth_error_None. lia.
Qed.

Lemma codes_length (alt : AltrepFactor.Alt) :
  Z.of_nat (List.length (codes alt)) = AltrepFactor.Length alt.
Proof. apply render_length. Qed.

(** X3: the element accessors read inside the vector only.  [Elt] of a
    primitive vector and of a factor R can reach comes to a value exactly
    when the index is at least 0 and less than the length; any other index
    is a read through a null pointer or outside a buffer.  So it is for a
    string vector that is not materialized, where the read comes to a
    value or to the R error about a nul, but for one case inside the
    vector: a string with a nul and a percent sign, read with
    arrow.skip_nul off, whose error text is printed as a format. *)
Theorem Elt_is_defined_in_range_only :
  (forall sexp_type (alt : AltrepVectorPrimitive.Alt sexp_type) i,
      AltrepVectorPrimitive.Elt sexp_type alt i <> None
      <-> 0 <= i < AltrepVectorPrimitive.Length sexp_type alt)
  /\ (forall (s : session AltrepFactor.Alt) i,
        reachable_factor s ->
        (AltrepFactor.Elt (object s) i <> None
         <-> 0 <= i < AltrepFactor.Length (object s)))
  /\ (forall b (s : session AltrepVectorString.Alt) i,
        AltrepVectorString.Representation (object s) = None ->
        (fst (AltrepVectorString.Elt b s i) <> undefined ->
         0 <= i < AltrepVectorString.Length (object s))
        /\ (0 <= i < AltrepVectorString.Length (object s) ->
            fst (AltrepVectorString.Elt b s i) = undefined ->
            b = false
            /\ exists view,
                 element (R_altrep_data1 (object s)) i = Some (true, view)
                 /\ existsb is_nul view = true
                 /\ existsb is_percent view = true)).
Proof.
  split; [|split].
  - intros sexp_type alt i. split.
    + intros Hdef.
      destruct (Z_le_dec 0 i) as [H0|H0];
        [destruct (Z_lt_dec i (AltrepVectorPrimitive.Length sexp_type alt))
           as [H1|H1]; [lia|]|];
        exfalso; apply Hdef; rewrite primitive_Elt_element;
        rewrite element_outside; auto;
        unfold AltrepVectorPrimitive.Length, AltrepVectorBase.Length,
          AltrepVectorBase.GetChunkedArray in *; lia.
    + intros Hi. destruct (primitive_Elt_values sexp_type alt i Hi) as [_ [v ->]].
      discriminate.
  - intros s i Hs. destruct (reachable_factor_inv s Hs) as [Hvalid _]. split.
    + intros Hdef.
      destruct (Z_le_dec 0 i) as [H0|H0];
        [destruct (Z_lt_dec i (AltrepFactor.Length (object s)))
           as [H1|H1]; [lia|]|];
        exfalso; apply Hdef;
        (destruct (AltrepFactor.Representation (object s)) as [data2|] eqn:Hrep;
         [ unfold AltrepFactor.Elt; rewrite Hrep;
           rewrite (proj2 Hvalid data2 Hrep);
           apply read_outside; rewrite codes_length; lia
         | apply factor_Elt_outside; [exact Hrep|];
           apply element_outside;
           unfold AltrepFactor.Length, AltrepVectorBase.Length,
             AltrepVectorBase.GetChunkedArray in *; same_types; lia ]).
    + intros Hi. destruct (factor_Elt_any (object s) i Hvalid Hi) as [_ [v ->]].
      discriminate.
  - intros b s i Hrep. split.
    + intros Hdef.
      destruct (Z_le_dec 0 i) as [H0|H0];
        [destruct (Z_lt_dec i (AltrepVectorString.Length (object s)))
           as [H1|H1]; [lia|]|];
        exfalso; apply Hdef;
        rewrite string_Elt_outside; auto;
        apply element_outside;
        unfold AltrepVectorString.Length, AltrepVectorBase.Length,
          AltrepVectorBase.GetChunkedArray in *; same_types; lia.
    + intros Hi.
      destruct (element_in_range (R_altrep_data1 (object s)) i Hi)
        as [_ [[valid view] Hslot]].
      rewrite (string_Elt_unmaterialized b s i _ Hrep Hslot).
      destruct (embedded_nul (valid, view)) eqn:Hemb;
        [|cbn [andb]; discriminate].
      destruct b; [cbn [andb negb]; discriminate|].
      cbn [andb negb fst snd]. intros Hundef.
      apply andb_prop in Hemb as [Hvalid Hnul]. cbn [fst snd] in *.
      subst valid. split; [reflexivity|]. exists view.
      split; [exact Hslot|]. split; [exact Hnul|].
      destruct (existsb is_percent view) eqn:Hp; [reflexivity|].
      destruct (@Error_raises CHARSXP view Hp) as [message Hm].
      rewrite Hm in Hundef. discriminate.
Qed.

Lemma Elt_is_defined_in_range_only_witness :
  (AltrepVectorPrimitive.Elt INTSXP (object example_int_session) 2 <> None
   /\ 0 <= 2 < AltrepVectorPrimitive.Length INTSXP (object example_int_session))
  /\ (reachable_factor example_factor_session
      /\ AltrepFactor.Elt (object example_factor_session) 5 = None)
  /\ (AltrepVectorString.Representation (object example_string_session) = None
      /\ fst (AltrepVectorString.Elt false example_string_session 2)
         <> undefined
      /\ 0 <= 2 < AltrepVectorString.Length (object example_string_session)).
Proof.
  destruct Elt_is_defined_in_range_only as (Hp & Hf & Hs).
  split; [|split].
  - assert (H : AltrepVectorPrimitive.Elt INTSXP (object example_int_session) 2
                <> None) by (vm_compute; discriminate).
    split; [exact H|]. apply (Hp INTSXP (object example_int_session) 2), H.
  - split; [exact example_factor_reachable|].
    destruct (AltrepFactor.Elt (object example_factor_session) 5) eqn:E;
      [|reflexivity].
    exfalso.
    assert (H : AltrepFactor.Elt (object example_factor_session) 5 <> None)
      by (rewrite E; discriminate).
    apply (Hf example_factor_session 5 example_factor_reachable) in H.
    vm_compute in H. destruct H as [_ H]. discriminate.
  - assert (H : fst (AltrepVectorString.Elt false example_string_session 2)
                <> undefined) by (vm_compute; discriminate).
    split; [reflexivity|]. split; [exact H|].
    apply (proj1 (Hs false example_string_session 2 eq_refl) H).
Defined.

(** ** More on the region copy *)

Lemma Standard_Get_region_rest {T} (data2 : vector T) i n buf :
  n <= Z.of_nat (List.length buf) ->
  List.length (snd (Standard_Get_region data2 i n buf)) = List.length buf
  /\ forall k,
       fst (Standard_Get_region data2 i n buf) <= k ->
       read (snd (Standard_Get_region data2 i n buf)) k = read buf k.
Proof.
  intros Hn. unfold Standard_Get_region; simpl.
  set (region := firstn (Z.to_nat n) (skipn (Z.to_nat i) (DATAPTR data2))).
  assert (Hr : (List.length region <= List.length buf)%nat).
  { subst region. rewrite length_firstn. lia. }
  split.
  - rewrite length_app, length_skipn. lia.
  - intros k Hk. unfold read.
    destruct (k <? 0) eqn:E; [reflexivity|]. apply Z.ltb_ge in E.
    rewrite nth_error_app2 by lia. rewrite nth_error_skipn. f_equal. lia.
Qed.

Lemma firstn_plus {T} (a b : nat) (l : list T) :
  firstn (a + b) l = firstn a l ++ firstn b (skipn a l).
Proof.
  revert l; induction a as [|a IH]; intros [|x l]; simpl;
    rewrite ?firstn_nil; auto.
  now rewrite IH.
Qed.

Lemma Standard_Get_region_parts {T} (data2 : vector T) i n1 n2 b1 b2 :
  0 <= i ->
  0 <= n2 ->
  n1 = Z.of_nat (List.length b1) ->
  i + n1 <= Z.of_nat (List.length (DATAPTR data2)) ->
  Standard_Get_region data2 i (n1 + n2) (b1 ++ b2)
  = (fst (Standard_Get_region data2 i n1 b1)
     + fst (Standard_Get_region data2 (i + n1) n2 b2),
     snd (Standard_Get_region data2 i n1 b1)
     ++ snd (Standard_Get_region data2 (i + n1) n2 b2)).
Proof.
  intros Hi H2 H1 HL. unfold Standard_Get_region; simpl.
  replace (Z.to_nat (n1 + n2)) with (Z.to_nat n1 + Z.to_nat n2)%nat by lia.
  replace (Z.to_nat (i + n1)) with (Z.to_nat n1 + Z.to_nat i)%nat by lia.
  rewrite firstn_plus, skipn_skipn.
  set (r1 := firstn (Z.to_nat n1) (skipn (Z.to_nat i) (DATAPTR data2))).
  set (r2 := firstn (Z.to_nat n2)
               (skipn (Z.to_nat n1 + Z.to_nat i) (DATAPTR data2))).
  assert (Hr1 : List.length r1 = List.length b1).
  { subst r1. rewrite length_firstn, length_skipn. lia. }
  f_equal.
  - rewrite length_app. lia.
  - rewrite length_app, skipn_app, Hr1.
    rewrite (skipn_all2 b1) by lia. rewrite (skipn_all2 b1) by lia.
    replace (List.length b1 + List.length r2 - List.length b1)%nat
      with (List.length r2) by lia.
    simpl. now rewrite app_nil_r, <- app_assoc.
Qed.

Lemma values_length sexp_type (alt : AltrepVectorPrimitive.Alt sexp_type) :
  Z.of_nat (List.length (render (shown sexp_type) 0 (R_altrep_data1 alt)))
  = AltrepVectorPrimitive.Length sexp_type alt.
Proof. apply render_length. Qed.

(** X4: the region copy writes the values it counts and nothing else.  For
    a request with [0 <= start] and a buffer with room for [n] values, the
    buffer keeps its length and every position of it from the returned
    count on holds what it held before the call: [Get_region] never writes
    past the values it reports.  For the primitive class and for the
    factor class. *)
Theorem Get_region_leaves_the_rest_of_the_buffer :
  (forall sexp_type (s : session (AltrepVectorPrimitive.Alt sexp_type))
          start n buf,
      reachable_primitive sexp_type s ->
      0 <= start ->
      n <= Z.of_nat (List.length buf) ->
      let out :=
        AltrepVectorPrimitive.Get_region sexp_type (object s) start n buf in
      List.length (snd out) = List.length buf
      /\ forall k, fst out <= k -> read (snd out) k = read buf k)
  /\ (forall (s : session AltrepFactor.Alt) start n buf,
        reachable_factor s ->
        0 <= start ->
        n <= Z.of_nat (List.length buf) ->
        exists ncopy out,
          AltrepFactor.Get_region (object s) start n buf = Some (ncopy, out)
          /\ List.length out = List.length buf
          /\ forall k, ncopy <= k -> read out k = read buf k).
Proof.
  split.
  - intros sexp_type s start n buf Hs H0 Hn out. subst out.
    rewrite (primitive_Get_region_any sexp_type (object s) start n buf
               (reachable_primitive_consistent sexp_type s Hs) H0 Hn).
    now apply Standard_Get_region_rest.
  - intros s start n buf Hs H0 Hn.
    destruct (reachable_factor_inv s Hs) as [Hvalid _].
    rewrite (factor_Get_region_any (object s) start n buf Hvalid H0 Hn).
    eexists _, _. split; [apply f_equal, surjective_pairing|].
    now apply Standard_Get_region_rest.
Qed.

Lemma Get_region_leaves_the_rest_of_the_buffer_witness :
  (let out :=
     AltrepVectorPrimitive.Get_region INTSXP (object example_int_session) 1 2
       [0; 0; 8; 9] in
   reachable_primitive INTSXP example_int_session
   /\ 0 <= 1
   /\ 2 <= Z.of_nat (List.length [0; 0; 8; 9])
   /\ List.length (snd out) = List.length [0; 0; 8; 9]
   /\ forall k, fst out <= k -> read (snd out) k = read [0; 0; 8; 9] k)
  /\ (reachable_factor example_factor_session
      /\ 0 <= 4
      /\ 3 <= Z.of_nat (List.length [0; 0; 8; 9])
      /\ exists ncopy out,
           AltrepFactor.Get_region (object example_factor_session) 4 3
             [0; 0; 8; 9] = Some (ncopy, out)
           /\ List.length out = List.length [0; 0; 8; 9]
           /\ forall k, ncopy <= k -> read out k = read [0; 0; 8; 9] k).
Proof.
  destruct Get_region_leaves_the_rest_of_the_buffer as [Hp Hf].
  split.
  - intros out.
    assert (Hs : reachable_primitive INTSXP example_int_session)
      by apply primitive_made.
    split; [exact Hs|]. split; [lia|]. split; [simpl; lia|].
    apply (Hp INTSXP example_int_session 1 2 [0; 0; 8; 9] Hs);
      [lia|simpl; lia].
  - split; [exact example_factor_reachable|]. split; [lia|].
    split; [simpl; lia|].
    apply (Hf example_factor_session 4 3 [0; 0; 8; 9]
              example_factor_reachable); [lia|simpl; lia].
Defined.

(** X5: a region can be fetched in two parts.  When the first request is
    served in full ([start + n1] does not go beyond the length) and fills
    its buffer, a second request that starts where the first ended writes,
    behind the first, exactly what one request for [n1 + n2] values writes
    to the two buffers laid end to end; the counts add up.  For the
    primitive class and for the factor class. *)
Theorem Get_region_in_two_parts :
  (forall sexp_type (s : session (AltrepVectorPrimitive.Alt sexp_type))
          start n1 n2 b1 b2,
      reachable_primitive sexp_type s ->
      0 <= start ->
      0 <= n2 ->
      n1 = Z.of_nat (List.length b1) ->
      n2 <= Z.of_nat (List.length b2) ->
      start + n1 <= AltrepVectorPrimitive.Length sexp_type (object s) ->
      let first :=
        AltrepVectorPrimitive.Get_region sexp_type (object s) start n1 b1 in
      let second :=
        AltrepVectorPrimitive.Get_region sexp_type (object s) (start + n1) n2
          b2 in
      AltrepVectorPrimitive.Get_region sexp_type (object s) start (n1 + n2)
        (b1 ++ b2)
      = (fst first + fst second, snd first ++ snd second))
  /\ (forall (s : session AltrepFactor.Alt) start n1 n2 b1 b2,
        reachable_factor s ->
        0 <= start ->
        0 <= n2 ->
        n1 = Z.of_nat (List.length b1) ->
        n2 <= Z.of_nat (List.length b2) ->
        start + n1 <= AltrepFactor.Length (object s) ->
        exists first second,
          AltrepFactor.Get_region (object s) start n1 b1 = Some first
          /\ AltrepFactor.Get_region (object s) (start + n1) n2 b2
             = Some second
          /\ AltrepFactor.Get_region (object s) start (n1 + n2) (b1 ++ b2)
             = Some (fst first + fst second, snd first ++ snd second)).
Proof.
  split.
  - intros sexp_type s start n1 n2 b1 b2 Hs H0 H2 H1 Hn2 HL first second.
    subst first second.
    pose proof (reachable_primitive_consistent sexp_type s Hs) as Hc.
    rewrite !(primitive_Get_region_any sexp_type (object s))
      by (auto; rewrite ?length_app; lia).
    apply Standard_Get_region_parts; auto.
    simpl. rewrite values_length. exact HL.
  - intros s start n1 n2 b1 b2 Hs H0 H2 H1 Hn2 HL.
    destruct (reachable_factor_inv s Hs) as [Hvalid _].
    rewrite !(factor_Get_region_any (object s))
      by (auto; rewrite ?length_app; lia).
    eexists _, _. split; [reflexivity|]. split; [reflexivity|].
    f_equal. apply Standard_Get_region_parts; auto.
    simpl. rewrite codes_length. exact HL.
Qed.

Lemma Get_region_in_two_parts_witness :
  (reachable_primitive INTSXP example_int_session
   /\ AltrepVectorPrimitive.Get_region INTSXP (object example_int_session) 0
        (2 + 3) ([0; 0] ++ [0; 0; 0])
      = (fst (AltrepVectorPrimitive.Get_region INTSXP
                (object example_int_session) 0 2 [0; 0])
         + fst (AltrepVectorPrimitive.Get_region INTSXP
                  (object example_int_session) (0 + 2) 3 [0; 0; 0]),
         snd (AltrepVectorPrimitive.Get_region INTSXP
                (object example_int_session) 0 2 [0; 0])
         ++ snd (AltrepVectorPrimitive.Get_region INTSXP
                   (object example_int_session) (0 + 2) 3 [0; 0; 0])))
  /\ (reachable_factor example_factor_session
      /\ exists first second,
           AltrepFactor.Get_region (object example_factor_session) 1 2 [0; 0]
           = Some first
           /\ AltrepFactor.Get_region (object example_factor_session) (1 + 2)
                2 [0; 0] = Some second
           /\ AltrepFactor.Get_region (object example_factor_session) 1
                (2 + 2) ([0; 0] ++ [0; 0])
              = Some (fst first + fst second, snd first ++ snd second)).
Proof.
  destruct Get_region_in_two_parts as [Hp Hf].
  split.
  - assert (Hs : reachable_primitive INTSXP example_int_session)
      by apply primitive_made.
    split; [exact Hs|].
    apply (Hp INTSXP example_int_session 0 2 3 [0; 0] [0; 0; 0] Hs);
      try reflexivity; try lia; evaluated.
  - split; [exact example_factor_reachable|].
    apply (Hf example_factor_session 1 2 2 [0; 0] [0; 0]
              example_factor_reachable);
      try reflexivity; try lia; evaluated.
Defined.

(** ** Data pointers *)

(** X6: [Dataptr] of a primitive vector always hands R a pointer that is
    not null, whatever [writeable] is, and [Dataptr_or_null] returns the
    same pointer from then on.  It is the pointer into the buffer of the
    chunk, with the session left as it is (nothing is materialized),
    exactly when the vector is not materialized and the array has one chunk
    and no nulls; in every other case the vector is materialized and the
    pointer is that of the cache. *)
Theorem primitive_Dataptr_gives_the_data sexp_type
  (s : session (AltrepVectorPrimitive.Alt sexp_type)) (writeable : bool) :
  let alt := object s in
  let chunked_array := AltrepVectorPrimitive.GetChunkedArray sexp_type alt in
  exists p s',
    AltrepVectorPrimitive.Dataptr sexp_type s writeable = (Ok p, s')
    /\ p <> nullptr
    /\ AltrepVectorPrimitive.Dataptr_or_null sexp_type (object s') = p
    /\ AltrepVectorPrimitive.Dataptr sexp_type s (negb writeable) = (Ok p, s')
    /\ (p = into_chunk 0
        <-> AltrepVectorPrimitive.IsMaterialized sexp_type alt = false
            /\ num_chunks chunked_array = 1
            /\ ChunkedArray_null_count chunked_array = 0)
    /\ (p = into_chunk 0 -> s' = s)
    /\ (p <> into_chunk 0 ->
        exists data2,
          AltrepVectorPrimitive.Materialize sexp_type s = (Ok (Some data2), s')
          /\ AltrepVectorPrimitive.Representation sexp_type (object s')
             = Some data2
          /\ p = into_vector (address data2)).
Proof.
  intros alt chunked_array.
  unfold AltrepVectorPrimitive.Dataptr.
  fold alt. fold chunked_array.
  destruct (negb (AltrepVectorPrimitive.IsMaterialized sexp_type alt)
            && ((num_chunks chunked_array =? 1)
                && (ChunkedArray_null_count chunked_array =? 0))) eqn:E.
  - apply andb_true_iff in E as [E1 E2]. apply andb_true_iff in E2 as [E2 E3].
    apply negb_true_iff in E1. apply Z.eqb_eq in E2, E3.
    exists (into_chunk 0), s. split; [reflexivity|]. split; [discriminate|].
    split.
    + unfold AltrepVectorPrimitive.Dataptr_or_null.
      fold alt. fold chunked_array.
      unfold AltrepVectorPrimitive.IsMaterialized,
        AltrepVectorBase.IsMaterialized in E1.
      destruct (AltrepVectorPrimitive.Representation sexp_type alt);
        [discriminate|].
      rewrite E2, E3. reflexivity.
    + split; [reflexivity|]. split; [tauto|]. split; [reflexivity|].
      intros H. now contradiction H.
  - destruct (primitive_Materialize_cases sexp_type s)
      as (data2 & s' & HM & Hrep & _).
    rewrite HM. simpl.
    exists (into_vector (address data2)), s'.
    split; [reflexivity|]. split; [discriminate|]. split.
    + unfold AltrepVectorPrimitive.Dataptr_or_null. now rewrite Hrep.
    + split; [reflexivity|]. split.
      * split; [discriminate|]. intros (H1 & H2 & H3).
        rewrite H1, H2, H3 in E. discriminate.
      * split; [discriminate|]. intros _. exists data2. auto.
Qed.

Lemma null_count_zero {D T} (c : Array D T) :
  null_count c = 0 <-> forallb fst (slots c) = true.
Proof.
  unfold null_count. induction (slots c) as [|[[|] v] sl IH]; simpl.
  - tauto.
  - exact IH.
  - split; [lia|discriminate].
Qed.

Lemma ChunkedArray_null_count_zero {D T} (ca : ChunkedArray D T) :
  ChunkedArray_null_count ca = 0 <-> forallb fst (positions ca) = true.
Proof.
  induction ca as [|c ca IH]; simpl.
  - unfold positions; simpl. tauto.
  - rewrite positions_cons, forallb_app, andb_true_iff, <- IH,
      <- null_count_zero.
    pose proof (null_count_le c). pose proof (ChunkedArray_null_count_le ca).
    lia.
Qed.

Lemma all_valid_shown sexp_type (sl : list (bool * c_type sexp_type)) :
  forallb fst sl = true -> map (shown sexp_type 0 tt) sl = map snd sl.
Proof.
  induction sl as [|[[|] v] sl IH]; simpl; intros H;
    [reflexivity| |discriminate].
  now rewrite IH.
Qed.

(** X7: the pointer into the chunk is a pointer to the elements.  Whenever
    [Dataptr_or_null] of a primitive vector answers with the pointer into
    the buffer of chunk 0, that chunk is the whole array and its raw value
    buffer holds, position by position, what [Elt] returns, and it is the
    payload [Materialize] would build: reading through the pointer is
    reading the vector. *)
Theorem zero_copy_pointer_reads_the_elements sexp_type
  (s : session (AltrepVectorPrimitive.Alt sexp_type)) :
  AltrepVectorPrimitive.Dataptr_or_null sexp_type (object s) = into_chunk 0 ->
  exists chunk,
    AltrepVectorPrimitive.GetChunkedArray sexp_type (object s) = [chunk]
    /\ Z.of_nat (List.length (GetValues chunk))
       = AltrepVectorPrimitive.Length sexp_type (object s)
    /\ (forall i,
          0 <= i < AltrepVectorPrimitive.Length sexp_type (object s) ->
          exists v,
            read (GetValues chunk) i = Some v
            /\ AltrepVectorPrimitive.Elt sexp_type (object s) i = Some v)
    /\ exists data2 s',
         AltrepVectorPrimitive.Materialize sexp_type s = (Ok (Some data2), s')
         /\ DATAPTR data2 = GetValues chunk.
Proof.
  intros Hp. unfold AltrepVectorPrimitive.Dataptr_or_null in Hp.
  destruct (AltrepVectorPrimitive.Representation sexp_type (object s))
    as [data2|] eqn:Hrep; [discriminate|].
  destruct ((num_chunks (AltrepVectorPrimitive.GetChunkedArray sexp_type
                           (object s)) =? 1)
            && (ChunkedArray_null_count
                  (AltrepVectorPrimitive.GetChunkedArray sexp_type (object s))
                =? 0)) eqn:E; [|discriminate].
  apply andb_true_iff in E as [E1 E2]. apply Z.eqb_eq in E1, E2.
  unfold AltrepVectorPrimitive.GetChunkedArray,
    AltrepVectorBase.GetChunkedArray in *.
  assert (Hvalues : exists chunk,
             R_altrep_data1 (object s) = [chunk]
             /\ render (shown sexp_type) 0 (R_altrep_data1 (object s))
                = GetValues chunk).
  { destruct (R_altrep_data1 (object s)) as [|chunk [|c' rest]];
      unfold num_chunks in E1; simpl in E1; try lia.
    exists chunk. split; [reflexivity|]. simpl. rewrite app_nil_r.
    apply all_valid_shown. apply null_count_zero. simpl in E2. lia. }
  destruct Hvalues as (chunk & Hca & Hvalues).
  exists chunk. split; [exact Hca|].
  split; [rewrite <- Hvalues; apply values_length|]. split.
  - intros i Hi.
    destruct (primitive_Elt_values sexp_type (object s) i Hi) as [Heq [v Hv]].
    exists v. split; [|exact Hv].
    rewrite read_nth_error by lia. rewrite <- Hvalues, <- Heq. exact Hv.
  - exists (fst (primitive_materialized sexp_type s)),
           (snd (primitive_materialized sexp_type s)).
    split; [now apply primitive_Materialize_first|]. exact Hvalues.
Qed.

Lemma zero_copy_pointer_reads_the_elements_witness :
  let s : session (AltrepVectorPrimitive.Alt REALSXP) :=
    mkSession (AltrepVectorBase.Make example_doubles) 0 [] in
  AltrepVectorPrimitive.Dataptr_or_null REALSXP (object s) = into_chunk 0
  /\ exists chunk,
       AltrepVectorPrimitive.GetChunkedArray REALSXP (object s) = [chunk]
       /\ Z.of_nat (List.length (GetValues chunk))
          = AltrepVectorPrimitive.Length REALSXP (object s)
       /\ (forall i,
             0 <= i < AltrepVectorPrimitive.Length REALSXP (object s) ->
             exists v,
               read (GetValues chunk) i = Some v
               /\ AltrepVectorPrimitive.Elt REALSXP (object s) i = Some v)
       /\ exists data2 s',
            AltrepVectorPrimitive.Materialize REALSXP s
            = (Ok (Some data2), s')
            /\ DATAPTR data2 = GetValues chunk.
Proof.
  intros s. split; [reflexivity|].
  apply (zero_copy_pointer_reads_the_elements REALSXP s). reflexivity.
Defined.

Lemma No_NA_all_valid {D T D2} (alt : altrep (ChunkedArray D T) D2) :
  AltrepVectorBase.No_NA alt = true
  <-> forall i slot,
        element (R_altrep_data1 alt) i = Some slot -> fst slot = true.
Proof.
  unfold AltrepVectorBase.No_NA, AltrepVectorBase.GetChunkedArray.
  rewrite Z.eqb_eq, ChunkedArray_null_count_zero, forallb_forall. split.
  - intros H i slot Hel. apply H.
    destruct (element_positions _ i slot Hel) as [_ Hnth].
    eapply nth_error_In, Hnth.
  - intros H slot Hin. apply In_nth_error in Hin as [n Hn].
    apply (H (Z.of_nat n)).
    assert (Hlt : (n < List.length (positions (R_altrep_data1 alt)))%nat)
      by (apply nth_error_Some; congruence).
    unfold positions in Hlt.
    pose proof (render_length (fun _ _ (slot : bool * T) => slot) 0
                  (R_altrep_data1 alt)) as Hlen.
    destruct (element_in_range (R_altrep_data1 alt) (Z.of_nat n)) as [-> _];
      [lia|].
    now rewrite Nat2Z.id.
Qed.

(** X8: [No_NA] answers true exactly when no position of the array is
    null, for every class.  For a primitive vector [Elt] then returns the
    raw value of the position at every index: no sentinel is put in. *)
Theorem No_NA_means_raw_values :
  (forall D T D2 (alt : altrep (ChunkedArray D T) D2),
      AltrepVectorBase.No_NA alt = true
      <-> forall i slot,
            element (R_altrep_data1 alt) i = Some slot -> fst slot = true)
  /\ (forall sexp_type (alt : AltrepVectorPrimitive.Alt sexp_type) i,
        AltrepVectorBase.No_NA alt = true ->
        AltrepVectorPrimitive.Elt sexp_type alt i
        = option_map snd (element (R_altrep_data1 alt) i)).
Proof.
  split; [intros D T D2 alt; apply No_NA_all_valid|].
  intros sexp_type alt i Hno. rewrite primitive_Elt_element.
  destruct (element (R_altrep_data1 alt) i) as [slot|] eqn:E; [|reflexivity].
  simpl. unfold shown.
  now rewrite (proj1 (No_NA_all_valid alt) Hno i slot E).
Qed.

Lemma No_NA_means_raw_values_witness :
  let alt : AltrepVectorPrimitive.Alt REALSXP :=
    AltrepVectorBase.Make example_doubles in
  AltrepVectorBase.No_NA alt = true
  /\ AltrepVectorPrimitive.Elt REALSXP alt 1
     = option_map snd (element (R_altrep_data1 alt) 1)
  /\ AltrepVectorBase.No_NA (object example_int_session) = false.
Proof.
  intros alt. split; [reflexivity|]. split; [|reflexivity].
  apply (proj2 No_NA_means_raw_values REALSXP alt 1). reflexivity.
Defined.

(** ** Duplicates and serialization *)

Lemma primitive_Materialize_allocated sexp_type
  (s : session (AltrepVectorPrimitive.Alt sexp_type)) :
  primitive_cache_allocated sexp_type s ->
  primitive_cache_allocated sexp_type
    (snd (AltrepVectorPrimitive.Materialize sexp_type s))
  /\ (allocated s
      <= allocated (snd (AltrepVectorPrimitive.Materialize sexp_type s)))%nat.
Proof.
  intros Hinv.
  destruct (primitive_Materialize_cases sexp_type s)
    as (data2 & s' & HM & Hrep & _ & Hold & Hnew).
  rewrite HM. simpl.
  destruct (AltrepVectorPrimitive.Representation sexp_type (object s))
    as [old|] eqn:E.
  - destruct (Hold old eq_refl) as [_ ->]. split; [exact Hinv|lia].
  - specialize (Hnew eq_refl). injection Hnew as -> ->. split.
    + intros d Hd. simpl in Hd. injection Hd as <-. simpl. same_alts. lia.
    + simpl. same_alts. lia.
Qed.

Lemma call_primitive_allocated sexp_type m
  (s : session (AltrepVectorPrimitive.Alt sexp_type)) :
  primitive_cache_allocated sexp_type s ->
  primitive_cache_allocated sexp_type (call_primitive sexp_type m s).
Proof.
  intros Hinv.
  destruct (primitive_Materialize_allocated sexp_type s Hinv) as [HM _].
  destruct (primitive_Materialize_cases sexp_type s)
    as (data2 & s' & HMeq & _).
  rewrite HMeq in HM. simpl in HM.
  destruct m; simpl; auto;
    unfold AltrepVectorPrimitive.Duplicate, AltrepVectorPrimitive.Coerce,
      AltrepVectorPrimitive.Serialized_state, AltrepVectorPrimitive.Dataptr,
      AltrepVectorBase.Duplicate, AltrepVectorBase.Coerce,
      AltrepVectorBase.Serialized_state;
    rewrite ?HMeq; simpl; auto.
  - intros d Hd. simpl in *. specialize (HM d Hd). same_alts. lia.
  - intros d Hd. simpl in *. specialize (HM d Hd). same_alts. lia.
  - destruct (negb _ && _); simpl; auto.
Qed.

Lemma reachable_primitive_allocated sexp_type
  (s : session (AltrepVectorPrimitive.Alt sexp_type)) :
  reachable_primitive sexp_type s -> primitive_cache_allocated sexp_type s.
Proof.
  induction 1 as [ca n w|m s Hs IH].
  - intros d Hd. discriminate.
  - now apply call_primitive_allocated.
Qed.

(** X9: [Duplicate] of a primitive vector materializes it and hands back a
    copy of the cache: a vector with the same payload, element [i] being
    what [Elt] returns at [i], at an address of its own that was free
    before the call.  The duplicate is never the cache itself, so writing
    to it leaves the vector as it is. *)
Theorem Duplicate_is_a_fresh_copy sexp_type
  (s : session (AltrepVectorPrimitive.Alt sexp_type)) :
  reachable_primitive sexp_type s ->
  exists copy data2 s',
    AltrepVectorPrimitive.Duplicate sexp_type s = (Ok (Some copy), s')
    /\ AltrepVectorPrimitive.Representation sexp_type (object s') = Some data2
    /\ DATAPTR copy = DATAPTR data2
    /\ (forall i,
          0 <= i < AltrepVectorPrimitive.Length sexp_type (object s) ->
          exists v,
            AltrepVectorPrimitive.Elt sexp_type (object s) i = Some v
            /\ read (DATAPTR copy) i = Some v)
    /\ address copy <> address data2
    /\ (allocated s <= address copy < allocated s')%nat.
Proof.
  intros Hs.
  pose proof (reachable_primitive_allocated sexp_type s Hs) as Hinv.
  pose proof (reachable_primitive_consistent sexp_type s Hs) as Hcons.
  destruct (primitive_Materialize_allocated sexp_type s Hinv) as [Hinv' Hle].
  pose proof (primitive_Materialize_consistent sexp_type s Hcons) as Hcons'.
  destruct (primitive_Materialize_cases sexp_type s)
    as (data2 & s' & HM & Hrep & H1 & _).
  rewrite HM in Hinv', Hle, Hcons'. simpl in Hinv', Hle, Hcons'.
  unfold AltrepVectorPrimitive.Duplicate, AltrepVectorBase.Duplicate.
  rewrite HM.
  exists (Rf_duplicate data2 (allocated s')), data2,
         (mkSession (object s') (S (allocated s')) (warnings s')).
  split; [reflexivity|]. split; [exact Hrep|]. split; [reflexivity|].
  specialize (Hinv' data2 Hrep). split; [|simpl; same_alts; lia].
  intros i Hi.
  destruct (primitive_Elt_values sexp_type (object s) i Hi) as [Heq [v Hv]].
  exists v. split; [exact Hv|]. simpl.
  rewrite (Hcons' data2 Hrep), H1, read_nth_error by lia.
  now rewrite <- Heq.
Qed.

Lemma Duplicate_is_a_fresh_copy_witness :
  reachable_primitive INTSXP example_int_session
  /\ exists copy data2 s',
       AltrepVectorPrimitive.Duplicate INTSXP example_int_session
       = (Ok (Some copy), s')
       /\ AltrepVectorPrimitive.Representation INTSXP (object s') = Some data2
       /\ DATAPTR copy = DATAPTR data2
       /\ (forall i,
             0 <= i
               < AltrepVectorPrimitive.Length INTSXP
                   (object example_int_session) ->
             exists v,
               AltrepVectorPrimitive.Elt INTSXP (object example_int_session) i
               = Some v
               /\ read (DATAPTR copy) i = Some v)
       /\ address copy <> address data2
       /\ (allocated example_int_session <= address copy < allocated s')%nat.
Proof.
  assert (Hs : reachable_primitive INTSXP example_int_session)
    by apply primitive_made.
  split; [exact Hs|].
  apply (Duplicate_is_a_fresh_copy INTSXP example_int_session Hs).
Defined.

(** X10: serializing and unserializing gives the vector back as a standard
    one.  [Serialized_state] is the materialized vector and [Unserialize]
    returns the state it is given, so the vector R rebuilds has the length
    of the lazy vector and holds at every index what [Elt] returned.  For
    the primitive class and for the factor class. *)
Theorem Serialized_state_round_trip :
  (forall sexp_type (s : session (AltrepVectorPrimitive.Alt sexp_type)),
      reachable_primitive sexp_type s ->
      exists state v s',
        AltrepVectorPrimitive.Serialized_state sexp_type s = (Ok state, s')
        /\ AltrepVectorBase.Unserialize state = Some v
        /\ Z.of_nat (List.length (DATAPTR v))
           = AltrepVectorPrimitive.Length sexp_type (object s)
        /\ forall i,
             0 <= i < AltrepVectorPrimitive.Length sexp_type (object s) ->
             exists x,
               AltrepVectorPrimitive.Elt sexp_type (object s) i = Some x
               /\ read (DATAPTR v) i = Some x)
  /\ (forall s : session AltrepFactor.Alt,
        reachable_factor s ->
        exists state v s',
          AltrepFactor.Serialized_state s = (Ok state, s')
          /\ AltrepVectorBase.Unserialize state = Some v
          /\ Z.of_nat (List.length (DATAPTR v)) = AltrepFactor.Length (object s)
          /\ forall i,
               0 <= i < AltrepFactor.Length (object s) ->
               exists x,
                 AltrepFactor.Elt (object s) i = Some x
                 /\ read (DATAPTR v) i = Some x).
Proof.
  split.
  - intros sexp_type s Hs.
    pose proof (reachable_primitive_consistent sexp_type s Hs) as Hcons.
    pose proof (primitive_Materialize_consistent sexp_type s Hcons) as Hcons'.
    destruct (primitive_Materialize_cases sexp_type s)
      as (data2 & s' & HM & Hrep & H1 & _).
    rewrite HM in Hcons'. simpl in Hcons'.
    exists (Some data2), data2, s'.
    unfold AltrepVectorPrimitive.Serialized_state,
      AltrepVectorBase.Serialized_state.
    split; [exact HM|]. split; [reflexivity|].
    rewrite (Hcons' data2 Hrep), H1.
    split; [apply values_length|].
    intros i Hi.
    destruct (primitive_Elt_values sexp_type (object s) i Hi) as [Heq [x Hx]].
    exists x. split; [exact Hx|].
    rewrite read_nth_error by lia. now rewrite <- Heq.
  - intros s Hs. destruct (reachable_factor_inv s Hs) as [Hvalid _].
    destruct (factor_Materialize_cases s Hvalid)
      as (data2 & s' & HM & Hrep & H1 & H2 & _ & Hvalid' & _).
    exists (Some data2), data2, s'.
    unfold AltrepFactor.Serialized_state, AltrepVectorBase.Serialized_state.
    split; [exact HM|]. split; [reflexivity|].
    assert (Hcodes : DATAPTR data2 = codes (object s)).
    { rewrite (proj2 Hvalid' data2 Hrep). unfold codes. now rewrite H1, H2. }
    rewrite Hcodes. split; [apply codes_length|].
    intros i Hi.
    destruct (factor_Elt_any (object s) i Hvalid Hi) as [Heq [x Hx]].
    exists x. split; [exact Hx|]. now rewrite <- Heq.
Qed.

Lemma Serialized_state_round_trip_witness :
  (reachable_primitive INTSXP example_int_session
   /\ exists state v s',
        AltrepVectorPrimitive.Serialized_state INTSXP example_int_session
        = (Ok state, s')
        /\ AltrepVectorBase.Unserialize state = Some v
        /\ Z.of_nat (List.length (DATAPTR v))
           = AltrepVectorPrimitive.Length INTSXP (object example_int_session)
        /\ forall i,
             0 <= i
               < AltrepVectorPrimitive.Length INTSXP
                   (object example_int_session) ->
             exists x,
               AltrepVectorPrimitive.Elt INTSXP (object example_int_session) i
               = Some x
               /\ read (DATAPTR v) i = Some x)
  /\ (reachable_factor example_factor_session
      /\ exists state v s',
           AltrepFactor.Serialized_state example_factor_session
           = (Ok state, s')
           /\ AltrepVectorBase.Unserialize state = Some v
           /\ Z.of_nat (List.length (DATAPTR v))
              = AltrepFactor.Length (object example_factor_session)
           /\ forall i,
                0 <= i < AltrepFactor.Length (object example_factor_session) ->
                exists x,
                  AltrepFactor.Elt (object example_factor_session) i = Some x
                  /\ read (DATAPTR v) i = Some x).
Proof.
  destruct Serialized_state_round_trip as [Hp Hf].
  assert (Hs : reachable_primitive INTSXP example_int_session)
    by apply primitive_made.
  split.
  - split; [exact Hs|]. apply (Hp INTSXP example_int_session Hs).
  - split; [exact example_factor_reachable|].
    apply (Hf example_factor_session example_factor_reachable).
Defined.

(** ** The vectors that are never zero-copy *)

(** X11: the factor class and the string class never point R into the
    Arrow buffers.  [Dataptr_or_null] is the null pointer exactly as long
    as the vector is not materialized, also for one chunk without nulls.
    [Dataptr] materializes: on a factor R can reach it returns the pointer
    of the cache, which [Dataptr_or_null] returns from then on; on a string
    vector it does so whenever the conversion succeeds, and when the
    conversion ends in the R error the object is as before and
    [Dataptr_or_null] is still null.  The call on a string vector is
    undefined in one case only: arrow.skip_nul is off and a string holds a
    nul and a percent sign, so that its error text is printed as a
    format. *)
Theorem factor_and_string_Dataptr :
  (forall (s : session AltrepFactor.Alt) writeable,
      reachable_factor s ->
      exists data2 s',
        AltrepFactor.Dataptr s writeable
        = (Ok (into_vector (address data2)), s')
        /\ AltrepFactor.Materialize s = (Ok (Some data2), s')
        /\ AltrepFactor.Representation (object s') = Some data2
        /\ AltrepFactor.Dataptr_or_null (object s')
           = into_vector (address data2))
  /\ (forall alt : AltrepFactor.Alt,
        AltrepFactor.Dataptr_or_null alt = nullptr
        <-> AltrepFactor.Representation alt = None)
  /\ (forall b (s : session AltrepVectorString.Alt) writeable,
        (forall p s',
            AltrepVectorString.Dataptr b s writeable = (Ok p, s') ->
            exists data2,
              p = into_vector (address data2)
              /\ AltrepVectorString.Representation (object s') = Some data2
              /\ AltrepVectorString.Dataptr_or_null (object s') = p)
        /\ (forall message s',
              AltrepVectorString.Dataptr b s writeable
              = (R_error message, s') ->
              object s' = object s
              /\ AltrepVectorString.Dataptr_or_null (object s') = nullptr)
        /\ (fst (AltrepVectorString.Dataptr b s writeable) = undefined ->
            b = false
            /\ existsb
                 (fun slot =>
                    embedded_nul slot && existsb is_percent (snd slot))
                 (positions (R_altrep_data1 (object s))) = true))
  /\ (forall alt : AltrepVectorString.Alt,
        AltrepVectorString.Dataptr_or_null alt = nullptr
        <-> AltrepVectorString.Representation alt = None).
Proof.
  split; [|split; [|split]].
  - intros s writeable Hs. destruct (reachable_factor_inv s Hs) as [Hvalid _].
    destruct (factor_Materialize_cases s Hvalid)
      as (data2 & s' & HM & Hrep & _).
    exists data2, s'. unfold AltrepFactor.Dataptr. rewrite HM.
    split; [reflexivity|]. split; [reflexivity|]. split; [exact Hrep|].
    unfold AltrepFactor.Dataptr_or_null. now rewrite Hrep.
  - intros alt. unfold AltrepFactor.Dataptr_or_null.
    destruct (AltrepFactor.Representation alt); split; auto; discriminate.
  - intros b s writeable. unfold AltrepVectorString.Dataptr.
    destruct (AltrepVectorString.Representation (object s)) as [old|] eqn:Hrep.
    { rewrite (string_Materialize_again b s old Hrep). cbn [fst].
      split; [|split; discriminate].
      intros p s' H. injection H as <- <-. exists old.
      split; [reflexivity|]. split; [exact Hrep|].
      unfold AltrepVectorString.Dataptr_or_null. now rewrite Hrep. }
    rewrite (string_Materialize_first b s Hrep).
    destruct (convert_all b (positions (R_altrep_data1 (object s))))
      as [converted|message|] eqn:E; cbn [fst].
    + split; [|split; discriminate].
      intros p s' H. injection H as <- <-.
      exists (mkVector (allocated s) converted).
      split; [reflexivity|]. split; [reflexivity|]. reflexivity.
    + split; [discriminate|]. split; [|discriminate].
      intros m s' H. injection H as <- <-. split; [reflexivity|].
      unfold AltrepVectorString.Dataptr_or_null. cbn [object].
      now rewrite Hrep.
    + split; [discriminate|]. split; [discriminate|].
      intros _. now apply convert_all_undefined.
  - intros alt. unfold AltrepVectorString.Dataptr_or_null.
    destruct (AltrepVectorString.Representation alt); split; auto;
      discriminate.
Qed.

Lemma factor_and_string_Dataptr_witness :
  (reachable_factor example_factor_session
   /\ exists data2 s',
        AltrepFactor.Dataptr example_factor_session true
        = (Ok (into_vector (address data2)), s')
        /\ AltrepFactor.Materialize example_factor_session
           = (Ok (Some data2), s')
        /\ AltrepFactor.Representation (object s') = Some data2
        /\ AltrepFactor.Dataptr_or_null (object s')
           = into_vector (address data2))
  /\ (forall message s',
        AltrepVectorString.Dataptr false example_string_session false
        = (R_error message, s') ->
        object s' = object example_string_session
        /\ AltrepVectorString.Dataptr_or_null (object s') = nullptr)
  /\ (exists message,
        fst (AltrepVectorString.Dataptr false example_string_session false)
        = R_error message)
  /\ (fst (AltrepVectorString.Dataptr false conversion_string_session false)
      = undefined
      /\ existsb
           (fun slot => embedded_nul slot && existsb is_percent (snd slot))
           (positions (R_altrep_data1 (object conversion_string_session)))
         = true).
Proof.
  destruct factor_and_string_Dataptr as (Hf & _ & Hs & _).
  split; [|split; [|split]].
  - split; [exact example_factor_reachable|].
    apply (Hf example_factor_session true example_factor_reachable).
  - apply (Hs false example_string_session false).
  - eexists. reflexivity.
  - split; [reflexivity|].
    apply (Hs false conversion_string_session false). reflexivity.
Defined.

(** X12: the duplicate of a factor is a factor.  [Duplicate] materializes
    the factor and returns the vector of codes together with the
    attributes of the lazy object: the levels and the class that [Make]
    set. *)
Theorem factor_Duplicate_keeps_the_attributes (s : session AltrepFactor.Alt) :
  reachable_factor s ->
  exists data2 levels s',
    AltrepFactor.Duplicate s = (Ok (Some data2, ATTRIB (object s)), s')
    /\ AltrepFactor.Representation (object s') = Some data2
    /\ DATAPTR data2 = codes (object s)
    /\ R_LevelsSymbol (ATTRIB (object s)) = Some levels
    /\ (R_ClassSymbol (ATTRIB (object s)) = Some classes_factor
        \/ R_ClassSymbol (ATTRIB (object s)) = Some classes_ordered).
Proof.
  intros Hs.
  destruct (reachable_factor_inv s Hs)
    as [Hvalid (ca & alt & _ & HMake & _ & _ & Hatt)].
  destruct (factor_Materialize_cases s Hvalid)
    as (data2 & s' & HM & Hrep & H1 & H2 & H3 & Hvalid' & _).
  assert (Hmade : exists levels,
             R_LevelsSymbol (ATTRIB alt) = Some levels
             /\ (R_ClassSymbol (ATTRIB alt) = Some classes_factor
                 \/ R_ClassSymbol (ATTRIB alt) = Some classes_ordered)).
  { unfold AltrepFactor.Make in HMake.
    destruct ca as [|chunk_0 rest]; [discriminate|].
    destruct (negb _); [discriminate|].
    destruct (DictionaryChunkArrayNeedUnification (chunk_0 :: rest));
      [destruct (AltrepFactor.unify_chunks [] (chunk_0 :: rest))|];
      injection HMake as <-; simpl; eexists; (split; [reflexivity|]);
      destruct (ordered (dictionary_ chunk_0)); auto. }
  destruct Hmade as (levels & Hlevels & Hclass).
  exists data2, levels, s'. unfold AltrepFactor.Duplicate. rewrite HM, H3.
  split; [reflexivity|]. split; [exact Hrep|]. split.
  - rewrite (proj2 Hvalid' data2 Hrep). unfold codes. now rewrite H1, H2.
  - rewrite Hatt. auto.
Qed.

Lemma factor_Duplicate_keeps_the_attributes_witness :
  reachable_factor example_factor_session
  /\ exists data2 levels s',
       AltrepFactor.Duplicate example_factor_session
       = (Ok (Some data2, ATTRIB (object example_factor_session)), s')
       /\ AltrepFactor.Representation (object s') = Some data2
       /\ DATAPTR data2 = codes (object example_factor_session)
       /\ R_LevelsSymbol (ATTRIB (object example_factor_session))
          = Some levels
       /\ (R_ClassSymbol (ATTRIB (object example_factor_session))
           = Some classes_factor
           \/ R_ClassSymbol (ATTRIB (object example_factor_session))
              = Some classes_ordered).
Proof.
  split; [exact example_factor_reachable|].
  apply (factor_Duplicate_keeps_the_attributes example_factor_session
           example_factor_reachable).
Defined.

(** ** What no method changes *)

Lemma primitive_Materialize_keeps sexp_type
  (s : session (AltrepVectorPrimitive.Alt sexp_type)) :
  let s' := snd (AltrepVectorPrimitive.Materialize sexp_type s) in
  R_altrep_data1 (object s') = R_altrep_data1 (object s)
  /\ ATTRIB (object s') = ATTRIB (object s)
  /\ warnings s' = warnings s.
Proof.
  unfold AltrepVectorPrimitive.Materialize.
  destruct (negb _); simpl; auto.
Qed.

Lemma factor_Materialize_keeps (s : session AltrepFactor.Alt) :
  let s' := snd (AltrepFactor.Materialize s) in
  R_altrep_data1 (object s') = R_altrep_data1 (object s)
  /\ ATTRIB (object s') = ATTRIB (object s)
  /\ AltrepFactor.CADR (R_altrep_data2 (object s'))
     = AltrepFactor.CADR (R_altrep_data2 (object s))
  /\ warnings s' = warnings s.
Proof.
  unfold AltrepFactor.Materialize.
  destruct (negb _); simpl; auto.
  destruct (AltrepFactor.Get_region _ _ _ _) as [[ncopy data]|]; simpl; auto.
Qed.

Lemma string_Materialize_keeps b (s : session AltrepVectorString.Alt) :
  let s' := snd (AltrepVectorString.Materialize b s) in
  R_altrep_data1 (object s') = R_altrep_data1 (object s)
  /\ ATTRIB (object s') = ATTRIB (object s).
Proof.
  unfold AltrepVectorString.Materialize.
  destruct (AltrepVectorString.Representation (object s)); simpl; auto.
  destruct (AltrepVectorString.convert_chunks _ _ _ _) as [[x|m|] v];
    simpl; auto.
  destruct (AltrepVectorString.RStringViewer.nul_was_stripped v); simpl; auto.
Qed.

Lemma string_Elt_object b (s : session AltrepVectorString.Alt) i :
  object (snd (AltrepVectorString.Elt b s i)) = object s.
Proof.
  unfold AltrepVectorString.Elt.
  destruct (AltrepVectorString.Representation (object s)) as [data2|].
  - destruct (read (DATAPTR data2) i); reflexivity.
  - destruct (array_ _) as [array|]; [|reflexivity].
    destruct (AltrepVectorString.RStringViewer.Convert _ _) as [[x| |] v];
      try reflexivity.
    destruct (AltrepVectorString.RStringViewer.nul_was_stripped v);
      reflexivity.
Qed.

(** X13: the Arrow array stays available.  No method R can call replaces
    the chunked array in data1 or touches the attributes of the object,
    whatever the class and whether or not the call materializes; so the
    length of the vector never changes.  The methods of the primitive
    class and of the factor class raise no warning of their own: the only
    warnings of a call are those R's coercion raises in [Coerce], after
    the materialization.  The methods of the factor class leave the
    transpose buffers alone. *)
Theorem methods_keep_the_array :
  (forall sexp_type m (s : session (AltrepVectorPrimitive.Alt sexp_type)),
      let s' := call_primitive sexp_type m s in
      R_altrep_data1 (object s') = R_altrep_data1 (object s)
      /\ ATTRIB (object s') = ATTRIB (object s)
      /\ AltrepVectorPrimitive.Length sexp_type (object s')
         = AltrepVectorPrimitive.Length sexp_type (object s)
      /\ match m with
         | call_Coerce type Rf_coerceVector =>
             match AltrepVectorPrimitive.Materialize sexp_type s with
             | (Ok x, s1) =>
                 warnings s'
                 = warnings s ++ raised (Rf_coerceVector x type (allocated s1))
             | _ => warnings s' = warnings s
             end
         | _ => warnings s' = warnings s
         end)
  /\ (forall m (s : session AltrepFactor.Alt),
        let s' := call_factor m s in
        R_altrep_data1 (object s') = R_altrep_data1 (object s)
        /\ ATTRIB (object s') = ATTRIB (object s)
        /\ AltrepFactor.CADR (R_altrep_data2 (object s'))
           = AltrepFactor.CADR (R_altrep_data2 (object s))
        /\ AltrepFactor.Length (object s') = AltrepFactor.Length (object s)
        /\ match m with
           | call_Coerce type Rf_coerceVector =>
               match AltrepFactor.Materialize s with
               | (Ok x, s1) =>
                   warnings s'
                   = warnings s
                     ++ raised (Rf_coerceVector x type (allocated s1))
               | _ => warnings s' = warnings s
               end
           | _ => warnings s' = warnings s
           end)
  /\ (forall b m (s : session AltrepVectorString.Alt),
        let s' := call_string b m s in
        R_altrep_data1 (object s') = R_altrep_data1 (object s)
        /\ ATTRIB (object s') = ATTRIB (object s)
        /\ AltrepVectorString.Length (object s')
           = AltrepVectorString.Length (object s)).
Proof.
  split; [|split].
  - intros sexp_type m s s'.
    assert (H : R_altrep_data1 (object s') = R_altrep_data1 (object s)
                /\ ATTRIB (object s') = ATTRIB (object s)
                /\ match m with
                   | call_Coerce type Rf_coerceVector =>
                       match AltrepVectorPrimitive.Materialize sexp_type s with
                       | (Ok x, s1) =>
                           warnings s'
                           = warnings s
                             ++ raised (Rf_coerceVector x type (allocated s1))
                       | _ => warnings s' = warnings s
                       end
                   | _ => warnings s' = warnings s
                   end).
    { subst s'.
      pose proof (primitive_Materialize_keeps sexp_type s) as HM.
      destruct m; simpl; auto;
        unfold AltrepVectorPrimitive.Duplicate, AltrepVectorPrimitive.Coerce,
          AltrepVectorPrimitive.Serialized_state,
          AltrepVectorPrimitive.Dataptr,
          AltrepVectorBase.Duplicate, AltrepVectorBase.Coerce,
          AltrepVectorBase.Serialized_state;
        try (destruct (negb _ && _); simpl; auto);
        destruct (AltrepVectorPrimitive.Materialize sexp_type s)
          as [[[x|]|message|] s1]; simpl in *; auto;
        destruct HM as (H1 & H2 & H3); repeat split; auto;
        exact (f_equal2 (@app string) H3 eq_refl). }
    destruct H as (H1 & H2 & H3). split; [exact H1|]. split; [exact H2|].
    split; [|exact H3].
    exact (f_equal ChunkedArray_length H1).
  - intros m s s'.
    assert (H : R_altrep_data1 (object s') = R_altrep_data1 (object s)
                /\ ATTRIB (object s') = ATTRIB (object s)
                /\ AltrepFactor.CADR (R_altrep_data2 (object s'))
                   = AltrepFactor.CADR (R_altrep_data2 (object s))
                /\ match m with
                   | call_Coerce type Rf_coerceVector =>
                       match AltrepFactor.Materialize s with
                       | (Ok x, s1) =>
                           warnings s'
                           = warnings s
                             ++ raised (Rf_coerceVector x type (allocated s1))
                       | _ => warnings s' = warnings s
                       end
                   | _ => warnings s' = warnings s
                   end).
    { subst s'.
      pose proof (factor_Materialize_keeps s) as HM.
      destruct m; simpl; auto;
        unfold AltrepFactor.Duplicate, AltrepFactor.Coerce,
          AltrepFactor.Serialized_state, AltrepFactor.Dataptr,
          AltrepVectorBase.Coerce, AltrepVectorBase.Serialized_state;
        destruct (AltrepFactor.Materialize s)
          as [[[x|]|message|] s1]; simpl in *; auto;
        destruct HM as (H1 & H2 & H3 & H4); repeat split; auto;
        exact (f_equal2 (@app string) H4 eq_refl). }
    destruct H as (H1 & H2 & H3 & H4). split; [exact H1|]. split; [exact H2|].
    split; [exact H3|]. split; [|exact H4].
    exact (f_equal ChunkedArray_length H1).
  - intros b m s s'.
    assert (H : R_altrep_data1 (object s') = R_altrep_data1 (object s)
                /\ ATTRIB (object s') = ATTRIB (object s)).
    { subst s'.
      pose proof (string_Materialize_keeps b s) as HM.
      destruct m; simpl; auto; try (now rewrite string_Elt_object);
        unfold AltrepVectorString.Duplicate, AltrepVectorString.Coerce,
          AltrepVectorString.Serialized_state, AltrepVectorString.Dataptr,
          AltrepVectorBase.Duplicate, AltrepVectorBase.Coerce,
          AltrepVectorBase.Serialized_state;
        destruct (AltrepVectorString.Materialize b s)
          as [[[x|]|message|] s1]; simpl in *; auto. }
    destruct H as (H1 & H2). split; [exact H1|]. split; [exact H2|].
    exact (f_equal ChunkedArray_length H1).
Qed.

(** ** The extremes of an int32 column *)

Lemma fold_min_spec (l : list Z) :
  forall a,
    fold_left Z.min l a <= a
    /\ (forall v, In v l -> fold_left Z.min l a <= v)
    /\ (fold_left Z.min l a = a \/ In (fold_left Z.min l a) l).
Proof.
  induction l as [|x l IH]; intros a; simpl.
  - split; [lia|]. split; [tauto|auto].
  - destruct (IH (Z.min a x)) as (H1 & H2 & H3).
    split; [lia|]. split.
    + intros v [<- | Hv]; [lia|auto].
    + destruct H3 as [H3 | H3]; [|auto].
      rewrite H3. destruct (Z.min_spec a x) as [[_ ->] | [_ ->]]; auto.
Qed.

Lemma fold_max_spec (l : list Z) :
  forall a,
    a <= fold_left Z.max l a
    /\ (forall v, In v l -> v <= fold_left Z.max l a)
    /\ (fold_left Z.max l a = a \/ In (fold_left Z.max l a) l).
Proof.
  induction l as [|x l IH]; intros a; simpl.
  - split; [lia|]. split; [tauto|auto].
  - destruct (IH (Z.max a x)) as (H1 & H2 & H3).
    split; [lia|]. split.
    + intros v [<- | Hv]; [lia|auto].
    + destruct H3 as [H3 | H3]; [|auto].
      rewrite H3. destruct (Z.max_spec a x) as [[_ ->] | [_ ->]]; auto.
Qed.

Lemma int32_extremes (vals : list Z) :
  vals <> [] ->
  Forall (fun v => INT32_MIN <= v <= INT32_MAX) vals ->
  In (fold_left Z.min vals INT32_MAX) vals
  /\ In (fold_left Z.max vals INT32_MIN) vals
  /\ forall v,
       In v vals ->
       fold_left Z.min vals INT32_MAX <= v <= fold_left Z.max vals INT32_MIN.
Proof.
  intros Hsome Hrange.
  destruct (fold_min_spec vals INT32_MAX) as (L1 & L2 & L3).
  destruct (fold_max_spec vals INT32_MIN) as (U1 & U2 & U3).
  rewrite Forall_forall in Hrange.
  destruct vals as [|x l]; [contradiction|].
  split; [|split].
  - destruct L3 as [L3 | L3]; [|exact L3].
    left. pose proof (L2 x (or_introl eq_refl)).
    pose proof (Hrange x (or_introl eq_refl)). lia.
  - destruct U3 as [U3 | U3]; [|exact U3].
    left. pose proof (U2 x (or_introl eq_refl)).
    pose proof (Hrange x (or_introl eq_refl)). lia.
  - intros v Hv. split; auto.
Qed.

(** X14: [Min] and [Max] of an int32 vector.  When nulls are removed or
    there are none, and the column holds at least one value, neither early
    return is taken: [Min] and [Max] return integers, each one of the
    non-null values of the column, with every non-null value between
    them. *)
Theorem MinMax_int32_are_the_extremes {kernels : double_kernels}
  (alt : AltrepVectorPrimitive.Alt INTSXP) (narm : bool) :
  let chunked_array := AltrepVectorPrimitive.GetChunkedArray INTSXP alt in
  narm = true \/ ChunkedArray_null_count chunked_array = 0 ->
  valid_values chunked_array <> [] ->
  Forall (fun v => INT32_MIN <= v <= INT32_MAX) (valid_values chunked_array) ->
  exists lo hi,
    AltrepVectorPrimitive.Min INTSXP alt narm = Rf_ScalarInteger lo
    /\ AltrepVectorPrimitive.Max INTSXP alt narm = Rf_ScalarInteger hi
    /\ In lo (valid_values chunked_array)
    /\ In hi (valid_values chunked_array)
    /\ forall v, In v (valid_values chunked_array) -> lo <= v <= hi.
Proof.
  intros chunked_array Hna Hsome Hrange.
  assert (G1 : (narm || (ChunkedArray_length chunked_array =? 0))
               && (ChunkedArray_null_count chunked_array
                   =? ChunkedArray_length chunked_array) = false).
  { apply andb_false_iff. right. apply Z.eqb_neq. intros Hall.
    apply Hsome. now apply all_null_valid_values. }
  assert (G2 : negb narm && (0 <? ChunkedArray_null_count chunked_array)
               = false).
  { destruct Hna as [-> | ->]; [reflexivity|apply andb_false_r]. }
  exists (fold_left Z.min (valid_values chunked_array) INT32_MAX),
         (fold_left Z.max (valid_values chunked_array) INT32_MIN).
  unfold AltrepVectorPrimitive.Min, AltrepVectorPrimitive.Max,
    AltrepVectorPrimitive.MinMax.
  fold chunked_array. rewrite G1, G2. simpl.
  split; [reflexivity|]. split; [reflexivity|].
  exact (int32_extremes _ Hsome Hrange).
Qed.

Lemma MinMax_int32_are_the_extremes_witness :
  let alt := object example_int_session in
  let chunked_array := AltrepVectorPrimitive.GetChunkedArray INTSXP alt in
  (true = true \/ ChunkedArray_null_count chunked_array = 0)
  /\ valid_values chunked_array <> []
  /\ Forall (fun v => INT32_MIN <= v <= INT32_MAX)
            (valid_values chunked_array)
  /\ exists lo hi,
       @AltrepVectorPrimitive.Min example_kernels INTSXP alt true
       = Rf_ScalarInteger lo
       /\ @AltrepVectorPrimitive.Max example_kernels INTSXP alt true
          = Rf_ScalarInteger hi
       /\ In lo (valid_values chunked_array)
       /\ In hi (valid_values chunked_array)
       /\ forall v, In v (valid_values chunked_array) -> lo <= v <= hi.
Proof.
  intros alt chunked_array.
  assert (H1 : true = true \/ ChunkedArray_null_count chunked_array = 0)
    by (left; reflexivity).
  assert (H2 : valid_values chunked_array <> []) by (vm_compute; discriminate).
  assert (H3 : Forall (fun v => INT32_MIN <= v <= INT32_MAX)
                      (valid_values chunked_array)).
  { repeat constructor; unfold INT32_MIN, INT32_MAX; simpl; lia. }
  split; [exact H1|]. split; [exact H2|]. split; [exact H3|].
  apply (@MinMax_int32_are_the_extremes example_kernels alt true H1 H2 H3).
Defined.

(** ** What [Make] builds for a factor *)

Lemma Type_id_eqb_eq a b : Type_id_eqb a b = true <-> a = b.
Proof. destruct a, b; simpl; split; intros H; congruence. Qed.

(** X15: [AltrepFactor::Make] deals with dictionaries of strings only: on
    an array with a chunk it declines (returns [R_NilValue]) exactly when
    the dictionary of chunk 0 does not hold strings.  The object it makes
    wraps the array it was given, is not materialized (no pointer is
    available without allocating), records whether the dictionaries were
    unified, and has the class of an ordered factor exactly when the
    dictionary type is ordered. *)
Theorem factor_Make_wraps_string_dictionaries
  (chunk_0 : DictionaryArray) (rest : list DictionaryArray) :
  let chunked_array := chunk_0 :: rest in
  (AltrepFactor.Make chunked_array = None
   <-> dictionary_type (dictionary_ chunk_0) <> STRING)
  /\ forall alt,
       AltrepFactor.Make chunked_array = Some alt ->
       R_altrep_data1 alt = chunked_array
       /\ AltrepFactor.Length alt = ChunkedArray_length chunked_array
       /\ AltrepFactor.IsMaterialized alt = false
       /\ AltrepFactor.Dataptr_or_null alt = nullptr
       /\ AltrepFactor.WasUnified alt
          = DictionaryChunkArrayNeedUnification chunked_array
       /\ R_ClassSymbol (ATTRIB alt)
          = Some (if ordered (dictionary_ chunk_0)
                  then ["ordered"; "factor"]%string
                  else ["factor"]%string).
Proof.
  intros chunked_array. split.
  - unfold AltrepFactor.Make. subst chunked_array. cbv beta iota.
    destruct (Type_id_eqb (dictionary_type (dictionary_ chunk_0)) STRING)
      eqn:E; cbn [negb].
    + apply Type_id_eqb_eq in E. split; [|congruence].
      destruct (DictionaryChunkArrayNeedUnification (chunk_0 :: rest));
        [destruct (AltrepFactor.unify_chunks [] (chunk_0 :: rest))|];
        discriminate.
    + split; [|reflexivity]. intros _ H. apply Type_id_eqb_eq in H. congruence.
  - intros alt HM.
    destruct (Make_inv chunked_array alt HM) as (H1 & H2 & H3 & _).
    split; [exact H1|].
    split; [exact (f_equal ChunkedArray_length H1)|].
    split; [unfold AltrepFactor.IsMaterialized,
              AltrepVectorBase.IsMaterialized; now rewrite H2|].
    split; [unfold AltrepFactor.Dataptr_or_null; now rewrite H2|].
    split; [exact H3|].
    unfold AltrepFactor.Make in HM. subst chunked_array.
    cbv beta iota in HM.
    destruct (negb _); [discriminate|].
    destruct (DictionaryChunkArrayNeedUnification (chunk_0 :: rest));
      [destruct (AltrepFactor.unify_chunks [] (chunk_0 :: rest))|];
      injection HM as <-; reflexivity.
Qed.

Lemma factor_Make_wraps_string_dictionaries_witness :
  let chunk_0 : DictionaryArray :=
    mkArray (mkDictionary INT8 STRING ["a"; "b"]%string false)
            [(true, 0); (true, 1); (false, 0)] in
  let rest : list DictionaryArray :=
    [mkArray (mkDictionary UINT16 STRING ["b"; "a"]%string false)
             [(true, 0); (true, 1)]] in
  AltrepFactor.Make
    [mkArray (mkDictionary INT8 INT32 ["1"; "2"]%string false) [(true, 0)]]
  = None
  /\ exists alt,
       AltrepFactor.Make (chunk_0 :: rest) = Some alt
       /\ R_altrep_data1 alt = chunk_0 :: rest
       /\ AltrepFactor.Length alt = ChunkedArray_length (chunk_0 :: rest)
       /\ AltrepFactor.IsMaterialized alt = false
       /\ AltrepFactor.Dataptr_or_null alt = nullptr
       /\ AltrepFactor.WasUnified alt
          = DictionaryChunkArrayNeedUnification (chunk_0 :: rest)
       /\ R_ClassSymbol (ATTRIB alt)
          = Some (if ordered (dictionary_ chunk_0)
                  then ["ordered"; "factor"]%string
                  else ["factor"]%string).
Proof.
  intros chunk_0 rest. split.
  - apply (proj1 (factor_Make_wraps_string_dictionaries _ [])).
    simpl. discriminate.
  - exists example_factor. split; [reflexivity|].
    apply (proj2 (factor_Make_wraps_string_dictionaries chunk_0 rest)
             example_factor).
    reflexivity.
Defined.

Lemma GetOrInsert_labels memo s0 s :
  In s (fst (DictionaryUnifier.GetOrInsert memo s0)) <-> In s memo \/ s = s0.
Proof.
  unfold DictionaryUnifier.GetOrInsert.
  destruct (DictionaryUnifier.index_of s0 memo) as [k|] eqn:E; simpl.
  - split; [auto|]. intros [H | ->]; [exact H|].
    eapply nth_error_In, index_of_Some, E.
  - rewrite in_app_iff. simpl. intuition congruence.
Qed.

Lemma Unify_labels dict :
  forall memo s,
    In s (fst (DictionaryUnifier.Unify memo dict)) <-> In s memo \/ In s dict.
Proof.
  induction dict as [|s0 dict IH]; intros memo s; simpl; [tauto|].
  pose proof (GetOrInsert_labels memo s0 s) as H1.
  destruct (DictionaryUnifier.GetOrInsert memo s0) as [memo1 k].
  specialize (IH memo1 s).
  destruct (DictionaryUnifier.Unify memo1 dict) as [memo2 tr].
  simpl in *. rewrite IH, H1. intuition congruence.
Qed.

Lemma unify_chunks_labels (ca : list DictionaryArray) :
  forall memo s,
    In s (fst (AltrepFactor.unify_chunks memo ca))
    <-> In s memo
        \/ exists c, In c ca /\ In s (dictionary (dictionary_ c)).
Proof.
  induction ca as [|c0 ca IH]; intros memo s; simpl.
  - split; [auto|]. intros [H | (c & [] & _)]. exact H.
  - pose proof (Unify_labels (dictionary (dictionary_ c0)) memo s) as H1.
    destruct (DictionaryUnifier.Unify memo (dictionary (dictionary_ c0)))
      as [memo1 tr].
    specialize (IH memo1 s).
    destruct (AltrepFactor.unify_chunks memo1 ca) as [memo2 arrays].
    simpl in *. rewrite IH, H1. split.
    + intros [[H | H] | (c & Hc & Hs)]; eauto.
    + intros [H | (c & [<- | Hc] & Hs)]; eauto.
Qed.

(** X16: the levels of a factor are the labels of its dictionaries.  A
    label is among the levels [Make] sets exactly when some chunk has it in
    its dictionary.  When the dictionaries were unified no level occurs
    twice; when they were not, the levels are the dictionary of every
    chunk, as it is. *)
Theorem factor_levels_are_the_labels (chunked_array : list DictionaryArray)
  (alt : AltrepFactor.Alt) :
  AltrepFactor.Make chunked_array = Some alt ->
  exists levels,
    R_LevelsSymbol (ATTRIB alt) = Some levels
    /\ (forall label,
          In label levels
          <-> exists chunk,
                In chunk chunked_array
                /\ In label (dictionary (dictionary_ chunk)))
    /\ (AltrepFactor.WasUnified alt = true -> NoDup levels)
    /\ (AltrepFactor.WasUnified alt = false ->
        forall chunk,
          In chunk chunked_array -> dictionary (dictionary_ chunk) = levels).
Proof.
  intros HM. destruct (Make_inv chunked_array alt HM) as (_ & _ & HW & Hyes & Hno).
  destruct (DictionaryChunkArrayNeedUnification chunked_array) eqn:E.
  - destruct (Hyes eq_refl) as [_ Hlev].
    exists (fst (AltrepFactor.unify_chunks [] chunked_array)).
    split; [exact Hlev|]. split; [|split].
    + intros label. rewrite unify_chunks_labels. simpl. tauto.
    + intros _. pose proof (unify_chunks_spec chunked_array []) as Hspec.
      destruct (AltrepFactor.unify_chunks [] chunked_array) as [memo arrays].
      destruct Hspec as (_ & Hnd & _). apply Hnd. constructor.
    + rewrite HW. discriminate.
  - destruct (Hno eq_refl) as [_ (chunk_0 & rest & -> & Hlev)].
    exists (dictionary (dictionary_ chunk_0)).
    split; [exact Hlev|]. split; [|split].
    + intros label. split.
      * intros H. exists chunk_0. split; [now left|exact H].
      * intros (c & Hc & Hs).
        now rewrite <- (no_unification_same_dictionary chunk_0 rest c E Hc).
    + rewrite HW. discriminate.
    + intros _ c Hc. exact (no_unification_same_dictionary chunk_0 rest c E Hc).
Qed.

Lemma factor_levels_are_the_labels_witness :
  AltrepFactor.Make example_factor_chunks = Some example_factor
  /\ exists levels,
       R_LevelsSymbol (ATTRIB example_factor) = Some levels
       /\ (forall label,
             In label levels
             <-> exists chunk,
                   In chunk example_factor_chunks
                   /\ In label (dictionary (dictionary_ chunk)))
       /\ (AltrepFactor.WasUnified example_factor = true -> NoDup levels)
       /\ (AltrepFactor.WasUnified example_factor = false ->
           forall chunk,
             In chunk example_factor_chunks ->
             dictionary (dictionary_ chunk) = levels).
Proof.
  split; [reflexivity|].
  apply (factor_levels_are_the_labels example_factor_chunks example_factor).
  reflexivity.
Defined.

(** ** Codes and levels *)

(** On a factor R can reach, the code of an element that holds a label is
    one more than the place of the label among the levels. *)
Lemma reachable_factor_levels (s : session AltrepFactor.Alt) :
  reachable_factor s ->
  exists levels,
    R_LevelsSymbol (ATTRIB (object s)) = Some levels
    /\ (Z.of_nat (List.length levels) <= INT32_MAX ->
        forall i label,
          label_at (R_altrep_data1 (object s)) i = Some label ->
          exists u,
            AltrepFactor.Elt (object s) i = Some (u + 1)
            /\ read levels u = Some label).
Proof.
  intros Hs.
  destruct (reachable_factor_inv s Hs)
    as [Hvalid (ca & alt0 & Hv & HM & H1 & H2 & H3)].
  destruct (Make_levels ca alt0 HM) as (levels & Hlev & _ & Hall).
  exists levels. split; [now rewrite H3|].
  intros Hmax i label Hlab.
  destruct (factor_code_label (object s) levels i label)
    as [Hi (k & index & _ & _ & G3 & G4)]; auto.
  - apply Hvalid.
  - intros k c idx l Hc Hl. rewrite H2.
    apply (Hall k c idx l); [|exact Hl]. now rewrite <- H1.
  - eexists. split; [|exact G4].
    destruct (factor_Elt_any (object s) i Hvalid Hi) as [-> _]. exact G3.
Qed.

Lemma factor_Elt_None_outside (alt : AltrepFactor.Alt) i :
  factor_valid alt ->
  ~ 0 <= i < AltrepFactor.Length alt ->
  AltrepFactor.Elt alt i = None.
Proof.
  intros Hvalid Hout.
  destruct (AltrepFactor.Representation alt) as [data2|] eqn:Hrep.
  - unfold AltrepFactor.Elt. rewrite Hrep, (proj2 Hvalid data2 Hrep).
    apply read_outside. now rewrite codes_length.
  - apply factor_Elt_outside; [exact Hrep|]. apply element_outside.
    exact Hout.
Qed.

(** The position behind an index of a factor: a null position has the
    sentinel as code, a valid position of a valid chunk has a label. *)
Lemma factor_position (alt : AltrepFactor.Alt) i :
  fits (AltrepFactor.CADR (R_altrep_data2 alt)) 0 (R_altrep_data1 alt) ->
  0 <= i < AltrepFactor.Length alt ->
  exists slot,
    element (R_altrep_data1 alt) i = Some slot
    /\ (fst slot = false -> read (codes alt) i = Some NA_INTEGER)
    /\ (fst slot = true ->
        exists label, label_at (R_altrep_data1 alt) i = Some label).
Proof.
  intros Hfits Hi.
  set (ca := R_altrep_data1 alt) in *.
  set (tables := AltrepFactor.CADR (R_altrep_data2 alt)) in *.
  destruct (ArrayResolve_loop_spec (code tables) ca 0 0 i Hi)
    as (k & c & j & H1 & Hc & Hj & H4).
  assert (Hs : exists slot, slot_at c j = Some slot).
  { unfold slot_at.
    replace (j <? 0) with false by (symmetry; apply Z.ltb_ge; lia).
    destruct (nth_error (slots c) (Z.to_nat j)) eqn:E; [eauto|].
    apply nth_error_None in E. unfold length in Hj. lia. }
  destruct Hs as [slot Hslot]. exists slot. split; [|split].
  - unfold element, ArrayResolve_new. now rewrite H1.
  - intros Hbit. rewrite read_nth_error by lia. unfold codes.
    fold ca tables. rewrite H4, Hslot. simpl. unfold code.
    now rewrite Hbit.
  - intros Hbit.
    destruct (fits_nth tables ca 0 k c Hfits Hc) as [Hvalid _].
    destruct (valid_chunk_inv c Hvalid) as (_ & _ & Hall).
    rewrite Forall_forall in Hall.
    assert (Hin : In slot (slots c)).
    { unfold slot_at in Hslot. destruct (j <? 0); [discriminate|].
      eapply nth_error_In, Hslot. }
    specialize (Hall slot Hin Hbit).
    unfold label_at, ArrayResolve_new. rewrite H1. simpl. rewrite Hslot.
    destruct slot as [[|] index]; [|discriminate]. simpl in Hall.
    rewrite (read_nth _ index EmptyString) by exact Hall. eauto.
Qed.

(** X17: the codes of a factor are level numbers.  On a factor R can
    reach whose levels fit an [int], whatever [Elt] returns at an index is
    the sentinel [NA_INTEGER] if the element is null, and otherwise a code
    between 1 and the number of levels, with the label of the element at
    that place of the levels (counted from 1).  So two elements with
    different labels never have the same code. *)
Theorem factor_codes_are_level_numbers (s : session AltrepFactor.Alt) :
  reachable_factor s ->
  let chunked_array := R_altrep_data1 (object s) in
  exists levels,
    R_LevelsSymbol (ATTRIB (object s)) = Some levels
    /\ (Z.of_nat (List.length levels) <= INT32_MAX ->
        (forall i v,
            AltrepFactor.Elt (object s) i = Some v ->
            exists slot,
              element chunked_array i = Some slot
              /\ (fst slot = false -> v = NA_INTEGER)
              /\ (fst slot = true ->
                  1 <= v <= Z.of_nat (List.length levels)
                  /\ exists label,
                       label_at chunked_array i = Some label
                       /\ read levels (v - 1) = Some label))
        /\ (forall i1 i2 label1 label2,
              label_at chunked_array i1 = Some label1 ->
              label_at chunked_array i2 = Some label2 ->
              label1 <> label2 ->
              AltrepFactor.Elt (object s) i1
              <> AltrepFactor.Elt (object s) i2)).
Proof.
  intros Hs chunked_array.
  destruct (reachable_factor_inv s Hs) as [Hvalid _].
  destruct (reachable_factor_levels s Hs) as (levels & Hlev & Hcodes).
  exists levels. split; [exact Hlev|]. intros Hmax.
  specialize (Hcodes Hmax). split.
  - intros i v Hv.
    assert (Hi : 0 <= i < AltrepFactor.Length (object s)).
    { destruct (Z_le_dec 0 i) as [H0|H0];
        [destruct (Z_lt_dec i (AltrepFactor.Length (object s))) as [H1|H1];
         [lia|]|];
        rewrite factor_Elt_None_outside in Hv; auto; try discriminate; lia. }
    destruct (factor_position (object s) i (proj1 Hvalid) Hi)
      as (slot & Hel & Hnull & Hlab).
    exists slot. split; [exact Hel|]. split.
    + intros Hbit.
      destruct (factor_Elt_any (object s) i Hvalid Hi) as [Heq _].
      rewrite Heq, (Hnull Hbit) in Hv. congruence.
    + intros Hbit. destruct (Hlab Hbit) as [label Hlabel].
      destruct (Hcodes i label Hlabel) as (u & Hu & Hread).
      fold chunked_array in Hlabel.
      assert (Hv' : v = u + 1) by congruence. subst v.
      replace (u + 1 - 1) with u by lia.
      assert (Hrange : 0 <= u < Z.of_nat (List.length levels)).
      { unfold read in Hread. destruct (u <? 0) eqn:E; [discriminate|].
        apply Z.ltb_ge in E. split; [exact E|].
        assert (Z.to_nat u < List.length levels)%nat
          by (apply nth_error_Some; congruence).
        lia. }
      split; [lia|]. eauto.
  - intros i1 i2 label1 label2 H1 H2 Hne Heq.
    destruct (Hcodes i1 label1 H1) as (u1 & Hu1 & R1).
    destruct (Hcodes i2 label2 H2) as (u2 & Hu2 & R2).
    rewrite Hu1, Hu2 in Heq.
    assert (u1 = u2) by (injection Heq; lia). subst u2. congruence.
Qed.

Lemma factor_codes_are_level_numbers_witness :
  let s := example_factor_session in
  let chunked_array := R_altrep_data1 (object s) in
  reachable_factor s
  /\ exists levels,
       R_LevelsSymbol (ATTRIB (object s)) = Some levels
       /\ (Z.of_nat (List.length levels) <= INT32_MAX ->
           (forall i v,
               AltrepFactor.Elt (object s) i = Some v ->
               exists slot,
                 element chunked_array i = Some slot
                 /\ (fst slot = false -> v = NA_INTEGER)
                 /\ (fst slot = true ->
                     1 <= v <= Z.of_nat (List.length levels)
                     /\ exists label,
                          label_at chunked_array i = Some label
                          /\ read levels (v - 1) = Some label))
           /\ (forall i1 i2 label1 label2,
                 label_at chunked_array i1 = Some label1 ->
                 label_at chunked_array i2 = Some label2 ->
                 label1 <> label2 ->
                 AltrepFactor.Elt (object s) i1
                 <> AltrepFactor.Elt (object s) i2)).
Proof.
  intros s chunked_array. split; [exact example_factor_reachable|].
  apply (factor_codes_are_level_numbers s example_factor_reachable).
Defined.

(** ** More on strings *)

Lemma strip_loop_no_nul view :
  forall old i stripped_string,
    existsb is_nul old = false ->
    AltrepVectorString.RStringViewer.strip_loop view old i stripped_string 0 0
    = (stripped_string, O).
Proof.
  induction old as [|c old IH]; intros i stripped_string Hno; simpl in *;
    [reflexivity|].
  apply orb_false_iff in Hno as [Hc Hold]. rewrite Hc. now apply IH.
Qed.

(** X18: [ConvertStripNul] relies on the test [Convert] makes before it
    calls it.  Run on a string without a nul, its loop never starts the
    scratch string: the result is the empty string, and the viewer still
    records that a nul was stripped.  [Convert] does not get there: a
    valid string without a nul is returned whole, whatever the option
    says, and the viewer stays as it is. *)
Theorem ConvertStripNul_needs_a_nul
  (v : AltrepVectorString.RStringViewer.t) (view : list ascii) :
  existsb is_nul view = false ->
  AltrepVectorString.RStringViewer.ConvertStripNul v view
  = (Rf_mkCharLenCE [],
     AltrepVectorString.RStringViewer.mk
       (AltrepVectorString.RStringViewer.array_ v)
       (AltrepVectorString.RStringViewer.stripped_string_ v)
       (AltrepVectorString.RStringViewer.strip_out_nuls_ v) true)
  /\ forall array j,
       AltrepVectorString.RStringViewer.array_ v = Some array ->
       slot_at array j = Some (true, view) ->
       AltrepVectorString.RStringViewer.Convert v j
       = (Ok (Rf_mkCharLenCE view), v).
Proof.
  intros Hno. split.
  - unfold AltrepVectorString.RStringViewer.ConvertStripNul.
    now rewrite strip_loop_no_nul.
  - intros array j Ha Hslot.
    unfold AltrepVectorString.RStringViewer.Convert.
    rewrite Ha. unfold IsNull, value_at. rewrite Hslot. simpl.
    now rewrite Hno.
Qed.

Lemma ConvertStripNul_needs_a_nul_witness :
  let view := ["a"; "b"]%char in
  let array : AltrepVectorString.StringArray :=
    mkArray tt [(true, view); (false, [])] in
  let v :=
    AltrepVectorString.RStringViewer.SetArray
      (AltrepVectorString.RStringViewer.new true) array in
  existsb is_nul view = false
  /\ AltrepVectorString.RStringViewer.ConvertStripNul v view
     = (Rf_mkCharLenCE [],
        AltrepVectorString.RStringViewer.mk (Some array) [] true true)
  /\ AltrepVectorString.RStringViewer.Convert v 0
     = (Ok (Rf_mkCharLenCE view), v).
Proof.
  intros view array v.
  destruct (ConvertStripNul_needs_a_nul v view eq_refl) as [H1 H2].
  split; [reflexivity|]. split; [exact H1|].
  apply (H2 array 0); reflexivity.
Defined.

(** X19: once a string vector is materialized, [Elt] reads the cache and
    nothing else.  After a materialization that succeeded, a read at any
    index inside the vector returns the cached conversion of the position
    whatever arrow.skip_nul says at the time of the read: it raises no
    error and no warning, also for an element whose nuls were stripped and
    with the option switched off since. *)
Theorem string_Elt_reads_the_cache (b b' : bool)
  (s : session AltrepVectorString.Alt) data2 s' i :
  AltrepVectorString.Representation (object s) = None ->
  AltrepVectorString.Materialize b s = (Ok (Some data2), s') ->
  0 <= i < AltrepVectorString.Length (object s) ->
  exists slot,
    element (R_altrep_data1 (object s)) i = Some slot
    /\ AltrepVectorString.Elt b' s' i = (Ok (stripped slot), s')
    /\ warnings (snd (AltrepVectorString.Elt b' s' i)) = warnings s'.
Proof.
  intros Hrep HM Hi.
  rewrite (string_Materialize_first b s Hrep) in HM.
  destruct (convert_all b (positions (R_altrep_data1 (object s))))
    as [converted| |] eqn:E; try discriminate.
  injection HM as <- <-.
  destruct (convert_all_length b _ converted E) as [-> _].
  destruct (element_in_range (R_altrep_data1 (object s)) i Hi)
    as [Hel [slot Hslot]].
  exists slot. split; [exact Hslot|].
  rewrite Hslot in Hel. symmetry in Hel.
  assert (Hread : read (map stripped (positions (R_altrep_data1 (object s)))) i
                  = Some (stripped slot)).
  { rewrite read_nth_error by lia. now rewrite nth_error_map, Hel. }
  unfold AltrepVectorString.Elt. simpl. rewrite Hread. auto.
Qed.

Lemma string_Elt_reads_the_cache_witness :
  let s := example_string_session in
  let data2 :=
    mkVector 0 [Rf_mkCharLenCE ["a"; "b"]%char; NA_STRING;
                Rf_mkCharLenCE ["c"; "d"]%char] in
  let s' := snd (AltrepVectorString.Materialize true s) in
  AltrepVectorString.Representation (object s) = None
  /\ AltrepVectorString.Materialize true s = (Ok (Some data2), s')
  /\ 0 <= 2 < AltrepVectorString.Length (object s)
  /\ (exists message,
        fst (AltrepVectorString.Elt false s 2) = R_error message)
  /\ exists slot,
       element (R_altrep_data1 (object s)) 2 = Some slot
       /\ AltrepVectorString.Elt false s' 2 = (Ok (stripped slot), s')
       /\ warnings (snd (AltrepVectorString.Elt false s' 2)) = warnings s'.
Proof.
  intros s data2 s'.
  assert (H1 : AltrepVectorString.Representation (object s) = None)
    by reflexivity.
  assert (H2 : AltrepVectorString.Materialize true s = (Ok (Some data2), s'))
    by reflexivity.
  assert (H3 : 0 <= 2 < AltrepVectorString.Length (object s)) by evaluated.
  split; [exact H1|]. split; [exact H2|]. split; [exact H3|].
  split; [eexists; reflexivity|].
  apply (string_Elt_reads_the_cache true false s data2 s' 2 H1 H2 H3).
Defined.

(** ** The dispatch and the way back *)

Lemma factor_Make_None (chunked_array : list DictionaryArray) :
  AltrepFactor.Make chunked_array = None
  <-> unsupported (of_DICTIONARY chunked_array).
Proof.
  destruct chunked_array as [|chunk_0 rest]; [simpl; tauto|].
  unfold AltrepFactor.Make, unsupported. cbv beta iota.
  destruct (Type_id_eqb (dictionary_type (dictionary_ chunk_0)) STRING)
    eqn:E; cbn [negb].
  - apply Type_id_eqb_eq in E. split; [|congruence].
    destruct (DictionaryChunkArrayNeedUnification (chunk_0 :: rest));
      [destruct (AltrepFactor.unify_chunks [] (chunk_0 :: rest))|];
      discriminate.
  - split; [|reflexivity]. intros _ H. apply Type_id_eqb_eq in H. congruence.
Qed.

Lemma MakeAltrepVector_wraps arrow_use_altrep chunked_array :
  MakeAltrepVector arrow_use_altrep chunked_array <> R_NilValue ->
  GetChunkedArray (made_here (MakeAltrepVector arrow_use_altrep chunked_array))
  = Ok chunked_array.
Proof.
  unfold MakeAltrepVector.
  destruct (arrow_use_altrep && (0 <? chunked_array_length chunked_array));
    [|intros H; now contradiction H].
  destruct chunked_array as [ca|ca|ca|ca|ca|id ca]; try reflexivity.
  - destruct (AltrepFactor.Make ca) as [alt|] eqn:HM;
      [|intros H; now contradiction H].
    intros _. simpl. now destruct (Make_inv ca alt HM) as [-> _].
  - intros H. now contradiction H.
Qed.

(** X20: when the dispatch declines.  [MakeAltrepVector] returns
    [R_NilValue] exactly when the option arrow.use_altrep is off, or the
    chunked array has no element, or its type is none of double, int32,
    string, large string and dictionary, or it is a dictionary whose
    values are not strings. *)
Theorem MakeAltrepVector_declines_exactly (arrow_use_altrep : bool)
  (chunked_array : chunked_array_ptr) :
  MakeAltrepVector arrow_use_altrep chunked_array = R_NilValue
  <-> arrow_use_altrep = false
      \/ chunked_array_length chunked_array <= 0
      \/ unsupported chunked_array.
Proof.
  unfold MakeAltrepVector.
  destruct arrow_use_altrep; cbn [andb]; [|split; auto].
  destruct (0 <? chunked_array_length chunked_array) eqn:E;
    [apply Z.ltb_lt in E|apply Z.ltb_ge in E; split; auto].
  destruct chunked_array as [ca|ca|ca|ca|ca|id ca];
    try (split; [discriminate|];
         intros [H | [H | H]]; [discriminate|lia|contradiction]).
  - pose proof (factor_Make_None ca) as Hnone.
    destruct (AltrepFactor.Make ca) as [alt|] eqn:HM.
    + split; [discriminate|].
      intros [H | [H | H]]; [discriminate|lia|].
      apply Hnone in H. discriminate.
    + split; [|reflexivity]. intros _. right. right. now apply Hnone.
  - split; [|reflexivity]. intros _. right. right. exact I.
Qed.

(** X21: the way back from the R vector to the Arrow array.  Every object
    [MakeAltrepVector] returns is recognized by [is_arrow_altrep], since
    each of the five classes is made in package arrow, and
    [vec_to_arrow_altrep_bypass] hands back the very chunked array the
    object was made from.  For [R_NilValue], for an object that is not
    ALTREP and for an ALTREP object of a class of another package it
    returns the null pointer. *)
Theorem vec_to_arrow_altrep_bypass_round_trip :
  (forall arrow_use_altrep chunked_array,
      MakeAltrepVector arrow_use_altrep chunked_array <> R_NilValue ->
      let x := made_here (MakeAltrepVector arrow_use_altrep chunked_array) in
      is_arrow_altrep x = true
      /\ vec_to_arrow_altrep_bypass x = Ok (Some chunked_array))
  /\ is_arrow_altrep (made_here R_NilValue) = false
  /\ vec_to_arrow_altrep_bypass (made_here R_NilValue) = Ok None
  /\ vec_to_arrow_altrep_bypass not_altrep = Ok None
  /\ (forall class_t,
        package_name class_t <> "arrow"%string ->
        is_arrow_altrep (made_elsewhere class_t) = false
        /\ vec_to_arrow_altrep_bypass (made_elsewhere class_t) = Ok None).
Proof.
  split; [|split; [reflexivity|split; [reflexivity|split; [reflexivity|]]]].
  - intros arrow_use_altrep chunked_array Hmade x.
    assert (Hx : is_arrow_altrep x = true).
    { subst x.
      destruct (MakeAltrepVector arrow_use_altrep chunked_array);
        [now contradiction Hmade|reflexivity..]. }
    split; [exact Hx|].
    unfold vec_to_arrow_altrep_bypass. rewrite Hx. subst x.
    now rewrite (MakeAltrepVector_wraps arrow_use_altrep chunked_array Hmade).
  - intros class_t Hpkg.
    assert (H : is_arrow_altrep (made_elsewhere class_t) = false).
    { unfold is_arrow_altrep. simpl. now apply String.eqb_neq. }
    split; [exact H|]. unfold vec_to_arrow_altrep_bypass. now rewrite H.
Qed.

Lemma vec_to_arrow_altrep_bypass_round_trip_witness :
  MakeAltrepVector true (of_STRING example_strings) <> R_NilValue
  /\ vec_to_arrow_altrep_bypass
       (made_here (MakeAltrepVector true (of_STRING example_strings)))
     = Ok (Some (of_STRING example_strings))
  /\ vec_to_arrow_altrep_bypass
       (made_elsewhere (R_make_altinteger_class "compact_intseq" "base"))
     = Ok None.
Proof.
  destruct vec_to_arrow_altrep_bypass_round_trip as (Hmade & _ & _ & _ & Helse).
  assert (H : MakeAltrepVector true (of_STRING example_strings) <> R_NilValue)
    by (vm_compute; discriminate).
  split; [exact H|]. split.
  - apply (Hmade true (of_STRING example_strings) H).
  - apply (Helse (R_make_altinteger_class "compact_intseq" "base")).
    vm_compute. discriminate.
Defined.

(** ** The sentinels and [No_NA] *)

(** X22: what [No_NA] promises.  For a string vector it is sound: when
    [No_NA] answers true, no read of an element returns [NA_STRING].  For
    an int32 vector the sentinel is a value of the element type: a
    position that is not null and holds [INT32_MIN] reads as
    [NA_INTEGER], whatever [No_NA] answers. *)
Theorem No_NA_and_the_sentinels :
  (forall b (s : session AltrepVectorString.Alt) i x,
      AltrepVectorString.Representation (object s) = None ->
      AltrepVectorBase.No_NA (object s) = true ->
      fst (AltrepVectorString.Elt b s i) = Ok x ->
      x <> NA_STRING)
  /\ (forall (alt : AltrepVectorPrimitive.Alt INTSXP) i,
        element (R_altrep_data1 alt) i = Some (true, INT32_MIN) ->
        AltrepVectorPrimitive.Elt INTSXP alt i = Some NA_INTEGER).
Proof.
  split.
  - intros b s i x Hrep Hno Hx.
    destruct (element (R_altrep_data1 (object s)) i) as [slot|] eqn:E.
    + rewrite (string_Elt_unmaterialized b s i slot Hrep E) in Hx.
      pose proof (proj1 (No_NA_all_valid (object s)) Hno i slot E) as Hbit.
      destruct (embedded_nul slot && negb b);
        [cbn [fst] in Hx; now apply Error_not_Ok in Hx|].
      simpl in Hx. injection Hx as <-. unfold stripped. rewrite Hbit.
      discriminate.
    + rewrite (string_Elt_outside b s i Hrep E) in Hx. discriminate.
  - intros alt i Hel. rewrite primitive_Elt_element, Hel. reflexivity.
Qed.

Lemma No_NA_and_the_sentinels_witness :
  let s := mkSession (AltrepVectorString.Make
                        [mkArray tt [(true, ["a"]%char)]]) 0 [] in
  let alt : AltrepVectorPrimitive.Alt INTSXP :=
    AltrepVectorBase.Make [mkArray tt [(true, INT32_MIN)]] in
  (AltrepVectorBase.No_NA (object s) = true
   /\ fst (AltrepVectorString.Elt false s 0) = Ok (Rf_mkCharLenCE ["a"]%char)
   /\ Rf_mkCharLenCE ["a"]%char <> NA_STRING)
  /\ (AltrepVectorBase.No_NA alt = true
      /\ element (R_altrep_data1 alt) 0 = Some (true, INT32_MIN)
      /\ AltrepVectorPrimitive.Elt INTSXP alt 0 = Some NA_INTEGER).
Proof.
  intros s alt. destruct No_NA_and_the_sentinels as [Hs Hi]. split.
  - split; [reflexivity|]. split; [reflexivity|].
    apply (Hs false s 0); reflexivity.
  - split; [reflexivity|]. split; [reflexivity|].
    apply (Hi alt 0). reflexivity.
Defined.

(** ** The two searches for a chunk *)

Lemma first_chunk_ArrayResolve_loop (ca : list DictionaryArray) :
  forall j k start,
    k <= start < k + ChunkedArray_length ca ->
    AltrepFactor.first_chunk ca j k start
    = position_ (ArrayResolve_loop ca j (start - k)).
Proof.
  induction ca as [|c ca IH]; intros j k start Hs; simpl in *; [lia|].
  destruct (start <? k + length c) eqn:E.
  - apply Z.ltb_lt in E.
    now replace (start - k <? length c) with true
      by (symmetry; apply Z.ltb_lt; lia).
  - apply Z.ltb_ge in E.
    replace (start - k <? length c) with false
      by (symmetry; apply Z.ltb_ge; lia).
    rewrite IH by lia. do 2 f_equal. lia.
Qed.

(** X23: the two searches for a chunk agree.  For a start inside the
    array, the loop of [Get_region] that looks for the first chunk present
    in the slice stops at the chunk [ArrayResolve] finds for the same
    index, so the region copy of a unified factor begins with the
    transpose buffer that [Elt] uses at [start]; and that buffer
    exists. *)
Theorem first_chunk_is_the_chunk_of_start (s : session AltrepFactor.Alt)
  (start : Z) :
  reachable_factor s ->
  0 <= start < AltrepFactor.Length (object s) ->
  let chunked_array := AltrepFactor.GetChunkedArray (object s) in
  AltrepFactor.first_chunk chunked_array 0 0 start
  = position_ (ArrayResolve_new chunked_array start)
  /\ (AltrepFactor.WasUnified (object s) = true ->
      exists transpose_data,
        AltrepFactor.GetArrayTransposed (object s)
          (AltrepFactor.first_chunk chunked_array 0 0 start)
        = Some transpose_data).
Proof.
  intros Hs Hstart chunked_array.
  assert (Hfirst : AltrepFactor.first_chunk chunked_array 0 0 start
                   = position_ (ArrayResolve_new chunked_array start)).
  { unfold ArrayResolve_new.
    rewrite (first_chunk_ArrayResolve_loop chunked_array 0 0 start)
      by (subst chunked_array;
          unfold AltrepFactor.Length, AltrepVectorBase.Length,
            AltrepFactor.GetChunkedArray in *; same_types; lia).
    now rewrite Z.sub_0_r. }
  split; [exact Hfirst|].
  intros Hunified. rewrite Hfirst.
  destruct (reachable_factor_inv s Hs) as [[Hfits _] _].
  destruct (ArrayResolve_loop_spec
              (code (AltrepFactor.CADR (R_altrep_data2 (object s))))
              (R_altrep_data1 (object s)) 0 0 start Hstart)
    as (k & c & j & H1 & Hc & _ & _).
  assert (Hpos : position_ (ArrayResolve_new chunked_array start)
                 = Z.of_nat k)
    by exact (eq_trans (f_equal position_ H1) (Z.add_0_l _)).
  rewrite Hpos.
  unfold AltrepFactor.WasUnified, AltrepFactor.GetArrayTransposed in *.
  destruct (AltrepFactor.CADR (R_altrep_data2 (object s))) as [arrays|];
    [|discriminate].
  destruct (fits_nth (Some arrays) (R_altrep_data1 (object s)) 0 k c Hfits Hc)
    as [_ (t & Ht & _)].
  exists t. rewrite read_nth_error by lia. now rewrite Nat2Z.id.
Qed.

Lemma first_chunk_is_the_chunk_of_start_witness :
  let s := example_factor_session in
  let chunked_array := AltrepFactor.GetChunkedArray (object s) in
  reachable_factor s
  /\ 0 <= 3 < AltrepFactor.Length (object s)
  /\ AltrepFactor.first_chunk chunked_array 0 0 3
     = position_ (ArrayResolve_new chunked_array 3)
  /\ (AltrepFactor.WasUnified (object s) = true ->
      exists transpose_data,
        AltrepFactor.GetArrayTransposed (object s)
          (AltrepFactor.first_chunk chunked_array 0 0 3)
        = Some transpose_data).
Proof.
  intros s chunked_array.
  assert (H : 0 <= 3 < AltrepFactor.Length (object s)) by evaluated.
  split; [exact example_factor_reachable|]. split; [exact H|].
  apply (first_chunk_is_the_chunk_of_start s 3 example_factor_reachable H).
Defined.

(** ** Reads that are not cached *)

(** X24: a single read caches nothing.  On a string vector that is not
    materialized, with arrow.skip_nul on, every read of an element that
    holds a nul converts it again and raises the warning again: after [n]
    reads the object is as it was, still not materialized, [n] warnings
    were added, and the next read returns the stripped string once
    more. *)
Theorem string_Elt_warns_on_every_read (s : session AltrepVectorString.Alt)
  (i : Z) (view : list ascii) (n : nat) :
  AltrepVectorString.Representation (object s) = None ->
  element (R_altrep_data1 (object s)) i = Some (true, view) ->
  existsb is_nul view = true ->
  let s' := string_reads true n s i in
  object s' = object s
  /\ warnings s'
     = warnings s ++ repeat AltrepVectorString.warning_stripped n
  /\ fst (AltrepVectorString.Elt true s' i)
     = Ok (Rf_mkCharLenCE (filter (fun c => negb (is_nul c)) view)).
Proof.
  intros Hrep Hel Hnul.
  assert (Hemb : embedded_nul (true, view) = true) by exact Hnul.
  induction n as [|n IH]; simpl.
  - split; [reflexivity|]. split; [now rewrite app_nil_r|].
    rewrite (string_Elt_unmaterialized true s i _ Hrep Hel), Hemb.
    reflexivity.
  - destruct IH as (Hobj & Hwarn & _).
    set (sn := string_reads true n s i) in *.
    assert (Hrepn : AltrepVectorString.Representation (object sn) = None)
      by now rewrite Hobj.
    assert (Heln : element (R_altrep_data1 (object sn)) i = Some (true, view))
      by now rewrite Hobj.
    assert (Hread : AltrepVectorString.Elt true sn i
                    = (Ok (stripped (true, view)),
                       AltrepVectorString.warn sn
                         AltrepVectorString.warning_stripped)).
    { rewrite (string_Elt_unmaterialized true sn i _ Hrepn Heln), Hemb.
      reflexivity. }
    rewrite Hread. cbn [snd fst].
    split; [exact Hobj|]. split.
    + unfold AltrepVectorString.warn. cbn [warnings].
      rewrite Hwarn, <- app_assoc. f_equal. symmetry. apply repeat_cons.
    + rewrite (string_Elt_unmaterialized true _ i (true, view));
        [now rewrite Hemb|exact Hrepn|exact Heln].
Qed.

Lemma string_Elt_warns_on_every_read_witness :
  let s := example_string_session in
  let view := ["c"; nul; "d"]%char in
  AltrepVectorString.Representation (object s) = None
  /\ element (R_altrep_data1 (object s)) 2 = Some (true, view)
  /\ existsb is_nul view = true
  /\ object (string_reads true 3 s 2) = object s
  /\ warnings (string_reads true 3 s 2)
     = warnings s ++ repeat AltrepVectorString.warning_stripped 3
  /\ fst (AltrepVectorString.Elt true (string_reads true 3 s 2) 2)
     = Ok (Rf_mkCharLenCE (filter (fun c => negb (is_nul c)) view)).
Proof.
  intros s view.
  split; [reflexivity|]. split; [reflexivity|]. split; [reflexivity|].
  apply (string_Elt_warns_on_every_read s 2 view 3); reflexivity.
Defined.
